(** * snowy-sdk: the deterministic authorization protocol

    A shallow embedding of the TypeScript sources
      - [src/crypto/hash.ts]      (canonicalizeJson, sha256, hashDeterministicJson)
      - [src/crypto/signer.ts]    (ensureBase58PublicKey, signHash)
      - [src/client/Transport.ts] (SnowyHttpError, SnowyTransportError, Transport.postJson)
      - [src/client/SnowyClient.ts] (assert helpers, validateGenerateResponse, generate)
    followed by the properties of the specification that were checked
    against them.

    JavaScript data is modelled as the language has it: a string is a
    sequence of UTF-16 code units, an array is its slots, some of which
    may be holes, an object is a prototype together with its own
    properties in creation order, and the order in which the own keys of
    an object are listed (by [Object.keys] and by [JSON.stringify]) is
    the one of OrdinaryOwnPropertyKeys: array indices first, in ascending
    numeric order, then the other keys in creation order.  What the
    platform decides (number texts, the conversion of objects to
    strings, the delay of a timer, the digest providers) is a parameter
    of the model. *)

From Stdlib Require Import ZArith NArith String Ascii Bool Lia DecimalString.
From Stdlib Require Import List Permutation Sorted.
Import ListNotations.

Set Implicit Arguments.
Set Warnings "-register-all".


(** ** JavaScript strings *)

Module JsString.

(** A string value: its UTF-16 code units. *)
Definition jsstring := list N.

(** A source literal (ASCII only). *)
Definition lit (s : string) : jsstring :=
  map N_of_ascii (list_ascii_of_string s).

Fixpoint eqb (a b : jsstring) : bool :=
  match a, b with
  | [], [] => true
  | x :: a', y :: b' => N.eqb x y && eqb a' b'
  | _, _ => false
  end.

(** The order of [<] on strings, which the default comparator of
    [Array.prototype.sort] uses: code unit by code unit, a proper prefix
    first. *)
Fixpoint compare (a b : jsstring) : comparison :=
  match a, b with
  | [], [] => Eq
  | [], _ :: _ => Lt
  | _ :: _, [] => Gt
  | x :: a', y :: b' =>
      match N.compare x y with
      | Eq => compare a' b'
      | c => c
      end
  end.

Definition leb (a b : jsstring) : bool :=
  match compare a b with Gt => false | _ => true end.

(** Decimal text of a length, as template literals print it. *)
Definition ofNat (n : nat) : jsstring :=
  lit (NilZero.string_of_uint (Nat.to_uint n)).

(** White space and line terminators, the code units [trim] strips. *)
Definition isWhiteSpace (c : N) : bool :=
  ((9 <=? c) && (c <=? 13) || (c =? 32) || (c =? 160) || (c =? 5760)
   || (8192 <=? c) && (c <=? 8202) || (c =? 8232) || (c =? 8233)
   || (c =? 8239) || (c =? 8287) || (c =? 12288) || (c =? 65279))%N.

Fixpoint trimStart (s : jsstring) : jsstring :=
  match s with
  | c :: s' => if isWhiteSpace c then trimStart s' else s
  | [] => []
  end.

Definition trim (s : jsstring) : jsstring :=
  rev (trimStart (rev (trimStart s))).

(** [new TextEncoder().encode]: the code units are read as UTF-16 (a
    surrogate without its partner becomes U+FFFD) and every code point
    is written in UTF-8. *)
Definition utf8OfCodePoint (c : N) : list N :=
  (if c <? 128 then [c]
   else if c <? 2048 then [192 + c / 64; 128 + c mod 64]
   else if c <? 65536 then
     [224 + c / 4096; 128 + (c / 64) mod 64; 128 + c mod 64]
   else
     [240 + c / 262144; 128 + (c / 4096) mod 64;
      128 + (c / 64) mod 64; 128 + c mod 64])%N.

Definition isHighSurrogate (c : N) : bool := ((55296 <=? c) && (c <? 56320))%N.
Definition isLowSurrogate (c : N) : bool := ((56320 <=? c) && (c <? 57344))%N.

Fixpoint codePoints (s : jsstring) : list N :=
  match s with
  | [] => []
  | c :: s' =>
      if isHighSurrogate c then
        match s' with
        | d :: s'' =>
            if isLowSurrogate d
            then (65536 + (c - 55296) * 1024 + (d - 56320))%N :: codePoints s''
            else 65533%N :: codePoints s'
        | [] => [65533%N]
        end
      else if isLowSurrogate c then 65533%N :: codePoints s'
      else c :: codePoints s'
  end.

Definition utf8Encode (input : jsstring) : list N :=
  flat_map utf8OfCodePoint (codePoints input).

(** Byte order of two byte sequences (the order the specification
    names for keys). *)
Definition bytesLeb (a b : list N) : bool := leb a b.

End JsString.

Import JsString.

(** ** JavaScript values *)

Module JsValue.

(** A Number: a finite value [m * 2^e], or one of the three non-finite
    ones.  Only its classification is ever inspected by the SDK. *)
Inductive number :=
| Finite (m e : Z)
| NaN
| Infinity (negative : bool).

Definition Number_isFinite (x : number) : bool :=
  match x with Finite _ _ => true | _ => false end.

Definition Number_isInteger (x : number) : bool :=
  match x with
  | Finite m e => (0 <=? e)%Z || (m mod 2 ^ (- e) =? 0)%Z
  | _ => false
  end.

Definition ofZ (z : Z) : number := Finite z 0.

(** Values the SDK neither builds nor accepts: what [typeof] says of
    them and the tag [Object.prototype.toString] prints. *)
Inductive exotic := ExoticObject | ExoticFunction | ExoticSymbol | ExoticBigInt.

Inductive value :=
| VUndefined
| VNull
| VBool (b : bool)
| VNum (x : number)
| VStr (s : jsstring)
| VBytes (bs : list N)                       (* a Uint8Array *)
| VArr (xs : list (option value))
    (* an Array: its slots up to [length]; [None] is a hole *)
| VObj (proto : value) (props : list (jsstring * value))
    (* an ordinary object: its [[Prototype]] and its own enumerable
       data properties in creation order *)
| VObjectPrototype                           (* the intrinsic Object.prototype *)
| VOther (k : exotic) (tag : jsstring).      (* Date, Map, a function, ... *)

(** The object literal [{}]. *)
Definition emptyObject : value := VObj VObjectPrototype [].

(** An object as [JSON.parse] or an object literal creates it. *)
Definition obj (props : list (jsstring * value)) : value :=
  VObj VObjectPrototype props.

Inductive jstype :=
| TUndefined | TObject | TBoolean | TNumber | TString
| TFunction | TSymbol | TBigInt.

Definition typeof (v : value) : jstype :=
  match v with
  | VUndefined => TUndefined
  | VNull => TObject
  | VBool _ => TBoolean
  | VNum _ => TNumber
  | VStr _ => TString
  | VBytes _ | VArr _ | VObj _ _ | VObjectPrototype => TObject
  | VOther ExoticObject _ => TObject
  | VOther ExoticFunction _ => TFunction
  | VOther ExoticSymbol _ => TSymbol
  | VOther ExoticBigInt _ => TBigInt
  end.

Definition jstype_eqb (a b : jstype) : bool :=
  match a, b with
  | TUndefined, TUndefined | TObject, TObject | TBoolean, TBoolean
  | TNumber, TNumber | TString, TString | TFunction, TFunction
  | TSymbol, TSymbol | TBigInt, TBigInt => true
  | _, _ => false
  end.

(** ToBoolean. *)
Definition truthy (v : value) : bool :=
  match v with
  | VUndefined | VNull => false
  | VBool b => b
  | VNum (Finite m _) => negb (m =? 0)%Z
  | VNum NaN => false
  | VNum (Infinity _) => true
  | VStr s => negb (Nat.eqb (length s) 0)
  | _ => true
  end.

Definition isNullish (v : value) : bool :=
  match v with VUndefined | VNull => true | _ => false end.

(** [a ?? b] *)
Definition coalesce (a b : value) : value := if isNullish a then b else a.

(** Type(v) is Object. *)
Definition isObject (v : value) : bool :=
  match v with
  | VBytes _ | VArr _ | VObj _ _ | VObjectPrototype => true
  | VOther ExoticObject _ | VOther ExoticFunction _ => true
  | _ => false
  end.

(** [v === s] for a string [s]. *)
Definition isString (v : value) (s : jsstring) : bool :=
  match v with VStr s' => JsString.eqb s' s | _ => false end.

(** *** Own properties *)

Fixpoint lookup (k : jsstring) (props : list (jsstring * value)) : option value :=
  match props with
  | [] => None
  | (k', v) :: rest => if JsString.eqb k k' then Some v else lookup k rest
  end.

Fixpoint replace (k : jsstring) (v : value) (props : list (jsstring * value))
  : list (jsstring * value) :=
  match props with
  | [] => []
  | (k', v') :: rest =>
      if JsString.eqb k k' then (k', v) :: rest else (k', v') :: replace k v rest
  end.

(** An array index: the canonical decimal text of an integer below
    [2^32 - 1]. *)
Definition isDigit (c : N) : bool := ((48 <=? c) && (c <=? 57))%N.

Definition digitsValue (s : jsstring) : N :=
  fold_left (fun acc c => (acc * 10 + (c - 48))%N) s 0%N.

Definition arrayIndex (s : jsstring) : option N :=
  match s with
  | [] => None
  | c :: rest =>
      if forallb isDigit s && negb ((c =? 48)%N && negb (Nat.eqb (length rest) 0))
         && (length s <=? 10)%nat && (digitsValue s <? 4294967295)%N
      then Some (digitsValue s) else None
  end.

Definition isArrayIndex (s : jsstring) : bool :=
  match arrayIndex s with Some _ => true | None => false end.

Definition indexValue (s : jsstring) : N :=
  match arrayIndex s with Some n => n | None => 0%N end.

(** Insertion sort; the sorts below are over keys that are pairwise
    different, where every sorting algorithm gives the same list. *)
Section Sort.
Variable A : Type.
Variable le : A -> A -> bool.

Fixpoint insert (x : A) (l : list A) : list A :=
  match l with
  | [] => [x]
  | y :: l' => if le x y then x :: l else y :: insert x l'
  end.

Fixpoint isort (l : list A) : list A :=
  match l with
  | [] => []
  | x :: l' => insert x (isort l')
  end.
End Sort.

(** [Array.prototype.sort()] on strings, without a comparator. *)
Definition Array_sort (keys : list jsstring) : list jsstring :=
  isort JsString.leb keys.

Definition notIndex (k : jsstring) : bool := negb (isArrayIndex k).

(** The order of array indices among the own keys. *)
Definition indexLeb (a b : jsstring) : bool := (indexValue a <=? indexValue b)%N.

(** OrdinaryOwnPropertyKeys restricted to string keys. *)
Definition ownKeys (props : list (jsstring * value)) : list jsstring :=
  let keys := map fst props in
  isort indexLeb (filter isArrayIndex keys)
  ++ filter notIndex keys.

(** [Object.keys(v)] for the values that reach it. *)
Definition Object_keys (v : value) : list jsstring :=
  match v with
  | VObj _ props => ownKeys props
  | _ => []
  end.

Definition protoKey : jsstring := lit "__proto__".

(** Whether the accessor [Object.prototype.__proto__] is inherited
    through the prototype chain starting at [p]. *)
Fixpoint inheritsObjectPrototype (p : value) : bool :=
  match p with
  | VObjectPrototype => true
  | VObj p' props =>
      match lookup protoKey props with
      | Some _ => false
      | None => inheritsObjectPrototype p'
      end
  | VArr _ | VBytes _ | VOther ExoticObject _ | VOther ExoticFunction _ => true
  | _ => false
  end.

(** [o[k] = v] on an ordinary object whose prototype chain holds no
    property named [k] other than the accessor [__proto__] of
    Object.prototype: an own property is overwritten in place; the key
    [__proto__], when not an own property, runs the inherited setter,
    which replaces the prototype by an object or [null], ignores any
    other value, and creates no property; any other key is created
    after the existing ones.  (The accessor is the property
    [Object.prototype.__proto__] of ECMA-262, which Node.js and the
    browsers provide; [JSON.parse] and computed keys of object literals
    create an own property of that name instead.) *)
Definition assign (o : value) (k : jsstring) (v : value) : value :=
  match o with
  | VObj p props =>
      match lookup k props with
      | Some _ => VObj p (replace k v props)
      | None =>
          if JsString.eqb k protoKey && inheritsObjectPrototype p then
            if isObject v || match v with VNull => true | _ => false end
            then VObj v props else o
          else VObj p (props ++ [(k, v)])
      end
  | _ => o
  end.

(** [o[k]] / [o.k]: an own property, else the prototype chain.
    Object.prototype, Array.prototype and the like hold none of the
    names the SDK reads. *)
Fixpoint get (o : value) (k : jsstring) : value :=
  match o with
  | VObj p props =>
      match lookup k props with
      | Some v => v
      | None => get p k
      end
  | VArr xs =>
      match arrayIndex k with
      | Some i =>
          match nth (N.to_nat i) xs None with
          | Some x => x
          | None => VUndefined             (* a hole, or past the end *)
          end
      | None => VUndefined
      end
  | _ => VUndefined
  end.

(** An array literal without holes. *)
Definition arr (xs : list value) : value := VArr (map Some xs).

(** [Object.getPrototypeOf(value) === Object.prototype ||
     Object.getPrototypeOf(value) === null] for an object [value]. *)
Definition hasPlainPrototype (v : value) : bool :=
  match v with
  | VObj VObjectPrototype _ | VObj VNull _ => true
  | VObjectPrototype => true
  | _ => false
  end.

End JsValue.

Import JsValue.

(** ** Errors, results and asynchronous effects *)

Module Effects.

(** What a [throw] carries.  [Error_] is [new Error(message)]; the two
    classes of Transport.ts follow; [Foreign] is an error made outside
    the SDK (a [SyntaxError] of [JSON.parse], a [TypeError] of [fetch],
    whatever a wallet rejects with). *)
Inductive thrown :=
| Error_ (message : jsstring)
| SnowyHttpError (status : N) (statusText url bodyText : jsstring)
| SnowyTransportError (message : jsstring) (cause : option thrown)
| Foreign (name message : jsstring).

(** The class of an error: what [instanceof] and [name] tell apart. *)
Inductive errorKind := KError | KSnowyHttpError | KSnowyTransportError | KForeign.

Definition kindOf (e : thrown) : errorKind :=
  match e with
  | Error_ _ => KError
  | SnowyHttpError _ _ _ _ => KSnowyHttpError
  | SnowyTransportError _ _ => KSnowyTransportError
  | Foreign _ _ => KForeign
  end.


(** Synchronous code: returns or throws. *)
Inductive result (A : Type) :=
| Ok (a : A)
| Throw (e : thrown).
Arguments Throw {A} e.

(** A promise at the end of time: fulfilled, rejected, or never settled. *)
Inductive promise (A : Type) :=
| Fulfilled (a : A)
| Rejected (e : thrown)
| Pending.
Arguments Rejected {A} e.
Arguments Pending {A}.

(** An [AbortSignal], seen from the call it is handed to: the time (in
    milliseconds after the call starts) at which it aborts, if ever, and
    its abort reason. *)
Record AbortSignal := {
  abortsAt : option N;
  reason : thrown
}.

Record RequestInit := {
  method : jsstring;
  headers : list (jsstring * jsstring);
  body : option jsstring;
  signal : option AbortSignal
}.

(** The calls that leave the SDK. *)
Inductive event :=
| Digest (data : list N)                     (* a SHA-256 provider is run *)
| SignMessage (message : list N)             (* wallet.signMessage *)
| Fetch (url : jsstring) (init : RequestInit). (* fetchFn *)

(** An asynchronous computation run to its end: the external calls it
    made, in order, and how its promise settled. *)
Definition async (A : Type) : Type := (list event * promise A)%type.

Definition trace {A} (m : async A) : list event := fst m.
Definition outcome {A} (m : async A) : promise A := snd m.

Class Monad (M : Type -> Type) := {
  ret : forall {A}, A -> M A;
  bind : forall {A B}, M A -> (A -> M B) -> M B
}.

#[export] Instance result_Monad : Monad result := {
  ret := fun A a => Ok a;
  bind := fun A B m k => match m with Ok a => k a | Throw e => Throw e end
}.

#[export] Instance async_Monad : Monad async := {
  ret := fun A a => ([], Fulfilled a);
  bind := fun A B m k =>
    match m with
    | (t, Fulfilled a) => let (t', p) := k a in (t ++ t', p)
    | (t, Rejected e) => (t, Rejected e)
    | (t, Pending) => (t, Pending)
    end
}.

Declare Scope monad_scope.
Notation "x <- m ;; k" := (bind m (fun x => k))
  (at level 61, m at next level, right associativity) : monad_scope.
Notation "m ;; k" := (bind m (fun _ => k))
  (at level 61, right associativity) : monad_scope.
Open Scope monad_scope.

(** [throw] in an async function. *)
Definition reject {A} (e : thrown) : async A := ([], Rejected e).

(** A synchronous call inside an async function. *)
Definition sync {A} (r : result A) : async A :=
  match r with Ok a => ret a | Throw e => reject e end.

(** [await] of a promise obtained from an external call [ev]. *)
Definition call {A} (ev : event) (p : promise A) : async A := ([ev], p).

(** [try { m } catch (e) { h e }] around awaited code. *)
Definition tryCatch {A} (m : async A) (h : thrown -> async A) : async A :=
  match m with
  | (t, Rejected e) => let (t', p) := h e in (t ++ t', p)
  | _ => m
  end.

(** Left to right over a list, stopping at the first throw. *)
Section MapResult.
Variables (A B : Type) (f : A -> result B).

Fixpoint mapResult (l : list A) : result (list B) :=
  match l with
  | [] => Ok []
  | x :: l' => y <- f x ;; ys <- mapResult l' ;; ret (y :: ys)
  end.
End MapResult.

End Effects.

Import Effects.
Open Scope monad_scope.

(** ** The platform and the npm packages the SDK calls *)

Module Platform.

(** [import("crypto")] of Node.js. *)
Record NodeCrypto := {
  webcrypto_subtle : option (list N -> promise (list N));
  createHash_sha256 : list N -> result (list N)
}.

Record Platform := {
  (* package bs58 *)
  bs58_decode : jsstring -> option (list N);   (* None: it throws *)
  bs58_encode : list N -> jsstring;
  (* digest providers *)
  crypto_subtle : option (list N -> promise (list N));  (* globalThis.crypto?.subtle *)
  import_crypto : option NodeCrypto;                     (* None: the import fails *)
  (* built-ins *)
  Number_toString : number -> jsstring;
  (* ToString of a value that is not a string, as a template literal
     applies it: it throws a TypeError on a Symbol and on an object
     without a usable [toString] or [valueOf] (one created with a null
     prototype), and whatever a [toString] method throws *)
  String_of : value -> result jsstring;
  (* JSON.stringify of an object the model does not look into: an
     exotic object (a Date, a Map, a cyclic structure, ...) or an object
     that may have a callable [toJSON]; it may throw *)
  JSON_stringify_opaque : value -> result (option jsstring);
  JSON_parse : jsstring -> result value;
  (* setTimeout(f, delay): the whole number of milliseconds after which
     the platform runs [f]; a delay outside the range the platform
     supports is replaced by the platform *)
  setTimeout_delay : number -> N;
  Date_now : Z
}.

End Platform.

Import Platform.

(** ** JSON.stringify *)

Module Json.

Definition hexDigit (n : N) : N := (if n <? 10 then 48 + n else 87 + n)%N.

Definition unicodeEscape (c : N) : jsstring :=
  lit "\u" ++ [hexDigit (c / 4096); hexDigit ((c / 256) mod 16);
               hexDigit ((c / 16) mod 16); hexDigit (c mod 16)]%N.

Definition escapeUnit (c : N) : jsstring :=
  (if c =? 8 then lit "\b" else if c =? 9 then lit "\t"
   else if c =? 10 then lit "\n" else if c =? 12 then lit "\f"
   else if c =? 13 then lit "\r" else if c =? 34 then [92; 34]
   else if c =? 92 then [92; 92]
   else if c <? 32 then unicodeEscape c
   else [c])%N.

(** QuoteJSONString without the enclosing quotes. *)
Fixpoint escape (s : jsstring) : jsstring :=
  match s with
  | [] => []
  | c :: s' =>
      if isHighSurrogate c then
        match s' with
        | d :: s'' =>
            if isLowSurrogate d then c :: d :: escape s''
            else unicodeEscape c ++ escape s'
        | [] => unicodeEscape c
        end
      else if isLowSurrogate c then unicodeEscape c ++ escape s'
      else escapeUnit c ++ escape s'
  end.

Definition quote (s : jsstring) : jsstring := [34%N] ++ escape s ++ [34%N].

Fixpoint join (sep : jsstring) (parts : list jsstring) : jsstring :=
  match parts with
  | [] => []
  | [p] => p
  | p :: rest => p ++ sep ++ join sep rest
  end.

(** The lookup of [toJSON] through the prototype chain of an object
    finds nothing that [JSON.stringify] would call: it ends at a
    property that is a plain value, or at Object.prototype, [null] or
    the prototype of the arrays, without leaving the objects the model
    describes. *)
Fixpoint noToJSON (v : value) : bool :=
  match v with
  | VObj p props =>
      match lookup (lit "toJSON") props with
      | Some (VOther _ _) => false
      | Some _ => true
      | None => noToJSON p
      end
  | VOther _ _ => false
  | _ => true
  end.

(** The TypeError of SerializeJSONProperty on a BigInt (the message is
    the one of V8). *)
Definition bigIntError : thrown :=
  Foreign (lit "TypeError") (lit "Do not know how to serialize a BigInt").

Definition textOr (default : jsstring) (t : option jsstring) : jsstring :=
  match t with Some t => t | None => default end.

Section Stringify.
Variable P : Platform.

(** The members ["0":b0,"1":b1,...] of a typed array. *)
Fixpoint byteMembers (i : nat) (bs : list N) : list jsstring :=
  match bs with
  | [] => []
  | b :: bs' =>
      (quote (ofNat i) ++ lit ":" ++ Number_toString P (ofZ (Z.of_N b)))
      :: byteMembers (S i) bs'
  end.

(** SerializeJSONProperty; [Ok None] is [undefined].  A BigInt throws;
    an object is asked for its [toJSON] first, and the platform decides
    when there may be one to call; the own keys are visited in the order
    of [ownKeys]; in an array a hole, [undefined], a function and a
    Symbol are written as [null], in an object a property with such a
    value is left out; a typed array is written with its indices as
    keys. *)
Fixpoint serialize (v : value) : result (option jsstring) :=
  match v with
  | VUndefined => Ok None
  | VNull => Ok (Some (lit "null"))
  | VBool true => Ok (Some (lit "true"))
  | VBool false => Ok (Some (lit "false"))
  | VNum x => Ok (Some (if Number_isFinite x then Number_toString P x else lit "null"))
  | VStr s => Ok (Some (quote s))
  | VBytes bs => Ok (Some (lit "{" ++ join (lit ",") (byteMembers 0 bs) ++ lit "}"))
  | VArr xs =>
      items <- mapResult (fun slot => match slot with
                                      | Some x => t <- serialize x ;;
                                                  ret (textOr (lit "null") t)
                                      | None => Ok (lit "null")
                                      end) xs ;;
      ret (Some (lit "[" ++ join (lit ",") items ++ lit "]"))
  | VObj _ props =>
      if negb (noToJSON v) then JSON_stringify_opaque P v
      else
        let member :=
          (fix member (ps : list (jsstring * value)) (k : jsstring)
             : result (list jsstring) :=
             match ps with
             | [] => Ok []
             | (k', x) :: ps' =>
                 if JsString.eqb k k' then
                   t <- serialize x ;;
                   ret match t with
                       | Some t => [quote k ++ lit ":" ++ t]
                       | None => []
                       end
                 else member ps' k
             end) props in
        members <- mapResult member (ownKeys props) ;;
        ret (Some (lit "{" ++ join (lit ",") (concat members) ++ lit "}"))
  | VObjectPrototype => Ok (Some (lit "{}"))
  | VOther ExoticObject _ => JSON_stringify_opaque P v
  | VOther ExoticBigInt _ => Throw bigIntError
  | VOther _ _ => Ok None
  end.

(** [JSON.stringify(v)]. *)
Definition JSON_stringify (v : value) : result (option jsstring) := serialize v.

End Stringify.

End Json.

Import Json.

(** ** src/crypto/hash.ts *)

Module Hash.

Definition assertJsonSafeNumber (value : number) : result unit :=
  if negb (Number_isFinite value)
  then Throw (Error_ (lit "Snowy SDK: numbers must be finite for deterministic hashing"))
  else Ok tt.

Definition isPlainObject (value : JsValue.value) : bool :=
  jstype_eqb (typeof value) TObject
  && negb (match value with VNull => true | _ => false end)
  && hasPlainPrototype value.

(** [Object.prototype.toString.call(value)] *)
Definition Object_toString (value : JsValue.value) : jsstring :=
  match value with
  | VUndefined => lit "[object Undefined]"
  | VNull => lit "[object Null]"
  | VBool _ => lit "[object Boolean]"
  | VNum _ => lit "[object Number]"
  | VStr _ => lit "[object String]"
  | VBytes _ => lit "[object Uint8Array]"
  | VArr _ => lit "[object Array]"
  | VObj _ _ | VObjectPrototype => lit "[object Object]"
  | VOther _ tag => lit "[object " ++ tag ++ lit "]"
  end.

Definition undefinedError : thrown :=
  Error_ (lit "Snowy SDK: undefined values are not allowed in hashed payloads").

Definition bytesError : thrown :=
  Error_ (lit "Snowy SDK: Uint8Array is not JSON-canonical; encode to base58/base64 string before hashing").

Definition unsupportedError (value : JsValue.value) : thrown :=
  Error_ (lit "Snowy SDK: unsupported value type for hashing: " ++ Object_toString value).

(** The body of [for (const key of keys) { ... out[key] = ... }], where
    [canonAt key] is [canonicalizeJson(value[key])] after the check
    that [value[key]] is not [undefined]. *)
Section Loop.
Variable canonAt : jsstring -> result JsValue.value.

Fixpoint fillSorted (keys : list jsstring) (out : JsValue.value) : result JsValue.value :=
  match keys with
  | [] => Ok out
  | key :: keys' => c <- canonAt key ;; fillSorted keys' (assign out key c)
  end.
End Loop.

(** The callback of [Array.prototype.map] at one slot: a hole is
    skipped, and is a hole of the result. *)
Section ArrayMap.
Variable f : JsValue.value -> result JsValue.value.

Definition mapSlot (slot : option JsValue.value) : result (option JsValue.value) :=
  match slot with
  | Some x => y <- f x ;; ret (Some y)
  | None => Ok None
  end.
End ArrayMap.

Fixpoint canonicalizeJson (value : JsValue.value) : result JsValue.value :=
  match value with
  | VUndefined => Throw undefinedError
  | VNull => Ok VNull
  | VStr _ | VBool _ => Ok value
  | VNum x => assertJsonSafeNumber x ;; Ok value
  | VBytes _ => Throw bytesError
  | VArr xs =>
      ys <- mapResult (mapSlot canonicalizeJson) xs ;; ret (VArr ys)
  | VObj _ props =>
      if isPlainObject value then
        let canonAt :=
          (fix canonAt (ps : list (jsstring * JsValue.value)) (key : jsstring)
             : result JsValue.value :=
             match ps with
             | [] => Throw undefinedError
             | (k, v) :: ps' =>
                 if JsString.eqb key k then
                   match v with
                   | VUndefined => Throw undefinedError
                   | _ => canonicalizeJson v
                   end
                 else canonAt ps' key
             end) props in
        fillSorted canonAt (Array_sort (Object_keys value)) emptyObject
      else Throw (unsupportedError value)
  | VObjectPrototype => Ok emptyObject
  | VOther _ _ => Throw (unsupportedError value)
  end.

(** The closure [canonAt] of [canonicalizeJson], stated with [lookup]:
    lines 51 to 55 for one key of [props]. *)
Definition canonicalizeAt (props : list (jsstring * JsValue.value)) (key : jsstring)
  : result JsValue.value :=
  match lookup key props with
  | None | Some VUndefined => Throw undefinedError
  | Some v => canonicalizeJson v
  end.

Section WithPlatform.
Variable P : Platform.

Definition noSha256Error : thrown :=
  Error_ (lit "Snowy SDK: no SHA-256 implementation available in this environment").

Definition sha256Raw (data : list N) : async (list N) :=
  match crypto_subtle P with
  | Some digest => call (Digest data) (digest data)
  | None =>
      tryCatch
        match import_crypto P with
        | None => reject (Foreign (lit "Error") (lit "Cannot find module 'crypto'"))
        | Some nodeCrypto =>
            match webcrypto_subtle nodeCrypto with
            | Some digest => call (Digest data) (digest data)
            | None =>
                call (Digest data)
                  match createHash_sha256 nodeCrypto data with
                  | Ok hash => Fulfilled hash
                  | Throw e => Rejected e
                  end
            end
        end
        (fun _ => reject noSha256Error)
  end.

Definition sha256 (data : list N) : async (list N) := sha256Raw data.

Definition sha256Base58 (data : list N) : async jsstring :=
  digest <- sha256Raw data ;;
  ret (bs58_encode P digest).

(** [utf8Encode(json)] for the result of [JSON.stringify]; the
    encoder reads [undefined] as the empty string. *)
Definition encodeJson (json : option jsstring) : list N :=
  utf8Encode (textOr [] json).

Record HashResult := { bytes : list N; base58 : jsstring }.

Definition hashDeterministicJson (value : JsValue.value) : async HashResult :=
  canonical <- sync (canonicalizeJson value) ;;
  json <- sync (JSON_stringify P canonical) ;;
  bytes <- sha256 (encodeJson json) ;;
  ret {| bytes := bytes; base58 := bs58_encode P bytes |}.

Definition hashDeterministicJsonBase58 (value : JsValue.value) : async jsstring :=
  canonical <- sync (canonicalizeJson value) ;;
  json <- sync (JSON_stringify P canonical) ;;
  sha256Base58 (encodeJson json).

Definition hashDeterministicJsonBytes (value : JsValue.value) : async (list N) :=
  canonical <- sync (canonicalizeJson value) ;;
  json <- sync (JSON_stringify P canonical) ;;
  sha256 (encodeJson json).

End WithPlatform.

End Hash.

Import Hash.

(** ** src/solana/types.ts and src/crypto/signer.ts *)

Module Signer.

Record SnowyWallet := {
  publicKey : jsstring;
  signMessage : list N -> promise value
}.

Section WithPlatform.
Variable P : Platform.

Definition invalidBase58Error : thrown :=
  Error_ (lit "Snowy SDK: wallet.publicKey must be a valid base58 string").

Definition publicKeyLengthError (n : nat) : thrown :=
  Error_ (lit "Snowy SDK: wallet.publicKey must decode to 32 bytes (got "
          ++ ofNat n ++ lit ")").

Definition ensureBase58PublicKey (publicKey : jsstring) : result unit :=
  match bs58_decode P publicKey with
  | None => Throw invalidBase58Error
  | Some decoded =>
      if negb (length decoded =? 32)%nat
      then Throw (publicKeyLengthError (length decoded))
      else Ok tt
  end.

Definition hashLengthError : thrown :=
  Error_ (lit "Snowy SDK: expected a 32-byte hash to sign").

Definition signatureTypeError : thrown :=
  Error_ (lit "Snowy SDK: wallet.signMessage must return Uint8Array").

Definition signatureLengthError (n : nat) : thrown :=
  Error_ (lit "Snowy SDK: signature must be 64 bytes (got " ++ ofNat n ++ lit ")").

Definition signHash (wallet : SnowyWallet) (hash32 : value) : async jsstring :=
  sync (ensureBase58PublicKey (publicKey wallet)) ;;
  match hash32 with
  | VBytes h =>
      if negb (length h =? 32)%nat then reject hashLengthError
      else
        sig <- call (SignMessage h) (signMessage wallet h) ;;
        match sig with
        | VBytes s =>
            if negb (length s =? 64)%nat
            then reject (signatureLengthError (length s))
            else ret (bs58_encode P s)
        | _ => reject signatureTypeError
        end
  | _ => reject hashLengthError
  end.

End WithPlatform.

End Signer.

Import Signer.

(** ** src/client/Transport.ts *)

Module Transport.

(** A [Response] as the call that made it sees it: [text] is how
    [res.text()] settles, which depends on the signal that was given to
    the [fetch] that returned the response (an abort while the body is
    read makes it reject). *)
Record Response := {
  ok : bool;
  status : N;
  statusText : jsstring;
  text : promise jsstring                    (* res.text() *)
}.

Definition FetchFn : Type := jsstring -> RequestInit -> promise Response.

(** A transport after its constructor: [timeoutMs] is a number or
    [undefined]. *)
Record Transport := {
  fetchFn : FetchFn;
  timeoutMs : option number
}.

(** The third argument of [postJson]. *)
Record PostInit := {
  init_timeoutMs : option number;
  init_signal : option AbortSignal
}.

Definition timeoutReason : thrown := Error_ (lit "Snowy SDK: request timeout").

Definition jsonHeaders : list (jsstring * jsstring) :=
  [(lit "content-type", lit "application/json"); (lit "accept", lit "application/json")].

Definition emptyBodyError : thrown :=
  SnowyTransportError (lit "Snowy SDK: empty JSON response body") None.

Definition parseError (e : thrown) : thrown :=
  SnowyTransportError (lit "Snowy SDK: failed to parse JSON response") (Some e).

Definition networkError (e : thrown) : thrown :=
  SnowyTransportError (lit "Snowy SDK: network or fetch failure") (Some e).

Section WithPlatform.
Variable P : Platform.

(** The signal of the [AbortController] whose [abort] the timer set by
    [setTimeout(..., timeoutMs)] calls.  The timer is set when the call
    starts and cleared in the [finally] clause, when the call has
    settled: until then, that is while the response and its body are
    awaited, the signal aborts once the platform's delay has passed. *)
Definition timerSignal (timeoutMs : number) : AbortSignal :=
  {| abortsAt := Some (setTimeout_delay P timeoutMs); reason := timeoutReason |}.

(** [timeoutMs ? ... : undefined]: the controller and the timer exist
    when the timeout is truthy (not [undefined], 0 or NaN). *)
Definition controllerSignal (timeoutMs : option number) : option AbortSignal :=
  match timeoutMs with
  | Some t => if truthy (VNum t) then Some (timerSignal t) else None
  | None => None
  end.

(** [init?.timeoutMs ?? this.timeoutMs] *)
Definition effectiveTimeout (this : Transport) (init : option PostInit)
  : option number :=
  match init with
  | Some i => match init_timeoutMs i with
              | Some t => Some t
              | None => timeoutMs this
              end
  | None => timeoutMs this
  end.

(** [init?.signal] *)
Definition externalSignal (init : option PostInit) : option AbortSignal :=
  match init with
  | Some i => init_signal i
  | None => None
  end.

(** The outer [catch]: errors of the two transport classes pass,
    anything else is wrapped. *)
Definition rethrow (e : thrown) : thrown :=
  match e with
  | SnowyHttpError _ _ _ _ => e
  | SnowyTransportError _ _ => e
  | _ => networkError e
  end.

(** [JSON.stringify(body)] is evaluated inside the [try], before
    [fetchFn] is called: when it throws, nothing is fetched and the
    outer [catch] wraps the error.  The [finally] clause clears the
    timer once the call has settled (see [timerSignal]). *)
Definition postJson (this : Transport) (url : jsstring) (body : value)
           (init : option PostInit) : async value :=
  let timeoutMs := effectiveTimeout this init in
  let controller := controllerSignal timeoutMs in
  tryCatch
    (let signal :=
       match externalSignal init with
       | Some s => Some s
       | None => controller
       end in
     json <- sync (JSON_stringify P body) ;;
     let request := {| method := lit "POST";
                       headers := jsonHeaders;
                       body := json;
                       signal := signal |} in
     res <- call (Fetch url request) (fetchFn this url request) ;;
     (* await res.text(): the timer is still set, and the body is read
        under the signal that was given to fetchFn *)
     text <- ([], text res) ;;
     if negb (ok res) then
       reject (SnowyHttpError (status res) (statusText res) url text)
     else if (length text =? 0)%nat then
       reject emptyBodyError
     else
       match JSON_parse P text with
       | Ok v => ret v
       | Throw e => reject (parseError e)
       end)
    (fun e => reject (rethrow e)).

End WithPlatform.

(** *** The network behind [fetch]

    What the remote end does with a request, when nothing aborts the
    call: its status line and headers arrive [t] milliseconds after the
    call, and its body has been read [d] milliseconds later, to its end
    or to a fault ([text r], where [Pending] is a body that stalls); or
    the connection fails after [t] milliseconds; or nothing ever
    arrives. *)
Inductive Server :=
| Responds (t : N) (r : Response) (d : N)
| Fails (t : N) (e : thrown)
| Silent.

Definition completion (srv : Server) : promise Response :=
  match srv with
  | Responds _ r _ => Fulfilled r
  | Fails _ e => Rejected e
  | Silent => Pending
  end.

(** The body of [r], read by [end], is settled before [t]. *)
Definition bodyBefore (r : Response) (end_ t : N) : bool :=
  match text r with
  | Pending => false
  | _ => (end_ <? t)%N
  end.

(** The call, headers and body, is completed before [t]. *)
Definition completesBefore (srv : Server) (t : N) : bool :=
  match srv with
  | Responds t' r d => (t' <? t)%N && bodyBefore r (t' + d) t
  | Fails t' _ => (t' <? t)%N
  | Silent => false
  end.

(** A response whose body was cut by an abort: [res.text()] rejects
    with the abort reason. *)
Definition cutBody (r : Response) (why : thrown) : Response :=
  {| ok := ok r; status := status r; statusText := statusText r;
     text := Rejected why |}.

(** The contract of the platform's [fetch]: the call follows the
    remote end, which sees the URL and the body, until the signal given
    in [init] aborts.  An abort before the headers have arrived rejects
    the promise of [fetch] with the signal's reason; an abort after
    that, while the body is read, makes [res.text()] reject with it; an
    abort after the body has been read changes nothing.  A signal that
    is not given to [fetch] has no effect on it. *)
Definition networkFetch (server : jsstring -> option jsstring -> Server) : FetchFn :=
  fun url init =>
    let remote := server url (body init) in
    match signal init with
    | Some sg =>
        match abortsAt sg with
        | Some a =>
            match remote with
            | Responds t r d =>
                if (t <? a)%N then
                  Fulfilled (if bodyBefore r (t + d) a then r else cutBody r (reason sg))
                else Rejected (reason sg)
            | Fails t e => if (t <? a)%N then Rejected e else Rejected (reason sg)
            | Silent => Rejected (reason sg)
            end
        | None => completion remote
        end
    | None => completion remote
    end.

End Transport.

Import Transport.

(** ** src/types/request.ts and src/client/SnowyClient.ts *)

Module Client.

(** [SnowyGenerateInput] as it arrives at run time: every field is
    checked by [generate], so every field is an arbitrary value
    ([undefined] when absent). *)
Record SnowyGenerateInput := {
  model : value;
  prompt : value;
  temperature : value;
  maxTokens : value;
  timestamp : value
}.

(** A client after its constructor. *)
Record SnowyClient := {
  endpoint : jsstring;
  programId : jsstring;
  transport : Transport
}.

Section WithPlatform.
Variable P : Platform.

(** A template literal's [${v}]: ToString, which may throw. *)
Definition interpolate (v : value) : result jsstring :=
  match v with
  | VStr s => Ok s
  | _ => String_of P v
  end.

Definition assertNonEmptyString (name : jsstring) (value : JsValue.value) : result unit :=
  if negb (jstype_eqb (typeof value) TString)
     || match value with
        | VStr s => (length (trim s) =? 0)%nat
        | _ => false
        end
  then Throw (Error_ (lit "Snowy SDK: " ++ name ++ lit " must be a non-empty string"))
  else Ok tt.

Definition assertModel (model : value) : result unit :=
  if negb (isString model (lit "snowy-base"))
     && negb (isString model (lit "snowy-meme"))
     && negb (isString model (lit "snowy-code"))
  then
    text <- interpolate model ;;
    Throw (Error_ (lit "Snowy SDK: unsupported model: " ++ text))
  else Ok tt.

Definition assertNumber (name : jsstring) (value : JsValue.value) : result unit :=
  if negb (jstype_eqb (typeof value) TNumber)
     || negb match value with
             | VNum x => Number_isFinite x
             | _ => false
             end
  then Throw (Error_ (lit "Snowy SDK: " ++ name ++ lit " must be a finite number"))
  else Ok tt.

Definition assertInt (name : jsstring) (value : JsValue.value) : result unit :=
  assertNumber name value ;;
  if negb match value with
          | VNum x => Number_isInteger x
          | _ => false
          end
  then Throw (Error_ (lit "Snowy SDK: " ++ name ++ lit " must be an integer"))
  else Ok tt.

Definition isType (v : value) (t : jstype) : bool := jstype_eqb (typeof v) t.

Definition check (failed : bool) (message : string) : result unit :=
  if failed then Throw (Error_ (lit message)) else Ok tt.

Definition validateGenerateResponse (resp : value) : result unit :=
  check (negb (truthy resp) || negb (isType resp TObject))
        "Snowy SDK: invalid response" ;;
  let r := resp in
  check (negb (isType (get r (lit "output")) TString))
        "Snowy SDK: response.output must be a string" ;;
  check (negb (isType (get r (lit "model")) TString))
        "Snowy SDK: response.model must be a string" ;;
  assertModel (get r (lit "model")) ;;
  check (negb (truthy (get r (lit "usage")))
         || negb (isType (get r (lit "usage")) TObject))
        "Snowy SDK: response.usage missing" ;;
  let u := get r (lit "usage") in
  check (negb (isType (get u (lit "promptTokens")) TNumber))
        "Snowy SDK: usage.promptTokens missing" ;;
  check (negb (isType (get u (lit "completionTokens")) TNumber))
        "Snowy SDK: usage.completionTokens missing" ;;
  check (negb (isType (get u (lit "totalTokens")) TNumber))
        "Snowy SDK: usage.totalTokens missing" ;;
  check (negb (truthy (get r (lit "verification")))
         || negb (isType (get r (lit "verification")) TObject))
        "Snowy SDK: response.verification missing" ;;
  let v := get r (lit "verification") in
  check (negb (isType (get v (lit "requestHash")) TString))
        "Snowy SDK: verification.requestHash missing" ;;
  check (negb (isType (get v (lit "signer")) TString))
        "Snowy SDK: verification.signer missing" ;;
  check (negb (isType (get v (lit "programId")) TString))
        "Snowy SDK: verification.programId missing".

Definition walletRequiredError : thrown := Error_ (lit "Snowy SDK: wallet is required").

Definition mismatchError (field : string) : thrown :=
  Error_ (lit "Snowy SDK: response verification." ++ lit field ++ lit " mismatch").

(** The object literal [toHash] of [generate]. *)
Definition toHashProps (this : SnowyClient) (wallet : SnowyWallet)
           (input : SnowyGenerateInput) (timestamp : value)
  : list (jsstring * value) :=
  [ (lit "programId", VStr (programId this));
    (lit "model", model input);
    (lit "prompt", prompt input);
    (lit "temperature", temperature input);
    (lit "maxTokens", maxTokens input);
    (lit "timestamp", timestamp);
    (lit "signer", VStr (publicKey wallet)) ].

(** [input.timestamp ?? Date.now()] *)
Definition timestampOf (input : SnowyGenerateInput) : value :=
  coalesce (timestamp input) (VNum (ofZ (Date_now P))).

(** [{ ...toHash, requestHash, signature }] *)
Definition requestProps (toHash : list (jsstring * value))
           (requestHash signature : jsstring) : list (jsstring * value) :=
  toHash ++ [ (lit "requestHash", VStr requestHash);
              (lit "signature", VStr signature) ].

(** The checks of [generate] after [validateGenerateResponse]. *)
Definition verifyResponse (this : SnowyClient) (wallet : SnowyWallet)
           (requestHash : jsstring) (response : value) : result unit :=
  let verification := get response (lit "verification") in
  (if negb (isString (get verification (lit "requestHash")) requestHash)
   then Throw (mismatchError "requestHash") else Ok tt) ;;
  (if negb (isString (get verification (lit "signer")) (publicKey wallet))
   then Throw (mismatchError "signer") else Ok tt) ;;
  (if negb (isString (get verification (lit "programId")) (programId this))
   then Throw (mismatchError "programId") else Ok tt).

Definition generate (this : SnowyClient) (wallet : option SnowyWallet)
           (input : SnowyGenerateInput) : async value :=
  match wallet with
  | None => reject walletRequiredError
  | Some wallet =>
      sync (ensureBase58PublicKey P (publicKey wallet)) ;;
      let model := model input in
      sync (assertModel model) ;;
      sync (assertNonEmptyString (lit "prompt") (prompt input)) ;;
      sync (assertNumber (lit "temperature") (temperature input)) ;;
      sync (assertInt (lit "maxTokens") (maxTokens input)) ;;
      let timestamp := timestampOf input in
      sync (assertInt (lit "timestamp") timestamp) ;;
      let toHash := toHashProps this wallet input timestamp in
      h <- hashDeterministicJson P (obj toHash) ;;
      let requestHash := base58 h in
      signature <- signHash P wallet (VBytes (bytes h)) ;;
      let request := obj (requestProps toHash requestHash signature) in
      response <- postJson P (transport this) (endpoint this) request None ;;
      sync (validateGenerateResponse response) ;;
      sync (verifyResponse this wallet requestHash response) ;;
      ret response
  end.

End WithPlatform.

End Client.

Import Client.

(** ** Vocabulary of the properties *)

Module Props.

Fixpoint nodupb (l : list jsstring) : bool :=
  match l with
  | [] => true
  | k :: l' => negb (existsb (JsString.eqb k) l') && nodupb l'
  end.

(** A JSON-representable value, as [JSON.parse] builds it: no
    [undefined], no non-finite number, no typed array, no hole in an
    array, every object created with Object.prototype and with pairwise
    different keys. *)
Fixpoint isJson (v : value) : bool :=
  match v with
  | VNull | VBool _ | VStr _ => true
  | VNum x => Number_isFinite x
  | VArr xs => forallb (fun slot => match slot with
                                    | Some x => isJson x
                                    | None => false
                                    end) xs
  | VObj VObjectPrototype props =>
      nodupb (map fst props) && forallb (fun '(_, x) => isJson x) props
  | _ => false
  end.

(** Two values that are equal up to the order in which the keys of
    their objects were inserted. *)
Fixpoint sameJson (a b : value) : bool :=
  match a, b with
  | VNull, VNull => true
  | VBool x, VBool y => Bool.eqb x y
  | VNum (Finite m e), VNum (Finite m' e') => (m =? m')%Z && (e =? e')%Z
  | VStr s, VStr t => JsString.eqb s t
  | VArr xs, VArr ys =>
      (fix all2 (xs ys : list (option value)) : bool :=
         match xs, ys with
         | [], [] => true
         | Some x :: xs', Some y :: ys' => sameJson x y && all2 xs' ys'
         | None :: xs', None :: ys' => all2 xs' ys'
         | _, _ => false
         end) xs ys
  | VObj VObjectPrototype ps, VObj VObjectPrototype qs =>
      forallb (fun '(k, x) => match lookup k qs with
                              | Some y => sameJson x y
                              | None => false
                              end) ps
      && forallb (fun '(k, _) => existsb (JsString.eqb k) (map fst ps)) qs
  | _, _ => false
  end.

(** A property of the value in a slot of an array, if it holds one. *)
Definition inSlot (Q : value -> Prop) (slot : option value) : Prop :=
  match slot with
  | Some x => Q x
  | None => True
  end.

(** Two slots are both holes, or hold two values that are related. *)
Definition slots2 (R : value -> value -> Prop) (a b : option value) : Prop :=
  match a, b with
  | Some x, Some y => R x y
  | None, None => True
  | _, _ => False
  end.

(** Data that [JSON.stringify] writes by itself: at every depth of
    the elements, own properties and prototypes there is no
    [undefined], function, Symbol, BigInt or exotic object. *)
Fixpoint plainData (v : value) : bool :=
  match v with
  | VUndefined | VOther _ _ => false
  | VArr xs => forallb (fun slot => match slot with
                                    | Some x => plainData x
                                    | None => true
                                    end) xs
  | VObj p props => plainData p && forallb (fun '(_, x) => plainData x) props
  | _ => true
  end.

(** The member that [JSON.stringify] writes for the key [k] of an
    object with the own properties [props]: none when the value is
    [undefined], a function or a Symbol. *)
Definition memberText (P : Platform) (props : list (jsstring * value)) (k : jsstring)
  : result (list jsstring) :=
  match lookup k props with
  | Some x =>
      t <- serialize P x ;;
      ret match t with
          | Some t => [quote k ++ lit ":" ++ t]
          | None => []
          end
  | None => Ok []
  end.

(** No object anywhere in the value has an own key [__proto__]. *)
Fixpoint protoFree (v : value) : bool :=
  match v with
  | VArr xs => forallb (fun slot => match slot with
                                    | Some x => protoFree x
                                    | None => true
                                    end) xs
  | VObj p props =>
      protoFree p
      && forallb (fun '(k, x) => negb (JsString.eqb k protoKey) && protoFree x) props
  | _ => true
  end.

Section SortedBy.
Variable A : Type.
Variable le : A -> A -> bool.

Fixpoint sortedBy (l : list A) : bool :=
  match l with
  | [] => true
  | x :: l' => forallb (le x) l' && sortedBy l'
  end.
End SortedBy.

(** The order the specification names for keys: byte order of the
    UTF-8 text. *)
Definition utf8Leb (a b : jsstring) : bool :=
  bytesLeb (utf8Encode a) (utf8Encode b).

(** The keys of [c], in the order in which its encoding lists them,
    ascend in the byte order of their UTF-8 text. *)
Definition keysInUtf8Order (c : value) : bool :=
  sortedBy utf8Leb (Object_keys c).

(** An event that sends something over the wire. *)
Definition isFetch (ev : event) : bool :=
  match ev with Fetch _ _ => true | _ => false end.

Definition isDigest (ev : event) : bool :=
  match ev with Digest _ => true | _ => false end.

Definition is32Bytes (v : value) : bool :=
  match v with
  | VBytes h => (length h =? 32)%nat
  | _ => false
  end.

(** The checks [generate] makes of its arguments, in its order. *)
Definition validation (P : Platform) (wallet : SnowyWallet)
           (input : SnowyGenerateInput) : result unit :=
  ensureBase58PublicKey P (publicKey wallet) ;;
  assertModel P (model input) ;;
  assertNonEmptyString (lit "prompt") (prompt input) ;;
  assertNumber (lit "temperature") (temperature input) ;;
  assertInt (lit "maxTokens") (maxTokens input) ;;
  assertInt (lit "timestamp") (timestampOf P input).

(** The value [generate] hashes, and the request it posts. *)
Definition payload (P : Platform) (this : SnowyClient) (wallet : SnowyWallet)
           (input : SnowyGenerateInput) : value :=
  obj (toHashProps this wallet input (timestampOf P input)).

Definition signedRequest (P : Platform) (this : SnowyClient) (wallet : SnowyWallet)
           (input : SnowyGenerateInput) (h : HashResult) (signature : jsstring) : value :=
  obj (requestProps (toHashProps this wallet input (timestampOf P input))
                    (base58 h) signature).

(** The signal [postJson] hands over: the caller's if there is one,
    else the one of the timer if there is a timer, else none. *)
Definition signalFor (P : Platform) (this : Transport) (init : option PostInit)
  : option AbortSignal :=
  match externalSignal init with
  | Some s => Some s
  | None => controllerSignal P (effectiveTimeout this init)
  end.

(** The [RequestInit] that [postJson] hands to [fetchFn], given the
    text [JSON.stringify(body)] returned. *)
Definition requestFor (P : Platform) (this : Transport) (json : option jsstring)
           (init : option PostInit) : RequestInit :=
  {| method := lit "POST";
     headers := jsonHeaders;
     body := json;
     signal := signalFor P this init |}.

(** What [JSON.stringify(v)] returns, for a [v] on which it does not
    throw. *)
Definition jsonText (P : Platform) (v : value) : option jsstring :=
  match JSON_stringify P v with
  | Ok json => json
  | Throw _ => None
  end.

(** The [RequestInit] for a body that [JSON.stringify] accepts. *)
Definition sentRequest (P : Platform) (this : Transport) (body : value)
           (init : option PostInit) : RequestInit :=
  requestFor P this (jsonText P body) init.

(** The bytes the hash functions digest for a canonical value. *)
Definition canonicalBytes (P : Platform) (canonical : value) : list N :=
  encodeJson (jsonText P canonical).

(** How [postJson] settles once [fetchFn] has returned its promise. *)
Definition settle (P : Platform) (url : jsstring) (p : promise Response)
  : promise value :=
  match p with
  | Pending => Pending
  | Rejected e => Rejected (rethrow e)
  | Fulfilled res =>
      match text res with
      | Pending => Pending
      | Rejected e => Rejected (rethrow e)
      | Fulfilled txt =>
          if negb (ok res) then
            Rejected (SnowyHttpError (status res) (statusText res) url txt)
          else if (length txt =? 0)%nat then Rejected emptyBodyError
          else match JSON_parse P txt with
               | Ok v => Fulfilled v
               | Throw e => Rejected (parseError e)
               end
      end
  end.

(** An object of the shape of [SnowyGenerateResponse]
    (src/types/response.ts) whose three usage fields hold arbitrary
    values. *)
Definition responseWithUsage (output model : jsstring) (promptTokens completionTokens
           totalTokens : value) (requestHash signer programId : jsstring) : value :=
  obj [ (lit "output", VStr output);
        (lit "model", VStr model);
        (lit "usage", obj [ (lit "promptTokens", promptTokens);
                            (lit "completionTokens", completionTokens);
                            (lit "totalTokens", totalTokens) ]);
        (lit "verification", obj [ (lit "requestHash", VStr requestHash);
                                   (lit "signer", VStr signer);
                                   (lit "programId", VStr programId) ]) ].

(** The same with three numbers: a [SnowyGenerateResponse]. *)
Definition responseObject (output model : jsstring) (promptTokens completionTokens
           totalTokens : number) (requestHash signer programId : jsstring) : value :=
  responseWithUsage output model (VNum promptTokens) (VNum completionTokens)
                    (VNum totalTokens) requestHash signer programId.

(** [SnowyModel] (src/types/model.ts, as [assertModel] lists it). *)
Definition isModelName (m : jsstring) : bool :=
  JsString.eqb m (lit "snowy-base") || JsString.eqb m (lit "snowy-meme")
  || JsString.eqb m (lit "snowy-code").

(** The call is still in flight [t] milliseconds after it started:
    the response, headers and body, is completed later, or never. *)
Definition pendingAt (srv : Server) (t : N) : bool :=
  negb (completesBefore srv (t + 1)).

(** The remote end never completes the call: nothing arrives, or the
    body stalls. *)
Definition neverCompletes (srv : Server) : bool :=
  match srv with
  | Responds _ r _ => match text r with Pending => true | _ => false end
  | Fails _ _ => false
  | Silent => true
  end.

End Props.

Import Props.

(** ** A concrete platform for examples

    Package bs58 is the Bitcoin base58 codec: a leading [1] stands for a
    leading zero byte, the rest is a big-endian number; [decode] throws
    on a character outside the alphabet.  The digest provider and the
    JSON parser are test doubles; the timers are those of Node.js. *)

Module Fixture.

Definition alphabet : jsstring :=
  lit "123456789ABCDEFGHJKLMNPQRSTUVWXYZabcdefghijkmnopqrstuvwxyz".

Fixpoint indexOf (c : N) (l : list N) (i : N) : option N :=
  match l with
  | [] => None
  | x :: l' => if (x =? c)%N then Some i else indexOf c l' (i + 1)%N
  end.

Fixpoint leadingCount (c : N) (l : list N) : nat :=
  match l with
  | x :: l' => if (x =? c)%N then S (leadingCount c l') else 0
  | [] => 0
  end.

Fixpoint digitsOf (fuel : nat) (base n : N) (acc : list N) : list N :=
  match fuel with
  | O => acc
  | S fuel' =>
      if (n =? 0)%N then acc
      else digitsOf fuel' base (n / base)%N ((n mod base)%N :: acc)
  end.

Fixpoint indices (s : jsstring) : option (list N) :=
  match s with
  | [] => Some []
  | c :: s' =>
      match indexOf c alphabet 0, indices s' with
      | Some i, Some rest => Some (i :: rest)
      | _, _ => None
      end
  end.

Definition base58_decode (s : jsstring) : option (list N) :=
  match indices s with
  | None => None
  | Some ds =>
      let n := fold_left (fun acc d => (acc * 58 + d)%N) ds 0%N in
      Some (repeat 0%N (leadingCount 49 s) ++ digitsOf (length s) 256 n [])
  end.

Definition base58_encode (bs : list N) : jsstring :=
  let n := fold_left (fun acc b => (acc * 256 + b)%N) bs 0%N in
  repeat 49%N (leadingCount 0 bs)
  ++ map (fun d => nth (N.to_nat d) alphabet 0%N) (digitsOf (2 * length bs) 58 n []).

(** A stand-in for SHA-256: 32 bytes that depend on the data. *)
Definition testDigest (data : list N) : list N :=
  let s := fold_left N.add data 0%N in
  map (fun i => ((s + N.of_nat i) mod 256)%N) (seq 0 32).

Definition decimal (z : Z) : jsstring :=
  lit (NilZero.string_of_int (Z.to_int z)).

(** Number::toString for the numbers of the examples: the integers,
    and the double nearest to 0.2. *)
Definition numberText (x : number) : jsstring :=
  match x with
  | Finite m 0 => decimal m
  | Finite _ _ => lit "0.2"
  | NaN => lit "NaN"
  | Infinity false => lit "Infinity"
  | Infinity true => lit "-Infinity"
  end.

(** ToString for the values of the examples.  A Symbol and an object
    created with a null prototype throw a TypeError (messages of V8). *)
Definition symbolToStringError : thrown :=
  Foreign (lit "TypeError") (lit "Cannot convert a Symbol value to a string").

Definition noPrimitiveError : thrown :=
  Foreign (lit "TypeError") (lit "Cannot convert object to primitive value").

Definition stringOf (v : value) : result jsstring :=
  match v with
  | VUndefined => Ok (lit "undefined")
  | VNull => Ok (lit "null")
  | VBool true => Ok (lit "true")
  | VBool false => Ok (lit "false")
  | VNum x => Ok (numberText x)
  | VStr s => Ok s
  | VOther ExoticSymbol _ => Throw symbolToStringError
  | VObj VNull _ => Throw noPrimitiveError
  | VOther _ tag => Ok (lit "[object " ++ tag ++ lit "]")
  | _ => Ok (lit "[object Object]")
  end.

(** The value of a finite number rounded down to a whole number. *)
Definition floorOf (m e : Z) : Z :=
  if (0 <=? e)%Z then (m * 2 ^ e)%Z else (m / 2 ^ (- e))%Z.

(** The timers of Node.js: a delay that is not between 1 and 2^31 - 1
    is set to 1; fractions of a millisecond are not counted. *)
Definition inTimerRange (m e : Z) : bool :=
  (1 <=? floorOf m e)%Z
  && (if (0 <=? e)%Z then (m * 2 ^ e <=? 2147483647)%Z
      else (m <=? 2147483647 * 2 ^ (- e))%Z).

Definition nodeTimerDelay (delay : number) : N :=
  match delay with
  | Finite m e => if inTimerRange m e then Z.to_N (floorOf m e) else 1%N
  | _ => 1%N
  end.

Definition platform (parse : jsstring -> result value) : Platform := {|
  bs58_decode := base58_decode;
  bs58_encode := base58_encode;
  crypto_subtle := Some (fun data => Fulfilled (testDigest data));
  import_crypto := None;
  Number_toString := numberText;
  String_of := stringOf;
  JSON_stringify_opaque := fun _ => Ok (Some (lit "{}"));
  JSON_parse := parse;
  setTimeout_delay := nodeTimerDelay;
  Date_now := 1730000000000
|}.

Definition syntaxError : thrown :=
  Foreign (lit "SyntaxError") (lit "Unexpected token").

(** A parser that knows one text. *)
Definition parseOnly (text : jsstring) (v : value) : jsstring -> result value :=
  fun t => if JsString.eqb t text then Ok v else Throw syntaxError.

Definition num (z : Z) : value := VNum (ofZ z).



(** 32 zero bytes in base58: a well-formed public key. *)
Definition goodKey : jsstring := repeat 49%N 32.

(** 31 zero bytes in base58. *)
Definition shortKey : jsstring := repeat 49%N 31.

Definition wallet (key : jsstring) (sig : value) : SnowyWallet :=
  {| publicKey := key; signMessage := fun _ => Fulfilled sig |}.

Definition goodInput : SnowyGenerateInput := {|
  model := VStr (lit "snowy-base");
  prompt := VStr (lit "hi");
  temperature := VNum (Finite 3602879701896397 (-54));
  maxTokens := num 16;
  timestamp := num 1730000000000
|}.

Definition badInput : SnowyGenerateInput := {|
  model := VStr (lit "gpt");
  prompt := VStr (lit "");
  temperature := VNum NaN;
  maxTokens := VNum (Finite 1 (-1));
  timestamp := VUndefined
|}.

(** A platform whose parser rejects everything, a transport that is
    never answered and has no timeout. *)
Definition P0 : Platform := platform (fun _ => Throw syntaxError).

Definition idle : Transport := {| fetchFn := fun _ _ => Pending; timeoutMs := None |}.

(** A timeout of [ms] milliseconds. *)
Definition ms (n : Z) : option number := Some (ofZ n).

Definition client (t : Transport) : SnowyClient := {|
  endpoint := lit "https://router.example/inference";
  programId := lit "SNOWy1111111111111111111111111111111111";
  transport := t
|}.

Definition okResponse (bodyText : jsstring) : Response :=
  {| ok := true; status := 200; statusText := lit "OK"; text := Fulfilled bodyText |}.

(** Remote ends: one that never answers, one whose connection breaks
    after 3 ms, one that answers after 3 ms with a given text that has
    been read 1 ms later, and one that answers after 3 ms with a body
    that never ends. *)
Definition silent : jsstring -> option jsstring -> Server := fun _ _ => Silent.



Definition replying (bodyText : jsstring) : jsstring -> option jsstring -> Server :=
  fun _ _ => Responds 3 (okResponse bodyText) 1.

Definition stalling : jsstring -> option jsstring -> Server :=
  fun _ _ => Responds 3 {| ok := true; status := 200; statusText := lit "OK";
                           text := Pending |} 0.

(** A transport over the network with a timeout of 10 ms. *)
Definition timed (server : jsstring -> option jsstring -> Server) : Transport :=
  {| fetchFn := networkFetch server; timeoutMs := ms 10 |}.

(** Signals of the caller: one that is never aborted, one that the
    caller aborts after 5 ms. *)
Definition abortReason : thrown :=
  Foreign (lit "AbortError") (lit "This operation was aborted").

Definition neverAborted : AbortSignal := {| abortsAt := None; reason := abortReason |}.


Definition withSignal (sg : AbortSignal) : option PostInit :=
  Some {| init_timeoutMs := None; init_signal := Some sg |}.

(** Values [JSON.stringify] does not write as they are: a BigInt, a
    typed array. *)
Definition bigInt : value := VOther ExoticBigInt (lit "BigInt").

Definition twoBytes : value := VBytes [1; 2]%N.

(** A Symbol, which no template literal can print. *)
Definition symbol : value := VOther ExoticSymbol (lit "Symbol").

Definition url0 : jsstring := lit "https://router.example/inference".

(** A wallet that returns 64 bytes, a transport that is answered with
    the text [R], and a parser that reads [R] as a given value. *)
Definition sig64 : value := VBytes (repeat 7%N 64).

Definition replyText : jsstring := lit "R".

Definition answering : Transport :=
  {| fetchFn := fun _ _ => Fulfilled (okResponse replyText); timeoutMs := None |}.

Definition platformReading (v : value) : Platform := platform (parseOnly replyText v).

(** The request hash [generate] sends for [goodInput]. *)
Definition sentHash : jsstring :=
  base58_encode
    (testDigest (canonicalBytes P0 (payload P0 (client answering)
                                      (wallet goodKey sig64) goodInput))).

(** The digest, the hash and the signature of the request that
    [generate] sends for [goodInput] with the wallet of the examples. *)
Definition sentDigest : list N :=
  testDigest (canonicalBytes P0 (payload P0 (client answering)
                                   (wallet goodKey sig64) goodInput)).

Definition sentHashResult : HashResult := {| bytes := sentDigest; base58 := sentHash |}.

Definition sentSignature : jsstring := base58_encode (repeat 7%N 64).

Definition sentBody (P : Platform) (c : SnowyClient) : value :=
  signedRequest P c (wallet goodKey sig64) goodInput sentHashResult sentSignature.

(** A response that claims another request hash, and one that echoes
    the request but reports usage numbers that are not counts. *)
Definition forged : value :=
  responseObject (lit "hello") (lit "snowy-base") (ofZ 1) (ofZ 2) (ofZ 3)
                 (lit "forged") goodKey (programId (client answering)).

Definition oddUsage : value :=
  responseObject (lit "hello") (lit "snowy-base") NaN (Infinity false) (Finite 1 (-1))
                 sentHash goodKey (programId (client answering)).

End Fixture.

(** ** The constructors (src/client/Transport.ts, src/client/SnowyClient.ts) *)

Module Constructors.

Record TransportInit := {
  init_fetchFn : option FetchFn;
  default_timeoutMs : option number
}.

Definition noFetchError : thrown :=
  Error_ (lit "Snowy SDK: fetch is not available in this runtime. Provide TransportInit.fetchFn.").

(** [new Transport(init)], where [globalFetch] is [globalThis.fetch]. *)
Definition newTransport (globalFetch : option FetchFn) (init : option TransportInit)
  : result Transport :=
  let init := match init with
              | Some i => i
              | None => {| init_fetchFn := None; default_timeoutMs := None |}
              end in
  let f := match init_fetchFn init with
           | Some f => Some f
           | None => globalFetch
           end in
  match f with
  | None => Throw noFetchError
  | Some f => Ok {| fetchFn := f; timeoutMs := default_timeoutMs init |}
  end.

(** [SnowyClientConfig] at run time; [programId] is [undefined] when
    absent.  The field [network] is stored and never read. *)
Record SnowyClientConfig := {
  config_endpoint : value;
  config_programId : value;
  config_transport : option Transport;
  config_transportInit : option TransportInit
}.

(** [assertNonEmptyString(name, v)], after which [v] is a string. *)
Definition nonEmptyString (name : jsstring) (v : value) : result jsstring :=
  assertNonEmptyString name v ;;
  match v with
  | VStr s => Ok s
  | _ => Throw (Error_ (lit "Snowy SDK: " ++ name ++ lit " must be a non-empty string"))
  end.

(** [new SnowyClient(config)]; the constant [SNOWY_PROGRAM_ID] of
    src/constants.ts is a parameter. *)
Definition newSnowyClient (SNOWY_PROGRAM_ID : jsstring) (globalFetch : option FetchFn)
           (config : SnowyClientConfig) : result SnowyClient :=
  let endpoint := config_endpoint config in
  let programId := coalesce (config_programId config) (VStr SNOWY_PROGRAM_ID) in
  endpoint <- nonEmptyString (lit "endpoint") endpoint ;;
  programId <- nonEmptyString (lit "programId") programId ;;
  transport <- match config_transport config with
               | Some t => Ok t
               | None => newTransport globalFetch (config_transportInit config)
               end ;;
  ret {| endpoint := endpoint; programId := programId; transport := transport |}.

End Constructors.

Import Constructors.

(** ** Further vocabulary *)

Module Shapes.

(** What the canonicalizer accepts: null, booleans, strings, finite
    numbers, arrays of such (with or without holes), and plain objects of
    such (and Object.prototype itself, a plain object without enumerable
    keys). *)
Fixpoint acceptable (v : value) : bool :=
  match v with
  | VNull | VBool _ | VStr _ => true
  | VNum x => Number_isFinite x
  | VArr xs => forallb (fun slot => match slot with
                                    | Some x => acceptable x
                                    | None => true
                                    end) xs
  | VObj p props =>
      hasPlainPrototype v && forallb (fun '(_, x) => acceptable x) props
  | VObjectPrototype => true
  | _ => false
  end.

(** Every object in the value has pairwise different own keys. *)
Fixpoint distinctKeys (v : value) : bool :=
  match v with
  | VArr xs => forallb (fun slot => match slot with
                                    | Some x => distinctKeys x
                                    | None => true
                                    end) xs
  | VObj _ props =>
      nodupb (map fst props) && forallb (fun '(_, x) => distinctKeys x) props
  | _ => true
  end.

(** A value whose elements and own properties, at every depth, are
    null, booleans, strings, finite numbers, arrays without holes and
    objects with pairwise different keys: nothing [JSON.stringify] would
    drop or rewrite. *)
Fixpoint jsonData (v : value) : bool :=
  match v with
  | VNull | VBool _ | VStr _ => true
  | VNum x => Number_isFinite x
  | VArr xs => forallb (fun slot => match slot with
                                    | Some x => jsonData x
                                    | None => false
                                    end) xs
  | VObj _ props =>
      nodupb (map fst props) && forallb (fun '(_, x) => jsonData x) props
  | _ => false
  end.

(** The same, except that arrays may have holes, which
    [JSON.stringify] writes as [null]. *)
Fixpoint sparseData (v : value) : bool :=
  match v with
  | VNull | VBool _ | VStr _ => true
  | VNum x => Number_isFinite x
  | VArr xs => forallb (fun slot => match slot with
                                    | Some x => sparseData x
                                    | None => true
                                    end) xs
  | VObj _ props =>
      nodupb (map fst props) && forallb (fun '(_, x) => sparseData x) props
  | _ => false
  end.

(** No array among the elements and own properties of the value, at
    any depth, has a hole. *)
Fixpoint dense (v : value) : bool :=
  match v with
  | VArr xs => forallb (fun slot => match slot with
                                    | Some x => dense x
                                    | None => false
                                    end) xs
  | VObj _ props => forallb (fun '(_, x) => dense x) props
  | _ => true
  end.

(** The places of the holes of an array. *)
Definition holes (v : value) : list bool :=
  match v with
  | VArr xs => map (fun slot => match slot with Some _ => false | None => true end) xs
  | _ => []
  end.

Definition is_bytes (v : value) : bool :=
  match v with VBytes _ => true | _ => false end.

(** A string with a code unit that is not white space. *)
Definition notBlank (s : jsstring) : bool :=
  existsb (fun c => negb (isWhiteSpace c)) s.

Definition isFiniteNumber (v : value) : bool :=
  match v with VNum x => Number_isFinite x | _ => false end.

Definition isFiniteInteger (v : value) : bool :=
  match v with VNum x => Number_isFinite x && Number_isInteger x | _ => false end.

Definition isModelValue (v : value) : bool :=
  match v with VStr m => isModelName m | _ => false end.

Definition isNonBlankString (v : value) : bool :=
  match v with VStr s => notBlank s | _ => false end.

(** The arguments [generate] accepts. *)
Definition acceptedArguments (P : Platform) (wallet : SnowyWallet)
           (input : SnowyGenerateInput) : bool :=
  match bs58_decode P (publicKey wallet) with
  | Some d => (length d =? 32)%nat
  | None => false
  end
  && isModelValue (model input)
  && isNonBlankString (prompt input)
  && isFiniteNumber (temperature input)
  && isFiniteInteger (maxTokens input)
  && (isNullish (timestamp input) || isFiniteInteger (timestamp input)).

(** The properties of the canonical payload, in creation order. *)
Definition canonicalPayloadProps (P : Platform) (this : SnowyClient)
           (wallet : SnowyWallet) (input : SnowyGenerateInput)
  : list (jsstring * value) :=
  [ (lit "maxTokens", maxTokens input);
    (lit "model", model input);
    (lit "programId", VStr (programId this));
    (lit "prompt", prompt input);
    (lit "signer", VStr (publicKey wallet));
    (lit "temperature", temperature input);
    (lit "timestamp", timestampOf P input) ].

(** The shape [validateGenerateResponse] asks for. *)
Definition hasResponseShape (r : value) : bool :=
  truthy r && isType r TObject
  && isType (get r (lit "output")) TString
  && isModelValue (get r (lit "model"))
  && truthy (get r (lit "usage")) && isType (get r (lit "usage")) TObject
  && isType (get (get r (lit "usage")) (lit "promptTokens")) TNumber
  && isType (get (get r (lit "usage")) (lit "completionTokens")) TNumber
  && isType (get (get r (lit "usage")) (lit "totalTokens")) TNumber
  && truthy (get r (lit "verification")) && isType (get r (lit "verification")) TObject
  && isType (get (get r (lit "verification")) (lit "requestHash")) TString
  && isType (get (get r (lit "verification")) (lit "signer")) TString
  && isType (get (get r (lit "verification")) (lit "programId")) TString.

(** The result of a promise under a function. *)
Definition mapPromise {A B} (f : A -> B) (p : promise A) : promise B :=
  match p with
  | Fulfilled a => Fulfilled (f a)
  | Rejected e => Rejected e
  | Pending => Pending
  end.

End Shapes.

Import Shapes.

(** ** Further examples *)

Module Fixture2.
Import Fixture.

(** Two objects with the same content and another key order. *)
Definition nested1 : value :=
  obj [ (lit "b", arr [num 1; obj [(lit "y", VNull); (lit "x", VBool true)]]);
        (lit "a", VStr (lit "t")) ].

Definition nested2 : value :=
  obj [ (lit "a", VStr (lit "t"));
        (lit "b", arr [num 1; obj [(lit "x", VBool true); (lit "y", VNull)]]) ].

(** A wallet whose [signMessage] never settles, and one that rejects. *)
Definition stuckWallet : SnowyWallet :=
  {| publicKey := goodKey; signMessage := fun _ => Pending |}.

Definition refusal : thrown := Foreign (lit "WalletSignMessageError") (lit "User rejected").

Definition refusingWallet : SnowyWallet :=
  {| publicKey := goodKey; signMessage := fun _ => Rejected refusal |}.

(** A remote end that answers 500 with the text [oops]. *)
Definition failing500 : jsstring -> option jsstring -> Server :=
  fun _ _ => Responds 3 {| ok := false; status := 500;
                           statusText := lit "Internal Server Error";
                           text := Fulfilled (lit "oops") |} 1.

(** A platform without [globalThis.crypto] whose Node provider fails. *)
Definition noCrypto : Platform := {|
  bs58_decode := base58_decode;
  bs58_encode := base58_encode;
  crypto_subtle := None;
  import_crypto := None;
  Number_toString := Number_toString P0;
  String_of := String_of P0;
  JSON_stringify_opaque := JSON_stringify_opaque P0;
  JSON_parse := JSON_parse P0;
  setTimeout_delay := setTimeout_delay P0;
  Date_now := Date_now P0
|}.

Definition goodConfig : SnowyClientConfig := {|
  config_endpoint := VStr url0;
  config_programId := VUndefined;
  config_transport := Some idle;
  config_transportInit := None
|}.

Definition defaultProgramId : jsstring := lit "SNOWy1111111111111111111111111111111111".

(** An init that sets the timeout to 0 and gives no signal. *)
Definition zeroTimeout : option PostInit :=
  Some {| init_timeoutMs := ms 0; init_signal := None |}.

(** An array with a hole: [[1, , 3]]. *)
Definition sparse : value := VArr [Some (num 1); None; Some (num 3)].

(** A timeout beyond the range of the platform's timers. *)
Definition hugeTimeout : option number := ms 2147483648.

End Fixture2.

(** * Properties *)

(** ** The order on strings and sorting *)

Module OrderFacts.

Lemma eqb_eq (a b : jsstring) : JsString.eqb a b = true <-> a = b.
Proof.
  revert b; induction a as [|x a IH]; intros [|y b]; simpl;
    try (split; [discriminate | discriminate]); try tauto.
  rewrite andb_true_iff, N.eqb_eq, IH.
  split; [intros [-> ->]; reflexivity | intros H; inversion H; auto].
Qed.

Lemma eqb_refl (a : jsstring) : JsString.eqb a a = true.
Proof. apply eqb_eq; reflexivity. Qed.

Lemma eqb_neq (a b : jsstring) : JsString.eqb a b = false <-> a <> b.
Proof.
  rewrite <- eqb_eq. destruct (JsString.eqb a b); split; congruence.
Qed.

Lemma eqb_sym (a b : jsstring) : JsString.eqb a b = JsString.eqb b a.
Proof.
  destruct (JsString.eqb a b) eqn:E.
  - apply eqb_eq in E; subst; symmetry; apply eqb_refl.
  - symmetry; apply eqb_neq; apply eqb_neq in E; congruence.
Qed.

Lemma compare_eq (a b : jsstring) : JsString.compare a b = Eq -> a = b.
Proof.
  revert b; induction a as [|x a IH]; intros [|y b]; simpl; try discriminate; auto.
  destruct (N.compare_spec x y) as [Hxy|Hxy|Hxy]; try discriminate.
  intros Hc; subst; f_equal; auto.
Qed.

Lemma compare_refl (a : jsstring) : JsString.compare a a = Eq.
Proof. induction a as [|x a IH]; simpl; auto. now rewrite N.compare_refl. Qed.

Lemma compare_antisym (a b : jsstring) :
  JsString.compare b a = CompOpp (JsString.compare a b).
Proof.
  revert b; induction a as [|x a IH]; intros [|y b]; simpl; auto.
  rewrite (N.compare_antisym x y).
  destruct (N.compare x y); simpl; auto.
Qed.

Lemma compare_lt_trans (a b c : jsstring) :
  JsString.compare a b = Lt -> JsString.compare b c = Lt -> JsString.compare a c = Lt.
Proof.
  revert b c; induction a as [|x a IH]; intros [|y b] [|z c]; simpl;
    try discriminate; auto.
  destruct (N.compare_spec x y) as [Hxy|Hxy|Hxy];
    destruct (N.compare_spec y z) as [Hyz|Hyz|Hyz]; try discriminate; subst.
  - rewrite N.compare_refl; eauto.
  - intros _ _. apply N.compare_lt_iff in Hyz. now rewrite Hyz.
  - intros _ _. apply N.compare_lt_iff in Hxy. now rewrite Hxy.
  - intros _ _. assert (L : (x < z)%N) by lia.
    apply N.compare_lt_iff in L. now rewrite L.
Qed.

Lemma leb_total (a b : jsstring) : JsString.leb a b = true \/ JsString.leb b a = true.
Proof.
  unfold JsString.leb. rewrite (compare_antisym a b).
  destruct (JsString.compare a b); simpl; auto.
Qed.

Lemma leb_antisym (a b : jsstring) :
  JsString.leb a b = true -> JsString.leb b a = true -> a = b.
Proof.
  unfold JsString.leb. rewrite (compare_antisym a b).
  destruct (JsString.compare a b) eqn:E; simpl; try discriminate.
  intros _ _. now apply compare_eq.
Qed.

Lemma leb_trans (a b c : jsstring) :
  JsString.leb a b = true -> JsString.leb b c = true -> JsString.leb a c = true.
Proof.
  unfold JsString.leb.
  destruct (JsString.compare a b) eqn:E1; try discriminate;
    destruct (JsString.compare b c) eqn:E2; try discriminate; intros _ _.
  - apply compare_eq in E1, E2; subst. now rewrite compare_refl.
  - apply compare_eq in E1; subst. now rewrite E2.
  - apply compare_eq in E2; subst. now rewrite E1.
  - now rewrite (compare_lt_trans _ _ _ E1 E2).
Qed.



Section Sorting.
Variable A : Type.
Variable le : A -> A -> bool.

Lemma insert_perm (x : A) (l : list A) : Permutation (insert le x l) (x :: l).
Proof.
  induction l as [|y l IH]; simpl; auto.
  destruct (le x y); auto.
  rewrite IH. apply perm_swap.
Qed.

Lemma isort_perm (l : list A) : Permutation (isort le l) l.
Proof.
  induction l as [|x l IH]; simpl; auto.
  rewrite insert_perm. now constructor.
Qed.


Hypothesis le_total : forall a b, le a b = true \/ le b a = true.
Hypothesis le_trans : forall a b c, le a b = true -> le b c = true -> le a c = true.

Lemma insert_sorted (x : A) (l : list A) :
  StronglySorted (fun a b => le a b = true) l ->
  StronglySorted (fun a b => le a b = true) (insert le x l).
Proof.
  induction 1 as [|y l S IH F]; simpl.
  - repeat constructor.
  - destruct (le x y) eqn:E.
    + constructor; [constructor; auto|].
      constructor; auto.
      apply Forall_impl with (2 := F). intros; eapply le_trans; eauto.
    + constructor; auto.
      assert (Hyx : le y x = true) by (destruct (le_total x y); congruence).
      apply (Permutation_Forall (Permutation_sym (insert_perm x l))).
      constructor; auto.
Qed.

Lemma isort_sorted (l : list A) :
  StronglySorted (fun a b => le a b = true) (isort le l).
Proof.
  induction l; simpl; [constructor | now apply insert_sorted].
Qed.


Hypothesis le_antisym : forall a b, le a b = true -> le b a = true -> a = b.

Lemma sorted_perm_eq (l1 l2 : list A) :
  StronglySorted (fun a b => le a b = true) l1 ->
  StronglySorted (fun a b => le a b = true) l2 ->
  Permutation l1 l2 -> l1 = l2.
Proof.
  intros S1; revert l2; induction S1 as [|x l1 S1 IH F1]; intros l2 S2 HP.
  - apply Permutation_nil in HP; now subst.
  - destruct S2 as [|y l2 S2 F2].
    + apply Permutation_sym, Permutation_nil in HP; discriminate.
    + assert (x = y).
      { assert (Hx : In x (y :: l2))
          by (apply (Permutation_in _ HP); now left).
        assert (Hy : In y (x :: l1))
          by (apply (Permutation_in _ (Permutation_sym HP)); now left).
        destruct Hx as [->|Hx]; auto. destruct Hy as [->|Hy]; auto.
        rewrite Forall_forall in F1, F2. apply le_antisym; auto. }
      subst y. f_equal. apply IH; auto.
      now apply Permutation_cons_inv in HP.
Qed.

Lemma isort_perm_eq (l1 l2 : list A) :
  Permutation l1 l2 -> isort le l1 = isort le l2.
Proof.
  intros HP. apply sorted_perm_eq; try apply isort_sorted.
  now rewrite !isort_perm.
Qed.

Lemma isort_sorted_id (l : list A) :
  StronglySorted (fun a b => le a b = true) l -> isort le l = l.
Proof.
  intros S. apply sorted_perm_eq; auto using isort_sorted, isort_perm.
Qed.

End Sorting.

Lemma Array_sort_perm (l : list jsstring) : Permutation (Array_sort l) l.
Proof. apply isort_perm. Qed.

Lemma Array_sort_sorted (l : list jsstring) :
  StronglySorted (fun a b => JsString.leb a b = true) (Array_sort l).
Proof. apply isort_sorted; [apply leb_total | apply leb_trans]. Qed.

Lemma Array_sort_perm_eq (l1 l2 : list jsstring) :
  Permutation l1 l2 -> Array_sort l1 = Array_sort l2.
Proof.
  apply isort_perm_eq; [apply leb_total | apply leb_trans | apply leb_antisym].
Qed.

Lemma Array_sort_idem (l : list jsstring) : Array_sort (Array_sort l) = Array_sort l.
Proof.
  apply isort_sorted_id;
    [apply leb_total | apply leb_trans | apply leb_antisym | apply Array_sort_sorted].
Qed.

Lemma ownKeys_perm (props : list (jsstring * value)) :
  Permutation (ownKeys props) (map fst props).
Proof.
  unfold ownKeys. rewrite isort_perm.
  induction (map fst props) as [|k l IH]; simpl; auto.
  unfold notIndex at 1. destruct (isArrayIndex k); simpl.
  - now constructor.
  - rewrite <- Permutation_middle. now constructor.
Qed.

Lemma sort_ownKeys (props : list (jsstring * value)) :
  Array_sort (ownKeys props) = Array_sort (map fst props).
Proof. apply Array_sort_perm_eq, ownKeys_perm. Qed.

End OrderFacts.

(** ** Facts about values and the canonicalizer *)

Module CanonFacts.
Import OrderFacts.

(** Induction over values, through arrays, prototypes and properties. *)
Lemma value_rect' (Q : value -> Prop)
  (HU : Q VUndefined) (HN : Q VNull) (HB : forall b, Q (VBool b))
  (HX : forall x, Q (VNum x)) (HS : forall s, Q (VStr s))
  (HY : forall bs, Q (VBytes bs))
  (HA : forall xs, Forall (inSlot Q) xs -> Q (VArr xs))
  (HO : forall p props, Q p -> Forall (fun kv => Q (snd kv)) props -> Q (VObj p props))
  (HP : Q VObjectPrototype) (HE : forall k tag, Q (VOther k tag)) :
  forall v, Q v.
Proof.
  fix IH 1. intros v. destruct v.
  - exact HU.
  - exact HN.
  - apply HB.
  - apply HX.
  - apply HS.
  - apply HY.
  - apply HA. induction xs as [|[x|] xs IHxs]; constructor;
      [apply IH | exact IHxs | exact I | exact IHxs].
  - apply HO; [apply IH|].
    induction props as [|[k x] props IHps]; constructor; [apply IH | exact IHps].
  - exact HP.
  - apply HE.
Qed.

Lemma lookup_In k props x : lookup k props = Some x -> In (k, x) props.
Proof.
  induction props as [|[k' y] props IH]; simpl; [discriminate|].
  destruct (JsString.eqb k k') eqn:E.
  - apply eqb_eq in E; subst. intros H; inversion H; auto.
  - auto.
Qed.

Lemma lookup_None k props : lookup k props = None <-> ~ In k (map fst props).
Proof.
  induction props as [|[k' y] props IH]; simpl; [tauto|].
  destruct (JsString.eqb k k') eqn:E.
  - apply eqb_eq in E; subst. split; [discriminate | tauto].
  - apply eqb_neq in E. rewrite IH. split; [intros H [?|?]; auto; congruence | tauto].
Qed.

Lemma lookup_Some_key k props x : lookup k props = Some x -> In k (map fst props).
Proof. intros H. apply lookup_In in H. now apply (in_map fst) in H. Qed.

Lemma In_lookup k props : In k (map fst props) -> exists x, lookup k props = Some x.
Proof.
  intros H. destruct (lookup k props) eqn:E; eauto.
  apply lookup_None in E; tauto.
Qed.

Lemma lookup_app_l k pre post x :
  lookup k pre = Some x -> lookup k (pre ++ post) = Some x.
Proof.
  induction pre as [|[k' y] pre IH]; simpl; [discriminate|].
  destruct (JsString.eqb k k'); auto.
Qed.

Lemma lookup_app_r k pre post :
  lookup k pre = None -> lookup k (pre ++ post) = lookup k post.
Proof.
  induction pre as [|[k' y] pre IH]; simpl; auto.
  destruct (JsString.eqb k k'); [discriminate | auto].
Qed.

Lemma nodupb_NoDup l : nodupb l = true <-> NoDup l.
Proof.
  induction l as [|k l IH]; simpl.
  - split; auto. constructor.
  - rewrite andb_true_iff, negb_true_iff, IH. split.
    + intros [H1 H2]. constructor; auto. intros Hin.
      assert (existsb (JsString.eqb k) l = true)
        by (apply existsb_exists; exists k; split; auto; apply eqb_refl).
      congruence.
    + intros H; inversion H; subst. split; auto.
      destruct (existsb (JsString.eqb k) l) eqn:E; auto.
      apply existsb_exists in E as [k' [Hin Hk]]. apply eqb_eq in Hk; subst. tauto.
Qed.

Lemma existsb_eqb_In k l : existsb (JsString.eqb k) l = true <-> In k l.
Proof.
  rewrite existsb_exists. split.
  - intros [k' [Hin Hk]]. apply eqb_eq in Hk; now subst.
  - intros H; exists k; split; auto using eqb_refl.
Qed.

(** *** mapResult *)

Lemma mapResult_Forall2 A B (f : A -> result B) l ys :
  mapResult f l = Ok ys <-> Forall2 (fun x y => f x = Ok y) l ys.
Proof.
  revert ys; induction l as [|x l IH]; intros ys; simpl.
  - split; intros H; inversion H; subst; try constructor; auto.
  - destruct (f x) as [y|e] eqn:E.
    + destruct (mapResult f l) as [ys'|e'].
      * split.
        -- intros H; inversion H; subst. constructor; auto. now apply IH.
        -- intros H; inversion H; subst.
           assert (y = y0) by congruence; subst.
           apply IH in H4. now inversion H4.
      * split; [discriminate|].
        intros H; inversion H; subst. apply IH in H4. discriminate.
    + split; [discriminate|]. intros H; inversion H; subst. congruence.
Qed.

Lemma mapResult_ext A B (f g : A -> result B) l :
  (forall x, In x l -> f x = g x) -> mapResult f l = mapResult g l.
Proof.
  induction l as [|x l IH]; simpl; auto; intros H.
  rewrite (H x), IH; auto.
Qed.

Lemma mapResult_total A B (f : A -> result B) l :
  (forall x, In x l -> exists y, f x = Ok y) -> exists ys, mapResult f l = Ok ys.
Proof.
  induction l as [|x l IH]; intros H; simpl; eauto.
  destruct (H x) as [y ->]; [now left|].
  destruct IH as [ys ->]; [intros; apply H; now right|]. simpl; eauto.
Qed.


(** *** Arrays: [map] over the slots *)

Lemma mapSlot_Ok f slot slot' :
  mapSlot f slot = Ok slot' <-> slots2 (fun x y => f x = Ok y) slot slot'.
Proof.
  destruct slot as [x|], slot' as [y|]; simpl; try destruct (f x); simpl;
    split; intros H; try discriminate; try contradiction; try congruence; auto.
Qed.

Lemma mapSlot_Forall2 f xs ys :
  mapResult (mapSlot f) xs = Ok ys
  <-> Forall2 (slots2 (fun x y => f x = Ok y)) xs ys.
Proof.
  rewrite mapResult_Forall2.
  split; intros F; induction F; constructor; auto; now apply mapSlot_Ok.
Qed.

Lemma mapSlot_ext f g xs :
  Forall (inSlot (fun x => f x = g x)) xs ->
  mapResult (mapSlot f) xs = mapResult (mapSlot g) xs.
Proof.
  intros F. apply mapResult_ext. rewrite Forall_forall in F.
  intros [x|] Hin; simpl; auto. now rewrite (F _ Hin).
Qed.

Lemma mapSlot_total f xs :
  Forall (inSlot (fun x => exists y, f x = Ok y)) xs ->
  exists ys, mapResult (mapSlot f) xs = Ok ys.
Proof.
  intros F. apply mapResult_total. rewrite Forall_forall in F.
  intros [x|] Hin; simpl; eauto. destruct (F _ Hin) as [y ->]. simpl; eauto.
Qed.


Lemma forallb_inSlot (b : value -> bool) (hole : bool) xs :
  forallb (fun slot => match slot with Some x => b x | None => hole end) xs = true ->
  Forall (inSlot (fun x => b x = true)) xs.
Proof.
  rewrite forallb_forall, Forall_forall. intros H [x|] Hin; simpl; auto.
  apply (H _ Hin).
Qed.

Lemma inSlot_forallb (b : value -> bool) xs :
  Forall (inSlot (fun x => b x = true)) xs ->
  forallb (fun slot => match slot with Some x => b x | None => true end) xs = true.
Proof.
  rewrite forallb_forall, Forall_forall. intros H [x|] Hin; auto. apply (H _ Hin).
Qed.

Lemma forallb_no_hole (b : value -> bool) xs :
  forallb (fun slot => match slot with Some x => b x | None => false end) xs = true ->
  ~ In None xs.
Proof. rewrite forallb_forall. intros H Hin. discriminate (H _ Hin). Qed.

Lemma Forall_inSlot_impl (Q R : value -> Prop) xs :
  Forall (inSlot Q) xs -> Forall (inSlot (fun x => Q x -> R x)) xs ->
  Forall (inSlot R) xs.
Proof.
  rewrite !Forall_forall. intros H1 H2 [x|] Hin; simpl; auto.
  apply (H2 _ Hin), (H1 _ Hin).
Qed.

Lemma Forall2_slots2_impl (Q : value -> Prop) (R S : value -> value -> Prop) xs ys :
  Forall (inSlot Q) xs -> Forall2 (slots2 R) xs ys ->
  (forall x y, Q x -> R x y -> S x y) ->
  Forall2 (slots2 S) xs ys.
Proof.
  intros F F2 H. induction F2 as [|a b xs ys Hab F2 IH]; constructor.
  - inversion F; subst. destruct a, b; simpl in *; auto.
  - apply IH. now inversion F.
Qed.

Lemma Forall2_slots2_right (R : value -> value -> Prop) (Q : value -> Prop) xs ys :
  Forall2 (slots2 R) xs ys -> (forall x y, R x y -> Q y) -> Forall (inSlot Q) ys.
Proof.
  intros F H. induction F as [|a b xs ys Hab F IH]; constructor; auto.
  destruct a, b; simpl in *; eauto; contradiction.
Qed.

(** *** The loop over the sorted keys *)

Lemma fillSorted_ext f g keys out :
  (forall k, In k keys -> f k = g k) -> fillSorted f keys out = fillSorted g keys out.
Proof.
  revert out; induction keys as [|k keys IH]; intros out H; simpl; auto.
  rewrite (H k) by (now left). destruct (g k); simpl; auto.
  apply IH. intros; apply H; now right.
Qed.

Lemma fillSorted_total f keys out :
  (forall k, In k keys -> exists c, f k = Ok c) ->
  exists out', fillSorted f keys out = Ok out'.
Proof.
  revert out; induction keys as [|k keys IH]; intros out H; simpl; eauto.
  destruct (H k) as [c Hc]; [now left|]. rewrite Hc; simpl.
  apply IH; intros; apply H; now right.
Qed.

(** Without a key [__proto__], the loop creates one property per key,
    in the order of the keys. *)
Lemma fillSorted_closed f keys p acc :
  NoDup keys ->
  (forall k, In k keys -> k <> protoKey) ->
  (forall k, In k keys -> lookup k acc = None) ->
  fillSorted f keys (VObj p acc)
  = (cs <- mapResult f keys ;; Ok (VObj p (acc ++ combine keys cs))).
Proof.
  revert acc; induction keys as [|k keys IH]; intros acc ND NP NA; simpl.
  - now rewrite app_nil_r.
  - destruct (f k) as [c|e]; simpl; auto.
    rewrite (NA k) by (now left).
    assert (E : JsString.eqb k protoKey = false)
      by (apply eqb_neq, NP; now left).
    rewrite E; simpl.
    inversion ND; subst.
    rewrite IH; auto.
    + destruct (mapResult f keys); simpl; auto.
      now rewrite <- app_assoc.
    + intros; apply NP; now right.
    + intros k' Hk'. rewrite lookup_app_r by (apply NA; now right).
      simpl. assert (JsString.eqb k' k = false) by (apply eqb_neq; congruence).
      now rewrite H.
Qed.

Lemma canonicalizeJson_obj p props :
  canonicalizeJson (VObj p props)
  = if isPlainObject (VObj p props)
    then fillSorted (canonicalizeAt props) (Array_sort (ownKeys props)) emptyObject
    else Throw (unsupportedError (VObj p props)).
Proof.
  simpl. destruct (isPlainObject (VObj p props)); auto.
  apply fillSorted_ext. intros k _. unfold canonicalizeAt.
  induction props as [|[k' x] props IH]; simpl; auto.
  rewrite IH. destruct (JsString.eqb k k'); try destruct x; auto.
Qed.

Lemma canonicalizeJson_arr xs :
  canonicalizeJson (VArr xs)
  = (ys <- mapResult (mapSlot canonicalizeJson) xs ;; Ok (VArr ys)).
Proof. reflexivity. Qed.

Lemma canonicalizeAt_Ok props k c :
  canonicalizeAt props k = Ok c ->
  exists x, lookup k props = Some x /\ canonicalizeJson x = Ok c.
Proof.
  unfold canonicalizeAt. destruct (lookup k props) as [x|]; [|discriminate].
  intros H. exists x; split; auto. destruct x; auto; discriminate.
Qed.

Lemma canonicalizeAt_lookup props k x :
  lookup k props = Some x -> canonicalizeAt props k = canonicalizeJson x.
Proof. unfold canonicalizeAt. intros ->. now destruct x. Qed.

(** The closed form of the canonical object when no own key is
    [__proto__]. *)
Lemma canonicalizeJson_plain p props :
  hasPlainPrototype (VObj p props) = true ->
  NoDup (map fst props) ->
  ~ In protoKey (map fst props) ->
  canonicalizeJson (VObj p props)
  = (cs <- mapResult (canonicalizeAt props) (Array_sort (map fst props)) ;;
     Ok (obj (combine (Array_sort (map fst props)) cs))).
Proof.
  intros HP ND NP. rewrite canonicalizeJson_obj.
  unfold isPlainObject. rewrite HP. simpl.
  rewrite sort_ownKeys. unfold emptyObject.
  rewrite fillSorted_closed; auto.
  - apply (Permutation_NoDup (Permutation_sym (Array_sort_perm _))); auto.
  - intros k Hk Hp; subst.
    apply (Permutation_in _ (Array_sort_perm _)) in Hk. tauto.
Qed.

End CanonFacts.

(** ** What [JSON.stringify] makes of a canonical form *)

Module StringifyFacts.
Import OrderFacts CanonFacts.

Lemma serialize_obj P p props :
  serialize P (VObj p props)
  = if negb (noToJSON (VObj p props)) then JSON_stringify_opaque P (VObj p props)
    else (members <- mapResult (memberText P props) (ownKeys props) ;;
          ret (Some (lit "{" ++ join (lit ",") (concat members) ++ lit "}"))).
Proof.
  cbn [serialize]. destruct (negb (noToJSON (VObj p props))); auto.
  erewrite mapResult_ext; [reflexivity|].
  intros k _. unfold memberText.
  induction props as [|[k' x] props IH]; simpl; auto.
  destruct (JsString.eqb k k'); auto.
Qed.

Lemma plainData_noToJSON v : plainData v = true -> noToJSON v = true.
Proof.
  induction v as [| |x|x|s|bs|xs IHxs|p props IHp IHprops| |k tag] using value_rect';
    intros Pv; try discriminate; auto.
  simpl in Pv. apply andb_true_iff in Pv as [Pp Pprops].
  cbn [noToJSON]. destruct (lookup (lit "toJSON") props) as [x|] eqn:L; auto.
  rewrite forallb_forall in Pprops. apply lookup_In in L.
  pose proof (Pprops _ L) as Px. simpl in Px.
  destruct x; auto; discriminate.
Qed.

(** [JSON.stringify] returns a text for plain data. *)
Lemma serialize_plainData P v :
  plainData v = true -> exists json, serialize P v = Ok (Some json).
Proof.
  induction v as [| |[]|x|s|bs|xs IHxs|p props IHp IHprops| |k tag] using value_rect';
    intros Pv; try discriminate; try (simpl; eauto; fail).
  - simpl in Pv. apply forallb_inSlot in Pv. simpl.
    match goal with |- context [mapResult ?f xs] =>
      destruct (@mapResult_total _ _ f xs) as [items ->] end; [|simpl; eauto].
    rewrite Forall_forall in IHxs, Pv.
    intros [x|] Hin; eauto.
    destruct (IHxs _ Hin (Pv _ Hin)) as [json ->]. simpl; eauto.
  - rewrite serialize_obj, (plainData_noToJSON _ Pv). cbn [negb].
    simpl in Pv. apply andb_true_iff in Pv as [_ Pprops].
    rewrite forallb_forall in Pprops. rewrite Forall_forall in IHprops.
    destruct (@mapResult_total _ _ (memberText P props) (ownKeys props))
      as [members ->]; [|simpl; eauto].
    intros key _. unfold memberText.
    destruct (lookup key props) as [x|] eqn:L; eauto.
    apply lookup_In in L.
    destruct (IHprops _ L (Pprops _ L)) as [json E]. simpl in E.
    rewrite E. simpl; eauto.
Qed.

Lemma replace_forallb (b : value -> bool) k c props :
  forallb (fun '(_, x) => b x) props = true -> b c = true ->
  forallb (fun '(_, x) => b x) (replace k c props) = true.
Proof.
  intros F Hc. induction props as [|[k' y] props IH]; simpl in *; auto.
  apply andb_true_iff in F as [F1 F2].
  destruct (JsString.eqb k k'); simpl; rewrite ?Hc, ?F1, ?F2; auto.
Qed.

Lemma assign_plainData out k c :
  plainData out = true -> plainData c = true -> plainData (assign out k c) = true.
Proof.
  destruct out as [| | | | | | |p props| |]; auto.
  simpl. intros H Hc. apply andb_true_iff in H as [Pp F].
  destruct (lookup k props) as [old|] eqn:L.
  - simpl. rewrite Pp. now apply replace_forallb.
  - destruct (JsString.eqb k protoKey && inheritsObjectPrototype p).
    + destruct (isObject c || match c with VNull => true | _ => false end); simpl;
        now rewrite ?Hc, ?Pp, F.
    + simpl. rewrite Pp, forallb_app. simpl. now rewrite F, Hc.
Qed.

Lemma fillSorted_plainData f keys :
  (forall k c, f k = Ok c -> plainData c = true) ->
  forall out c, plainData out = true -> fillSorted f keys out = Ok c ->
                plainData c = true.
Proof.
  intros Hf. induction keys as [|k keys IH]; intros out c Ho H; simpl in H.
  - now inversion H; subst.
  - destruct (f k) as [ck|] eqn:E; [|discriminate]. simpl in H.
    eapply IH; [|exact H]. apply assign_plainData; eauto.
Qed.

(** The canonicalizer returns plain data. *)
Lemma canonical_plainData v :
  forall c, canonicalizeJson v = Ok c -> plainData c = true.
Proof.
  induction v as [| |x|x|s|bs|xs IHxs|p props IHp IHprops| |k tag] using value_rect';
    intros c Hc; try discriminate; try (inversion Hc; subst; reflexivity).
  - simpl in Hc. destruct (assertJsonSafeNumber x); [|discriminate]. now inversion Hc.
  - rewrite canonicalizeJson_arr in Hc.
    destruct (mapResult (mapSlot canonicalizeJson) xs) as [ys|] eqn:E; [|discriminate].
    inversion Hc; subst c. clear Hc. apply mapSlot_Forall2 in E.
    simpl. apply inSlot_forallb.
    apply (@Forall2_slots2_right (fun _ y => plainData y = true) _ xs ys); [|auto].
    apply (@Forall2_slots2_impl _ _ _ xs ys IHxs E). intros x y Hx Hxy. now apply Hx.
  - rewrite canonicalizeJson_obj in Hc.
    destruct (isPlainObject (VObj p props)); [|discriminate].
    apply (@fillSorted_plainData (canonicalizeAt props) (Array_sort (ownKeys props)))
      with (out := emptyObject); [|reflexivity|exact Hc].
    intros k c' Hk. apply canonicalizeAt_Ok in Hk as [x [Hx Hk]].
    apply lookup_In in Hx. rewrite Forall_forall in IHprops.
    apply (IHprops (k, x) Hx). exact Hk.
Qed.

Section WithPlatform.
Variable P : Platform.

Lemma canonical_stringify v c :
  canonicalizeJson v = Ok c ->
  exists json, JSON_stringify P c = Ok (Some json).
Proof. intros H. apply serialize_plainData. eapply canonical_plainData; eauto. Qed.

Lemma canonical_stringify_text v c :
  canonicalizeJson v = Ok c -> JSON_stringify P c = Ok (jsonText P c).
Proof.
  intros H. destruct (canonical_stringify _ H) as [json E].
  unfold jsonText. now rewrite E.
Qed.

End WithPlatform.

End StringifyFacts.

(** ** Key order does not matter *)

Module KeyOrder.
Import OrderFacts CanonFacts.

Lemma isJson_obj p props :
  isJson (VObj p props) = true ->
  p = VObjectPrototype /\ NoDup (map fst props)
  /\ forall k x, In (k, x) props -> isJson x = true.
Proof.
  simpl. destruct p; try discriminate.
  rewrite andb_true_iff, nodupb_NoDup, forallb_forall.
  intros [ND F]. repeat split; auto. intros k x Hin. apply (F (k, x) Hin).
Qed.

Lemma sameJson_obj ps qs :
  sameJson (obj ps) (obj qs) = true ->
  (forall k x, In (k, x) ps ->
     exists y, lookup k qs = Some y /\ sameJson x y = true)
  /\ (forall k, In k (map fst qs) -> In k (map fst ps)).
Proof.
  simpl. rewrite andb_true_iff, !forallb_forall. intros [H1 H2]. split.
  - intros k x Hin. specialize (H1 (k, x) Hin). simpl in H1.
    destruct (lookup k qs) as [y|]; [eauto | discriminate].
  - intros k Hk. apply in_map_iff in Hk as [[k' y] [Hk Hin]]. simpl in Hk; subst.
    specialize (H2 (k, y) Hin). simpl in H2. now apply existsb_eqb_In.
Qed.

Lemma sameJson_arr xs ys :
  sameJson (VArr xs) (VArr ys) = true
  -> Forall2 (slots2 (fun x y => sameJson x y = true)) xs ys.
Proof.
  simpl. revert ys; induction xs as [|[x|] xs IH]; intros [|[y|] ys];
    try discriminate.
  - constructor.
  - rewrite andb_true_iff. intros [H1 H2]. constructor; auto.
  - intros H. constructor; simpl; auto.
Qed.

Lemma canonicalizeJson_sameJson a :
  forall b, isJson a = true -> isJson b = true -> sameJson a b = true ->
            canonicalizeJson a = canonicalizeJson b.
Proof.
  induction a as [| |x|x|s|bs|xs IHxs|p props IHp IHprops| |k tag] using value_rect';
    intros b Ja Jb S; try discriminate.
  - destruct b; try discriminate; reflexivity.
  - destruct b; try discriminate. simpl in S. apply eqb_prop in S; now subst.
  - destruct x; try discriminate.
    destruct b as [| | |y| | | | | |]; try discriminate.
    destruct y; try discriminate. simpl in S.
    apply andb_true_iff in S as [S1 S2].
    apply Z.eqb_eq in S1, S2; now subst.
  - destruct b; try discriminate. simpl in S. apply eqb_eq in S; now subst.
  - destruct b as [| | | | | |ys| | |]; try discriminate.
    apply sameJson_arr in S. rewrite !canonicalizeJson_arr.
    assert (E : mapResult (mapSlot canonicalizeJson) xs
                = mapResult (mapSlot canonicalizeJson) ys).
    { simpl in Ja, Jb. apply forallb_inSlot in Ja, Jb.
      revert IHxs Ja Jb.
      induction S as [|x y xs ys Sxy S IH]; intros IHxs Ja Jb; auto.
      inversion IHxs as [|? ? Hx Hxs]; subst.
      inversion Ja; subst. inversion Jb; subst.
      simpl. rewrite IH by auto.
      destruct x as [x|], y as [y|]; simpl in *; try contradiction; auto.
      now rewrite (Hx y). }
    now rewrite E.
  - destruct (isJson_obj _ _ Ja) as [-> [NDp Jp]].
    destruct b as [| | | | | | |q qs| |]; try discriminate.
    destruct (isJson_obj _ _ Jb) as [-> [NDq Jq]].
    apply sameJson_obj in S as [S1 S2].
    assert (Hin : forall k, In k (map fst props) <-> In k (map fst qs)).
    { intros k; split; auto. intros Hk.
      apply in_map_iff in Hk as [[k' x] [Hk Hx]]. simpl in Hk; subst.
      destruct (S1 _ _ Hx) as [y [Hy _]]. eapply lookup_Some_key; eauto. }
    rewrite !canonicalizeJson_obj. simpl. rewrite !sort_ownKeys.
    rewrite (Array_sort_perm_eq (NoDup_Permutation NDp NDq Hin)).
    apply fillSorted_ext. intros k Hk.
    apply (Permutation_in _ (Array_sort_perm _)), Hin in Hk.
    destruct (In_lookup _ _ Hk) as [x Hx].
    pose proof (lookup_In _ _ Hx) as Hx'.
    destruct (S1 _ _ Hx') as [y [Hy Sxy]].
    rewrite (canonicalizeAt_lookup _ _ Hx), (canonicalizeAt_lookup _ _ Hy).
    rewrite Forall_forall in IHprops.
    apply (IHprops (k, x) Hx'); eauto.
    eapply Jq, lookup_In; eauto.
Qed.

(** Hence the digest and its base58 text do not depend on the order of
    the keys either. *)
Lemma hashDeterministicJson_sameJson P a b :
  isJson a = true -> isJson b = true -> sameJson a b = true ->
  hashDeterministicJson P a = hashDeterministicJson P b.
Proof.
  intros Ja Jb S. unfold hashDeterministicJson.
  now rewrite (canonicalizeJson_sameJson a b Ja Jb S).
Qed.
End KeyOrder.

(** ** Totality and idempotence on JSON values *)

Module Idempotence.
Import OrderFacts CanonFacts KeyOrder.

Lemma canonicalizeJson_total a :
  isJson a = true -> exists c, canonicalizeJson a = Ok c.
Proof.
  induction a as [| |x|x|s|bs|xs IHxs|p props IHp IHprops| |k tag] using value_rect';
    intros Ja; try discriminate; simpl; eauto.
  - simpl in Ja. unfold assertJsonSafeNumber. rewrite Ja. simpl; eauto.
  - simpl in Ja. apply forallb_inSlot in Ja.
    destruct (@mapSlot_total canonicalizeJson xs) as [ys E].
    { apply (@Forall_inSlot_impl _ _ _ Ja). apply Forall_impl with (2 := IHxs).
      intros [x|]; simpl; auto. }
    change (exists c, canonicalizeJson (VArr xs) = Ok c).
    rewrite canonicalizeJson_arr, E. simpl; eauto.
  - change (exists c, canonicalizeJson (VObj p props) = Ok c).
    destruct (isJson_obj _ _ Ja) as [-> [ND J]].
    rewrite canonicalizeJson_obj. simpl.
    apply fillSorted_total. intros k Hk.
    apply (Permutation_in _ (Array_sort_perm _)) in Hk.
    apply (Permutation_in _ (ownKeys_perm _)) in Hk.
    destruct (In_lookup _ _ Hk) as [x Hx].
    rewrite (canonicalizeAt_lookup _ _ Hx).
    apply lookup_In in Hx. rewrite Forall_forall in IHprops.
    apply (IHprops (k, x) Hx). eauto.
Qed.

Lemma protoFree_obj p props :
  protoFree (VObj p props) = true ->
  ~ In protoKey (map fst props) /\ forall k x, In (k, x) props -> protoFree x = true.
Proof.
  simpl. rewrite andb_true_iff, forallb_forall. intros [_ F]. split.
  - intros Hin. apply in_map_iff in Hin as [[k x] [Hk Hin]]. simpl in Hk; subst.
    specialize (F _ Hin).
    change (negb (JsString.eqb protoKey protoKey) && protoFree x = true) in F.
    rewrite eqb_refl in F. discriminate.
  - intros k x Hin. specialize (F _ Hin). simpl in F.
    now apply andb_true_iff in F as [_ F].
Qed.

(** Reading back the properties created for the sorted keys. *)
Lemma mapResult_combine (g : value -> result value) keys cs :
  NoDup keys ->
  Forall2 (fun (_ : jsstring) c => g c = Ok c) keys cs ->
  forall pre, (forall k, In k keys -> lookup k pre = None) ->
  mapResult (fun k => match lookup k (pre ++ combine keys cs) with
                      | Some c => g c
                      | None => Throw undefinedError
                      end) keys = Ok cs.
Proof.
  intros ND F; induction F as [|k c keys cs Hc F IH]; intros pre Hpre; auto.
  inversion ND; subst. simpl.
  rewrite lookup_app_r by (apply Hpre; now left). simpl.
  rewrite eqb_refl, Hc. simpl.
  assert (E : pre ++ (k, c) :: combine keys cs
              = (pre ++ [(k, c)]) ++ combine keys cs)
    by (now rewrite <- app_assoc).
  rewrite E, IH; auto.
  intros k' Hk'. rewrite lookup_app_r by (apply Hpre; now right). simpl.
  assert (JsString.eqb k' k = false) by (apply eqb_neq; congruence).
  now rewrite H.
Qed.

Lemma canonicalizeJson_idempotent a :
  isJson a = true -> protoFree a = true ->
  forall c, canonicalizeJson a = Ok c -> canonicalizeJson c = Ok c.
Proof.
  induction a as [| |x|x|s|bs|xs IHxs|p props IHp IHprops| |k tag] using value_rect';
    intros Ja Fa c Hc; try discriminate.
  - inversion Hc; auto.
  - inversion Hc; auto.
  - simpl in Hc. destruct (assertJsonSafeNumber x) eqn:E; [|discriminate].
    inversion Hc; subst. simpl. now rewrite E.
  - inversion Hc; auto.
  - rewrite canonicalizeJson_arr in Hc.
    destruct (mapResult (mapSlot canonicalizeJson) xs) as [ys|] eqn:E; [|discriminate].
    inversion Hc; subst. rewrite canonicalizeJson_arr.
    assert (E' : mapResult (mapSlot canonicalizeJson) ys = Ok ys).
    { simpl in Ja, Fa. apply forallb_inSlot in Ja, Fa.
      apply mapSlot_Forall2 in E. apply mapSlot_Forall2.
      revert IHxs Ja Fa. induction E as [|x y xs ys Hxy E IH]; intros IHxs Ja Fa.
      - constructor.
      - inversion IHxs as [|? ? Hx Hxs]; subst.
        inversion Ja; subst. inversion Fa; subst.
        constructor; auto.
        destruct x as [x|], y as [y|]; simpl in *; try contradiction; auto. }
    now rewrite E'.
  - destruct (isJson_obj _ _ Ja) as [-> [ND J]].
    destruct (protoFree_obj _ _ Fa) as [NP F].
    rewrite canonicalizeJson_plain in Hc; auto.
    set (ks := Array_sort (map fst props)) in *.
    destruct (mapResult (canonicalizeAt props) ks) as [cs|] eqn:E; [|discriminate].
    inversion Hc; subst c. clear Hc.
    apply mapResult_Forall2 in E.
    assert (NDk : NoDup ks)
      by (apply (Permutation_NoDup (Permutation_sym (Array_sort_perm _))); auto).
    assert (Len : length ks = length cs) by (eapply Forall2_length; eauto).
    assert (Keys : map fst (combine ks cs) = ks).
    { clear -Len. revert cs Len; induction ks as [|k ks IH]; intros [|c cs] Len;
        simpl in *; try discriminate; auto. f_equal; auto. }
    assert (Fix : Forall2 (fun (_ : jsstring) c => canonicalizeJson c = Ok c) ks cs).
    { apply Forall2_impl with (2 := E). intros k c Hk.
      apply canonicalizeAt_Ok in Hk as [x [Hx Hk]]. apply lookup_In in Hx.
      rewrite Forall_forall in IHprops. apply (IHprops (k, x) Hx); eauto. }
    unfold obj. rewrite canonicalizeJson_plain; auto; rewrite Keys; auto.
    + replace (Array_sort ks) with ks by (unfold ks; now rewrite Array_sort_idem).
      assert (M : mapResult (canonicalizeAt (combine ks cs)) ks = Ok cs).
      { pose proof (mapResult_combine canonicalizeJson NDk Fix []
                      (fun _ _ => eq_refl)) as M0.
        simpl in M0. etransitivity; [|exact M0].
        apply mapResult_ext. intros k Hk. unfold canonicalizeAt. simpl.
        destruct (lookup k (combine ks cs)) as [c|] eqn:L; auto.
        destruct c; auto. }
      rewrite M. reflexivity.
    + intros Hin. apply NP. apply (Permutation_in _ (Array_sort_perm _)) in Hin. auto.
Qed.
End Idempotence.

(** ** The order of the keys of a canonical object *)

Module CanonicalOrder.
Import OrderFacts CanonFacts KeyOrder Idempotence Fixture.

Lemma lookup_combine (f : jsstring -> result value) keys cs :
  Forall2 (fun k c => f k = Ok c) keys cs ->
  forall k, In k keys -> exists c, lookup k (combine keys cs) = Some c /\ f k = Ok c.
Proof.
  induction 1 as [|k' c keys cs Hc F IH]; intros k Hin; [destruct Hin|].
  simpl. destruct (JsString.eqb k k') eqn:E.
  - apply eqb_eq in E; subst. eauto.
  - destruct Hin as [->|Hin]; [now rewrite eqb_refl in E | auto].
Qed.

Lemma map_fst_combine (keys : list jsstring) (cs : list value) :
  length keys = length cs -> map fst (combine keys cs) = keys.
Proof.
  revert cs; induction keys as [|k keys IH]; intros [|c cs] Len;
    simpl in *; try discriminate; auto. f_equal; auto.
Qed.




(** Code-unit order is not byte order: U+10000 (a surrogate pair)
    sorts before U+FF5E, whose UTF-8 text is smaller. *)
Lemma code_unit_order_is_not_byte_order :
  canonicalizeJson (obj [([65374%N], num 1); ([55296%N; 56320%N], num 2)])
  = Ok (obj [([55296%N; 56320%N], num 2); ([65374%N], num 1)])
  /\ utf8Encode [55296%N; 56320%N] = [240; 144; 128; 128]%N
  /\ utf8Encode [65374%N] = [239; 189; 158]%N
  /\ keysInUtf8Order (obj [([55296%N; 56320%N], num 2); ([65374%N], num 1)]) = false.
Proof. repeat split; reflexivity. Qed.

(** C1 at the JSON value [{"__proto__": {}}], as [JSON.parse] builds
    it, with [__proto__] an own property: the assignment
    [out[key] = ...] of the canonicalizer replaces the prototype of
    [out] instead of creating a property, so the canonical form is an
    object without keys whose prototype is not Object.prototype, and the
    canonicalizer rejects its own output as an unsupported value. *)
Theorem proto_key_breaks_idempotence :
  isJson (obj [(protoKey, obj [])]) = true
  /\ canonicalizeJson (obj [(protoKey, obj [])]) = Ok (VObj (obj []) [])
  /\ canonicalizeJson (VObj (obj []) [])
     = Throw (unsupportedError (VObj (obj []) [])).
Proof. repeat split; reflexivity. Qed.

(** The same assignment ignores a value that is neither an object nor
    [null]: the property is lost, and two different payloads have one
    canonical form. *)
Lemma proto_key_is_dropped :
  canonicalizeJson (obj [(protoKey, num 1); (lit "a", num 2)])
  = canonicalizeJson (obj [(lit "a", num 2)]).
Proof. reflexivity. Qed.
End CanonicalOrder.
(** ** Facts about asynchronous runs *)

Module AsyncFacts.

Lemma surjective_async A (m : async A) : (trace m, outcome m) = m.
Proof. now destruct m. Qed.

Lemma bind_Fulfilled A B t (a : A) (k : A -> async B) :
  (x <- (t, Fulfilled a) ;; k x) = (t ++ trace (k a), outcome (k a)).
Proof. simpl. now destruct (k a). Qed.

Lemma bind_Rejected A B t e (k : A -> async B) :
  (x <- (t, Rejected e) ;; k x) = (t, Rejected e).
Proof. reflexivity. Qed.

Lemma bind_Pending A B t (k : A -> async B) :
  (x <- (t, Pending) ;; k x) = (t, Pending).
Proof. reflexivity. Qed.

Lemma bind_sync_Ok A B (a : A) (k : A -> async B) :
  (x <- sync (Ok a) ;; k x) = k a.
Proof. simpl. now destruct (k a). Qed.

Lemma bind_sync_Throw A B e (k : A -> async B) :
  (x <- sync (Throw e) ;; k x) = reject e.
Proof. reflexivity. Qed.

Lemma bind_ret A B (a : A) (k : A -> async B) : (x <- ret a ;; k x) = k a.
Proof. simpl. now destruct (k a). Qed.

Lemma trace_bind A B (m : async A) (k : A -> async B) :
  trace (x <- m ;; k x)
  = trace m ++ match outcome m with
               | Fulfilled a => trace (k a)
               | _ => []
               end.
Proof.
  destruct m as [t [a|e|]]; simpl; try now rewrite app_nil_r.
  now destruct (k a).
Qed.

Lemma outcome_bind A B (m : async A) (k : A -> async B) :
  outcome (x <- m ;; k x)
  = match outcome m with
    | Fulfilled a => outcome (k a)
    | Rejected e => Rejected e
    | Pending => Pending
    end.
Proof. destruct m as [t [a|e|]]; simpl; auto. now destruct (k a). Qed.

End AsyncFacts.

(** ** Facts about [generate] *)

Module GenerateFacts.
Import AsyncFacts StringifyFacts.

Section WithPlatform.
Variable P : Platform.

(** What [generate] does once its arguments are validated. *)
Lemma generate_validation this wallet input :
  generate P this (Some wallet) input
  = (sync (validation P wallet input) ;;
     h <- hashDeterministicJson P (payload P this wallet input) ;;
     signature <- signHash P wallet (VBytes (bytes h)) ;;
     response <- postJson P (transport this) (endpoint this)
                   (signedRequest P this wallet input h signature) None ;;
     sync (validateGenerateResponse P response) ;;
     sync (verifyResponse this wallet (base58 h) response) ;;
     ret response).
Proof.
  unfold generate, validation.
  destruct (ensureBase58PublicKey P (publicKey wallet)) as [[]|]; [|reflexivity].
  rewrite bind_sync_Ok. simpl (bind (Ok tt) _).
  destruct (assertModel P (model input)) as [[]|]; [|reflexivity].
  rewrite bind_sync_Ok. simpl (bind (Ok tt) _).
  destruct (assertNonEmptyString (lit "prompt") (prompt input)) as [[]|]; [|reflexivity].
  rewrite bind_sync_Ok. simpl (bind (Ok tt) _).
  destruct (assertNumber (lit "temperature") (temperature input)) as [[]|]; [|reflexivity].
  rewrite bind_sync_Ok. simpl (bind (Ok tt) _).
  destruct (assertInt (lit "maxTokens") (maxTokens input)) as [[]|]; [|reflexivity].
  rewrite bind_sync_Ok. simpl (bind (Ok tt) _).
  reflexivity.
Qed.

Lemma generate_invalid this wallet input e :
  validation P wallet input = Throw e ->
  generate P this (Some wallet) input = ([], Rejected e).
Proof. intros H. now rewrite generate_validation, H. Qed.

Lemma generate_valid this wallet input :
  validation P wallet input = Ok tt ->
  generate P this (Some wallet) input
  = (h <- hashDeterministicJson P (payload P this wallet input) ;;
     signature <- signHash P wallet (VBytes (bytes h)) ;;
     response <- postJson P (transport this) (endpoint this)
                   (signedRequest P this wallet input h signature) None ;;
     sync (validateGenerateResponse P response) ;;
     sync (verifyResponse this wallet (base58 h) response) ;;
     ret response).
Proof. intros H. now rewrite generate_validation, H, bind_sync_Ok. Qed.

Lemma validation_key wallet input :
  validation P wallet input = Ok tt ->
  ensureBase58PublicKey P (publicKey wallet) = Ok tt.
Proof.
  unfold validation.
  destruct (ensureBase58PublicKey P (publicKey wallet)) as [[]|]; [auto|discriminate].
Qed.

(** *** The hash functions, for the text of the canonical form *)

Lemma hashDeterministicJson_eq v :
  hashDeterministicJson P v
  = (canonical <- sync (canonicalizeJson v) ;;
     bytes <- sha256 P (canonicalBytes P canonical) ;;
     ret {| bytes := bytes; base58 := bs58_encode P bytes |}).
Proof.
  unfold hashDeterministicJson.
  destruct (canonicalizeJson v) as [c|e] eqn:E; [|reflexivity].
  rewrite !bind_sync_Ok, (@canonical_stringify_text P _ _ E), bind_sync_Ok. reflexivity.
Qed.

Lemma hashDeterministicJsonBase58_eq v :
  hashDeterministicJsonBase58 P v
  = (canonical <- sync (canonicalizeJson v) ;;
     sha256Base58 P (canonicalBytes P canonical)).
Proof.
  unfold hashDeterministicJsonBase58.
  destruct (canonicalizeJson v) as [c|e] eqn:E; [|reflexivity].
  rewrite !bind_sync_Ok, (@canonical_stringify_text P _ _ E), bind_sync_Ok. reflexivity.
Qed.

Lemma hashDeterministicJsonBytes_eq v :
  hashDeterministicJsonBytes P v
  = (canonical <- sync (canonicalizeJson v) ;;
     sha256 P (canonicalBytes P canonical)).
Proof.
  unfold hashDeterministicJsonBytes.
  destruct (canonicalizeJson v) as [c|e] eqn:E; [|reflexivity].
  rewrite !bind_sync_Ok, (@canonical_stringify_text P _ _ E), bind_sync_Ok. reflexivity.
Qed.

(** *** Traces *)

Lemma sha256Raw_trace data :
  Forall (fun ev => isDigest ev = true) (trace (sha256Raw P data)).
Proof.
  unfold sha256Raw.
  destruct (crypto_subtle P); [repeat constructor|].
  destruct (import_crypto P) as [nc|]; [|repeat constructor].
  destruct (webcrypto_subtle nc) as [d|].
  - simpl. destruct (d data); repeat constructor.
  - simpl. destruct (createHash_sha256 nc data); repeat constructor.
Qed.

Lemma hashDeterministicJson_trace v :
  Forall (fun ev => isDigest ev = true) (trace (hashDeterministicJson P v)).
Proof.
  rewrite hashDeterministicJson_eq.
  destruct (canonicalizeJson v) as [c|e]; [|constructor].
  rewrite bind_sync_Ok, trace_bind. apply Forall_app; split.
  - apply sha256Raw_trace.
  - destruct (outcome _); constructor.
Qed.

Lemma hashDeterministicJson_invalid v e :
  canonicalizeJson v = Throw e -> hashDeterministicJson P v = ([], Rejected e).
Proof. unfold hashDeterministicJson. now intros ->. Qed.

(** [signHash] either never calls the wallet, or calls it once with
    the 32 bytes it was given. *)
Lemma signHash_cases wallet hash32 :
  (trace (signHash P wallet hash32) = []
   /\ exists e, outcome (signHash P wallet hash32) = Rejected e)
  \/ (exists h, hash32 = VBytes h /\ length h = 32
      /\ ensureBase58PublicKey P (publicKey wallet) = Ok tt
      /\ signHash P wallet hash32
         = (sig <- call (SignMessage h) (signMessage wallet h) ;;
            match sig with
            | VBytes s =>
                if negb (length s =? 64)%nat
                then reject (signatureLengthError (length s))
                else ret (bs58_encode P s)
            | _ => reject signatureTypeError
            end)).
Proof.
  unfold signHash.
  destruct (ensureBase58PublicKey P (publicKey wallet)) as [[]|e].
  - rewrite bind_sync_Ok.
    destruct hash32 as [| | | | |bs| | | |];
      try (left; split; simpl; eauto; fail).
    destruct (length bs =? 32)%nat eqn:E; simpl negb; cbv iota.
    + right. exists bs. apply Nat.eqb_eq in E. auto.
    + left; split; simpl; eauto.
  - left; split; simpl; eauto.
Qed.

Lemma signHash_bad_digest wallet hash32 :
  is32Bytes hash32 = false ->
  trace (signHash P wallet hash32) = []
  /\ exists e, outcome (signHash P wallet hash32) = Rejected e.
Proof.
  intros H. destruct (signHash_cases wallet hash32) as [?|[h [-> [L _]]]]; auto.
  simpl in H. apply Nat.eqb_neq in H. contradiction.
Qed.

Lemma signHash_trace wallet hash32 m :
  In (SignMessage m) (trace (signHash P wallet hash32)) ->
  hash32 = VBytes m /\ length m = 32
  /\ signHash P wallet hash32
     = (sig <- call (SignMessage m) (signMessage wallet m) ;;
        match sig with
        | VBytes s =>
            if negb (length s =? 64)%nat
            then reject (signatureLengthError (length s))
            else ret (bs58_encode P s)
        | _ => reject signatureTypeError
        end).
Proof.
  destruct (signHash_cases wallet hash32) as [[T _]|[h [-> [L [_ E]]]]].
  - rewrite T. intros [].
  - rewrite E at 1. rewrite trace_bind. simpl.
    intros Hin. assert (m = h).
    { destruct Hin as [Hin|Hin]; [now inversion Hin|].
      destruct (signMessage wallet h) as [sig| |]; simpl in Hin; try tauto.
      destruct sig; simpl in Hin; try tauto.
      destruct (negb (length bs =? 64)%nat); simpl in Hin; tauto. }
    subst. auto.
Qed.

Lemma signHash_no_fetch wallet hash32 :
  existsb isFetch (trace (signHash P wallet hash32)) = false.
Proof.
  destruct (signHash_cases wallet hash32) as [[T _]|[h [-> [L [_ E]]]]].
  - now rewrite T.
  - rewrite E, trace_bind. simpl.
    destruct (signMessage wallet h) as [sig| |]; simpl; auto.
    destruct sig; simpl; auto.
    destruct (negb (length bs =? 64)%nat); simpl; auto.
Qed.

Lemma digests_no_sign t m :
  Forall (fun ev => isDigest ev = true) t -> ~ In (SignMessage m) t.
Proof.
  intros F Hin. rewrite Forall_forall in F. apply F in Hin. discriminate.
Qed.

Lemma digests_no_fetch t :
  Forall (fun ev => isDigest ev = true) t -> existsb isFetch t = false.
Proof.
  induction 1 as [|ev t H F IH]; simpl; auto.
  rewrite IH. destruct ev; auto; discriminate.
Qed.

(** [postJson] in closed form: nothing is fetched when
    [JSON.stringify] throws; otherwise there is one call of [fetchFn]. *)
Lemma postJson_eq this url body init :
  postJson P this url body init
  = match JSON_stringify P body with
    | Throw e => ([], Rejected (rethrow e))
    | Ok json =>
        ([Fetch url (requestFor P this json init)],
         settle P url (fetchFn this url (requestFor P this json init)))
    end.
Proof.
  unfold postJson, requestFor, signalFor, settle.
  destruct (JSON_stringify P body) as [json|e]; [|reflexivity].
  rewrite bind_sync_Ok. cbv zeta.
  match goal with |- context [fetchFn this url ?r] => set (req := r) end.
  destruct (fetchFn this url req) as [res|e|]; simpl; auto.
  destruct (text res) as [txt|e|]; simpl; auto.
  destruct (negb (ok res)); simpl; auto.
  destruct (length txt =? 0)%nat; simpl; auto.
  destruct (JSON_parse P txt); simpl; auto.
Qed.

Lemma postJson_sent this url body init json :
  JSON_stringify P body = Ok json ->
  postJson P this url body init
  = ([Fetch url (sentRequest P this body init)],
     settle P url (fetchFn this url (sentRequest P this body init))).
Proof.
  intros E. rewrite postJson_eq. unfold sentRequest, jsonText. now rewrite E.
Qed.

Lemma postJson_trace this url body init m :
  ~ In (SignMessage m) (trace (postJson P this url body init)).
Proof.
  rewrite postJson_eq. destruct (JSON_stringify P body); simpl; [|tauto].
  intros [H|[]]. discriminate.
Qed.

End WithPlatform.

End GenerateFacts.
Module GenerateTrace.
Import AsyncFacts GenerateFacts.

Section WithPlatform.
Variable P : Platform.

Lemma tail_trace this wallet requestHash response :
  trace (sync (validateGenerateResponse P response) ;;
         sync (verifyResponse this wallet requestHash response) ;;
         ret response) = [].
Proof.
  destruct (validateGenerateResponse P response) as [[]|]; [|reflexivity].
  rewrite bind_sync_Ok.
  destruct (verifyResponse this wallet requestHash response) as [[]|]; reflexivity.
Qed.

(** When the wallet is called during [generate], the arguments were
    valid, the digest was computed, and the call is the one of
    [signHash] on that digest. *)
Lemma generate_sign_event this wallet input m :
  In (SignMessage m) (trace (generate P this (Some wallet) input)) ->
  validation P wallet input = Ok tt
  /\ exists t1 h,
       hashDeterministicJson P (payload P this wallet input) = (t1, Fulfilled h)
       /\ In (SignMessage m) (trace (signHash P wallet (VBytes (bytes h)))).
Proof.
  intros Hin.
  destruct (validation P wallet input) as [[]|e] eqn:V.
  2:{ rewrite (@generate_invalid P this _ _ _ V) in Hin. destruct Hin. }
  split; auto.
  rewrite (@generate_valid P this _ _ V) in Hin.
  pose proof (hashDeterministicJson_trace P (payload P this wallet input)) as D.
  destruct (hashDeterministicJson P (payload P this wallet input))
    as [t1 [h|e|]] eqn:H; simpl in D;
    try (exfalso; simpl in Hin; eapply digests_no_sign; eauto; fail).
  exists t1, h; split; auto.
  rewrite bind_Fulfilled in Hin. cbv beta in Hin.
  change (In (SignMessage m)
            (t1 ++ trace (signature <- signHash P wallet (VBytes (bytes h)) ;;
                          response <- postJson P (transport this) (endpoint this)
                             (signedRequest P this wallet input h signature) None ;;
                          sync (validateGenerateResponse P response) ;;
                          sync (verifyResponse this wallet (base58 h) response) ;;
                          ret response))) in Hin.
  apply in_app_or in Hin as [Hin|Hin]; [exfalso; eapply digests_no_sign; eauto|].
  rewrite trace_bind in Hin. apply in_app_or in Hin as [Hin|Hin]; auto.
  exfalso. destruct (outcome (signHash P wallet (VBytes (bytes h)))); try destruct Hin.
  rewrite trace_bind in Hin. apply in_app_or in Hin as [Hin|Hin].
  - eapply postJson_trace; eauto.
  - destruct (outcome (postJson _ _ _ _ _)); try destruct Hin.
    rewrite tail_trace in Hin. destruct Hin.
Qed.

End WithPlatform.
End GenerateTrace.

(** ** Validation, signing and what reaches the network *)

Module Authorization.
Import AsyncFacts GenerateFacts GenerateTrace Fixture.

Lemma bind_Ok_inv A (r : result unit) (k : result A) a :
  (r ;; k) = Ok a -> r = Ok tt /\ k = Ok a.
Proof. destruct r as [[]|]; simpl; [auto | discriminate]. Qed.

Lemma validation_Ok P wallet input :
  validation P wallet input = Ok tt ->
  ensureBase58PublicKey P (publicKey wallet) = Ok tt
  /\ assertModel P (model input) = Ok tt
  /\ assertNonEmptyString (lit "prompt") (prompt input) = Ok tt
  /\ assertNumber (lit "temperature") (temperature input) = Ok tt
  /\ assertInt (lit "maxTokens") (maxTokens input) = Ok tt
  /\ assertInt (lit "timestamp") (timestampOf P input) = Ok tt.
Proof.
  unfold validation. intros H.
  do 5 (apply bind_Ok_inv in H as [? H]). auto 10.
Qed.

Lemma assertModel_Ok P v : assertModel P v = Ok tt -> exists s, v = VStr s.
Proof.
  unfold assertModel.
  destruct v; simpl; try (destruct (String_of P _); discriminate). eauto.
Qed.

Lemma assertNonEmptyString_Ok name v :
  assertNonEmptyString name v = Ok tt -> exists s, v = VStr s.
Proof.
  unfold assertNonEmptyString. destruct v as [| | | | | | | | |[]];
    simpl; try discriminate. eauto.
Qed.

Lemma assertNumber_Ok name v :
  assertNumber name v = Ok tt -> exists m e, v = VNum (Finite m e).
Proof.
  unfold assertNumber. destruct v as [| | |[]| | | | | |[]];
    simpl; try discriminate. eauto.
Qed.

Lemma assertInt_Ok name v :
  assertInt name v = Ok tt -> exists m e, v = VNum (Finite m e).
Proof.
  unfold assertInt. intros H. apply bind_Ok_inv in H as [H _].
  eapply assertNumber_Ok; eauto.
Qed.

Lemma payload_is_json P this wallet input :
  validation P wallet input = Ok tt -> isJson (payload P this wallet input) = true.
Proof.
  intros V. apply validation_Ok in V as [_ [M [S [T [I J]]]]].
  apply assertModel_Ok in M as [s M].
  apply assertNonEmptyString_Ok in S as [s' S].
  apply assertNumber_Ok in T as [m1 [e1 T]].
  apply assertInt_Ok in I as [m2 [e2 I]].
  apply assertInt_Ok in J as [m3 [e3 J]].
  unfold payload, toHashProps. rewrite M, S, T, I, J. reflexivity.
Qed.

(** The request [generate] posts is one [JSON.stringify] accepts. *)
Lemma signedRequest_stringify P this wallet input h signature :
  validation P wallet input = Ok tt ->
  exists json,
    JSON_stringify P (signedRequest P this wallet input h signature) = Ok (Some json).
Proof.
  intros V. apply StringifyFacts.serialize_plainData.
  apply validation_Ok in V as [_ [M [S [T [I J]]]]].
  apply assertModel_Ok in M as [s M].
  apply assertNonEmptyString_Ok in S as [s' S].
  apply assertNumber_Ok in T as [m1 [e1 T]].
  apply assertInt_Ok in I as [m2 [e2 I]].
  apply assertInt_Ok in J as [m3 [e3 J]].
  unfold signedRequest, requestProps, toHashProps. rewrite M, S, T, I, J. reflexivity.
Qed.

Lemma signedRequest_sent P this wallet input h signature :
  validation P wallet input = Ok tt ->
  postJson P (transport this) (endpoint this)
    (signedRequest P this wallet input h signature) None
  = ([Fetch (endpoint this)
        (sentRequest P (transport this)
           (signedRequest P this wallet input h signature) None)],
     settle P (endpoint this)
       (fetchFn (transport this) (endpoint this)
          (sentRequest P (transport this)
             (signedRequest P this wallet input h signature) None))).
Proof.
  intros V. destruct (@signedRequest_stringify P this wallet input h signature V) as [json E].
  eapply postJson_sent; eauto.
Qed.

(** C8.  A failure of the validation of the arguments of [generate]
    (the wallet's public key, then the fields of the input) is the
    outcome of the call, and the call has made no external call at all:
    no digest, no signature, no request.  In particular a public key
    that decodes to 31 bytes gives the public-key length error with an
    empty trace.  A value that the canonicalizer rejects is rejected
    before any digest is computed, and a validated input is never such a
    value. *)
Theorem validation_failures_precede_effects P this wallet input :
  (forall e, validation P wallet input = Throw e ->
             generate P this (Some wallet) input = ([], Rejected e))
  /\ (forall d, bs58_decode P (publicKey wallet) = Some d -> length d = 31 ->
                generate P this (Some wallet) input
                = ([], Rejected (publicKeyLengthError 31)))
  /\ generate P this None input = ([], Rejected walletRequiredError)
  /\ (forall v e, canonicalizeJson v = Throw e ->
                  hashDeterministicJson P v = ([], Rejected e))
  /\ (validation P wallet input = Ok tt ->
      exists c, canonicalizeJson (payload P this wallet input) = Ok c).
Proof.
  repeat split.
  - intros e V. now apply generate_invalid.
  - intros d D L. apply generate_invalid.
    unfold validation, ensureBase58PublicKey. now rewrite D, L.
  - intros v e C. now apply hashDeterministicJson_invalid.
  - intros V. apply Idempotence.canonicalizeJson_total. now apply payload_is_json.
Qed.

Lemma validation_failures_precede_effects_witness :
  bs58_decode P0 shortKey = Some (repeat 0%N 31)
  /\ length (repeat 0%N 31) = 31
  /\ generate P0 (client idle) (Some (wallet shortKey VNull)) goodInput
     = ([], Rejected (publicKeyLengthError 31)).
Proof.
  split; [reflexivity|]. split; [reflexivity|].
  apply (proj1 (proj2 (validation_failures_precede_effects
                         P0 (client idle) (wallet shortKey VNull) goodInput))
           (repeat 0%N 31)); reflexivity.
Defined.

(** C6, as the code has it.  [generate] first requires a wallet, then
    checks that its public key decodes to 32 bytes, and only then
    checks the input: model, prompt, temperature, maxTokens, timestamp,
    in this order.  Each failure is the outcome of the call, whatever
    the later checks would say. *)
Theorem generate_validation_order P this wallet input :
  (forall e, ensureBase58PublicKey P (publicKey wallet) = Throw e ->
     generate P this (Some wallet) input = ([], Rejected e))
  /\ (ensureBase58PublicKey P (publicKey wallet) = Ok tt ->
      (forall e, assertModel P (model input) = Throw e ->
         generate P this (Some wallet) input = ([], Rejected e))
      /\ (assertModel P (model input) = Ok tt ->
          (forall e, assertNonEmptyString (lit "prompt") (prompt input) = Throw e ->
             generate P this (Some wallet) input = ([], Rejected e))
          /\ (assertNonEmptyString (lit "prompt") (prompt input) = Ok tt ->
              (forall e, assertNumber (lit "temperature") (temperature input) = Throw e ->
                 generate P this (Some wallet) input = ([], Rejected e))
              /\ (assertNumber (lit "temperature") (temperature input) = Ok tt ->
                  (forall e, assertInt (lit "maxTokens") (maxTokens input) = Throw e ->
                     generate P this (Some wallet) input = ([], Rejected e))
                  /\ (assertInt (lit "maxTokens") (maxTokens input) = Ok tt ->
                      forall e, assertInt (lit "timestamp") (timestampOf P input) = Throw e ->
                        generate P this (Some wallet) input = ([], Rejected e)))))).
Proof.
  split; [|intros K; split; [|intros M; split; [|intros S; split;
                               [|intros T; split; [|intros I]]]]];
    intros e H; apply generate_invalid; unfold validation;
    repeat match goal with
           | E : _ = Ok tt |- _ => rewrite E; clear E; simpl (bind (Ok tt) _)
           end;
    now rewrite H.
Qed.

Lemma generate_validation_order_witness :
  ensureBase58PublicKey P0 shortKey = Throw (publicKeyLengthError 31)
  /\ generate P0 (client idle) (Some (wallet shortKey VNull)) badInput
     = ([], Rejected (publicKeyLengthError 31)).
Proof.
  split; [reflexivity|].
  apply (proj1 (generate_validation_order P0 (client idle)
                  (wallet shortKey VNull) badInput)).
  reflexivity.
Defined.

(** C6, as stated, fails: with an invalid input (here every field is
    invalid) and a public key of 31 bytes, the error is the one of the
    public key, not the one of the input. *)
Lemma signer_error_precedes_input_error :
  assertModel P0 (model badInput)
  = Throw (Error_ (lit "Snowy SDK: unsupported model: gpt"))
  /\ assertNonEmptyString (lit "prompt") (prompt badInput)
     = Throw (Error_ (lit "Snowy SDK: prompt must be a non-empty string"))
  /\ ensureBase58PublicKey P0 shortKey = Throw (publicKeyLengthError 31)
  /\ generate P0 (client idle) (Some (wallet shortKey VNull)) badInput
     = ([], Rejected (Error_ (lit "Snowy SDK: wallet.publicKey must decode to 32 bytes (got 31)"))).
Proof. repeat split; reflexivity. Qed.

(** C9.  [signHash] given anything but a [Uint8Array] of 32 bytes
    rejects without calling the wallet; whenever the wallet is called,
    by [signHash] or in the course of [generate], the message is the
    digest and has 32 bytes. *)
Theorem wallet_signs_only_32_byte_digests P wallet :
  (forall hash32, is32Bytes hash32 = false ->
     trace (signHash P wallet hash32) = []
     /\ exists e, outcome (signHash P wallet hash32) = Rejected e)
  /\ (forall hash32 m, In (SignMessage m) (trace (signHash P wallet hash32)) ->
        hash32 = VBytes m /\ length m = 32)
  /\ (forall this input m,
        In (SignMessage m) (trace (generate P this (Some wallet) input)) ->
        length m = 32).
Proof.
  repeat split.
  - now apply signHash_bad_digest.
  - now apply signHash_bad_digest.
  - eapply signHash_trace; eauto.
  - eapply signHash_trace; eauto.
  - intros this input m Hin.
    apply generate_sign_event in Hin as [_ [t1 [h [_ Hin]]]].
    eapply signHash_trace; eauto.
Qed.

Lemma wallet_signs_only_32_byte_digests_witness :
  (is32Bytes (VBytes [1; 2; 3]%N) = false
   /\ trace (signHash P0 (wallet goodKey VNull) (VBytes [1; 2; 3]%N)) = []
   /\ exists e, outcome (signHash P0 (wallet goodKey VNull) (VBytes [1; 2; 3]%N))
                = Rejected e)
  /\ (In (SignMessage (testDigest []))
         (trace (signHash P0 (wallet goodKey sig64) (VBytes (testDigest []))))
      /\ length (testDigest []) = 32).
Proof.
  split.
  - split; [reflexivity|].
    apply (proj1 (wallet_signs_only_32_byte_digests P0 (wallet goodKey VNull))).
    reflexivity.
  - assert (Hin : In (SignMessage (testDigest []))
                    (trace (signHash P0 (wallet goodKey sig64) (VBytes (testDigest [])))))
      by (vm_compute; auto).
    split; [exact Hin|].
    apply (proj1 (proj2 (wallet_signs_only_32_byte_digests P0 (wallet goodKey sig64)))
             (VBytes (testDigest [])) (testDigest []) Hin).
Defined.

(** C5.  When the wallet, called in the course of [generate], returns
    a [Uint8Array] whose length is not 64, the call fails with the
    signature length error, and its trace holds the digest and the
    wallet call only: nothing was sent. *)
Theorem short_signature_rejected_before_network P this wallet input m sig :
  In (SignMessage m) (trace (generate P this (Some wallet) input)) ->
  signMessage wallet m = Fulfilled (VBytes sig) ->
  length sig <> 64 ->
  generate P this (Some wallet) input
  = (trace (hashDeterministicJson P (payload P this wallet input)) ++ [SignMessage m],
     Rejected (signatureLengthError (length sig)))
  /\ existsb isFetch (trace (generate P this (Some wallet) input)) = false.
Proof.
  intros Hin S L.
  apply generate_sign_event in Hin as [V [t1 [h [H Hin]]]].
  apply signHash_trace in Hin as [Hm [_ E]]. inversion Hm; subst m.
  assert (G : generate P this (Some wallet) input
              = (t1 ++ [SignMessage (bytes h)],
                 Rejected (signatureLengthError (length sig)))).
  { rewrite (@generate_valid P this _ _ V), H, bind_Fulfilled, E.
    unfold call. rewrite S, bind_Fulfilled.
    apply Nat.eqb_neq in L. rewrite L. reflexivity. }
  rewrite G, H. split; auto. simpl.
  pose proof (hashDeterministicJson_trace P (payload P this wallet input)) as D.
  rewrite H in D. simpl in D.
  rewrite existsb_app, (digests_no_fetch D). reflexivity.
Qed.

Lemma short_signature_rejected_before_network_witness :
  In (SignMessage (testDigest (canonicalBytes P0 (payload P0 (client idle) (wallet goodKey (VBytes [7]%N)) goodInput))))
     (trace (generate P0 (client idle) (Some (wallet goodKey (VBytes [7]%N))) goodInput))
  /\ length [7%N] <> 64
  /\ outcome (generate P0 (client idle) (Some (wallet goodKey (VBytes [7]%N))) goodInput)
     = Rejected (Error_ (lit "Snowy SDK: signature must be 64 bytes (got 1)"))
  /\ existsb isFetch
       (trace (generate P0 (client idle) (Some (wallet goodKey (VBytes [7]%N))) goodInput))
     = false.
Proof.
  assert (Hin : In (SignMessage (testDigest (canonicalBytes P0
                      (payload P0 (client idle) (wallet goodKey (VBytes [7]%N)) goodInput))))
                   (trace (generate P0 (client idle)
                             (Some (wallet goodKey (VBytes [7]%N))) goodInput)))
    by (vm_compute; auto).
  assert (L : length [7%N] <> 64) by (simpl; lia).
  split; [exact Hin|]. split; [exact L|].
  destruct (@short_signature_rejected_before_network P0 (client idle)
              (wallet goodKey (VBytes [7]%N)) goodInput _ [7%N] Hin eq_refl L)
    as [G F].
  split; [now rewrite G | exact F].
Defined.

End Authorization.

(** ** The response *)

Module ResponseChecks.
Import OrderFacts AsyncFacts GenerateFacts GenerateTrace Authorization Fixture.

Lemma check_Ok failed message : check failed message = Ok tt -> failed = false.
Proof. unfold check. destruct failed; [discriminate | auto]. Qed.

Lemma isType_string v : isType v TString = true -> exists s, v = VStr s.
Proof. destruct v as [| | | | | | | | |[]]; try discriminate. eauto. Qed.

Lemma isType_number v : isType v TNumber = true -> exists x, v = VNum x.
Proof. destruct v as [| | | | | | | | |[]]; try discriminate. eauto. Qed.

Lemma isString_neq s t : isString (VStr s) t = false <-> VStr s <> VStr t.
Proof.
  simpl. rewrite eqb_neq. split; intros H E; apply H; congruence.
Qed.

(** A validated response carries three strings of verification
    metadata. *)
Lemma validated_verification P response :
  validateGenerateResponse P response = Ok tt ->
  exists a b c,
    get (get response (lit "verification")) (lit "requestHash") = VStr a
    /\ get (get response (lit "verification")) (lit "signer") = VStr b
    /\ get (get response (lit "verification")) (lit "programId") = VStr c.
Proof.
  unfold validateGenerateResponse. cbv zeta. intros H.
  do 9 (apply bind_Ok_inv in H as [_ H]).
  apply bind_Ok_inv in H as [H1 H]. apply bind_Ok_inv in H as [H2 H3].
  apply check_Ok, negb_false_iff, isType_string in H1 as [a H1].
  apply check_Ok, negb_false_iff, isType_string in H2 as [b H2].
  apply check_Ok, negb_false_iff, isType_string in H3 as [c H3].
  eauto 10.
Qed.

Section Delivered.
Variables (P : Platform) (this : SnowyClient) (wallet : SnowyWallet)
          (input : SnowyGenerateInput).
Variables (t1 t2 t3 : list event) (h : HashResult) (signature : jsstring)
          (response : value).
Hypothesis V : validation P wallet input = Ok tt.
Hypothesis H : hashDeterministicJson P (payload P this wallet input)
               = (t1, Fulfilled h).
Hypothesis S : signHash P wallet (VBytes (bytes h)) = (t2, Fulfilled signature).
Hypothesis R : postJson P (transport this) (endpoint this)
                 (signedRequest P this wallet input h signature) None
               = (t3, Fulfilled response).

(** Once the response has arrived, the outcome of [generate] is
    decided by the two checks of the response. *)
Lemma generate_delivered :
  generate P this (Some wallet) input
  = (t1 ++ t2 ++ t3,
     match validateGenerateResponse P response with
     | Throw e => Rejected e
     | Ok _ =>
         match verifyResponse this wallet (base58 h) response with
         | Throw e => Rejected e
         | Ok _ => Fulfilled response
         end
     end).
Proof.
  rewrite (@generate_valid P this _ _ V), H, bind_Fulfilled, S, bind_Fulfilled,
    R, bind_Fulfilled.
  destruct (validateGenerateResponse P response) as [[]|e]; simpl;
    [|now rewrite !app_nil_r].
  destruct (verifyResponse this wallet (base58 h) response) as [[]|e]; simpl;
    now rewrite !app_nil_r.
Qed.
End Delivered.

(** C2.  Let a response be delivered to [generate].  If it fails the
    structural validation, [generate] fails with that error.  If it
    passes, [generate] compares verification.requestHash, then
    verification.signer, then verification.programId with what was
    sent, and fails with the mismatch error naming the first field that
    differs.  Hence a value returned by [generate] is the delivered
    response and its three verification fields equal what was sent. *)
Theorem response_verification P this wallet input t1 t2 t3 h signature response :
  validation P wallet input = Ok tt ->
  hashDeterministicJson P (payload P this wallet input) = (t1, Fulfilled h) ->
  signHash P wallet (VBytes (bytes h)) = (t2, Fulfilled signature) ->
  postJson P (transport this) (endpoint this)
    (signedRequest P this wallet input h signature) None = (t3, Fulfilled response) ->
  let verification := get response (lit "verification") in
  let result := outcome (generate P this (Some wallet) input) in
  (forall e, validateGenerateResponse P response = Throw e -> result = Rejected e)
  /\ (validateGenerateResponse P response = Ok tt ->
      (get verification (lit "requestHash") <> VStr (base58 h) ->
         result = Rejected (mismatchError "requestHash"))
      /\ (get verification (lit "requestHash") = VStr (base58 h) ->
          get verification (lit "signer") <> VStr (publicKey wallet) ->
          result = Rejected (mismatchError "signer"))
      /\ (get verification (lit "requestHash") = VStr (base58 h) ->
          get verification (lit "signer") = VStr (publicKey wallet) ->
          get verification (lit "programId") <> VStr (programId this) ->
          result = Rejected (mismatchError "programId"))
      /\ (get verification (lit "requestHash") = VStr (base58 h) ->
          get verification (lit "signer") = VStr (publicKey wallet) ->
          get verification (lit "programId") = VStr (programId this) ->
          result = Fulfilled response))
  /\ (forall r, result = Fulfilled r ->
        r = response
        /\ get verification (lit "requestHash") = VStr (base58 h)
        /\ get verification (lit "signer") = VStr (publicKey wallet)
        /\ get verification (lit "programId") = VStr (programId this)).
Proof.
  intros V H S R verification result.
  assert (G : result
              = match validateGenerateResponse P response with
                | Throw e => Rejected e
                | Ok _ =>
                    match verifyResponse this wallet (base58 h) response with
                    | Throw e => Rejected e
                    | Ok _ => Fulfilled response
                    end
                end)
    by (unfold result; now rewrite (@generate_delivered P this wallet input t1 t2 t3 h signature response V H S R)).
  clearbody result. subst result.
  destruct (validateGenerateResponse P response) as [[]|e0] eqn:E.
  2:{ repeat split; try discriminate; intros; congruence. }
  destruct (validated_verification _ _ E) as [a [b [c [Ha [Hb Hc]]]]].
  unfold verifyResponse. fold verification in Ha, Hb, Hc |- *.
  rewrite Ha, Hb, Hc. simpl isString.
  destruct (JsString.eqb a (base58 h)) eqn:Ea;
    [apply eqb_eq in Ea; subst a | apply eqb_neq in Ea];
    (destruct (JsString.eqb b (publicKey wallet)) eqn:Eb;
     [apply eqb_eq in Eb; subst b | apply eqb_neq in Eb]);
    (destruct (JsString.eqb c (programId this)) eqn:Ec;
     [apply eqb_eq in Ec; subst c | apply eqb_neq in Ec]);
    simpl; repeat split; try discriminate; try congruence;
    intros; try congruence.
Qed.

End ResponseChecks.
Module UsageChecks.
Import OrderFacts AsyncFacts GenerateFacts GenerateTrace Authorization ResponseChecks Fixture.

Lemma response_verification_witness :
  validation (platformReading forged) (wallet goodKey sig64) goodInput = Ok tt
  /\ validateGenerateResponse (platformReading forged) forged = Ok tt
  /\ get (get forged (lit "verification")) (lit "requestHash") <> VStr sentHash
  /\ outcome (generate (platformReading forged) (client answering)
                (Some (wallet goodKey sig64)) goodInput)
     = Rejected (Error_ (lit "Snowy SDK: response verification.requestHash mismatch")).
Proof.
  split; [reflexivity|]. split; [reflexivity|]. split; [vm_compute; discriminate|].
  refine (proj1 (proj1 (proj2 (@response_verification
            (platformReading forged) (client answering) (wallet goodKey sig64) goodInput
            _ _ _ _ _ forged eq_refl eq_refl eq_refl eq_refl)) eq_refl) _).
  vm_compute; discriminate.
Defined.

Lemma assertModel_name P m : isModelName m = true -> assertModel P (VStr m) = Ok tt.
Proof.
  unfold isModelName, assertModel. simpl isString.
  intros H. apply orb_true_iff in H as [H|H]; [apply orb_true_iff in H as [H|H]|];
    rewrite H; simpl; rewrite ?andb_false_r; reflexivity.
Qed.

Lemma validate_usage P output model p c t requestHash signer programId :
  isModelName model = true ->
  validateGenerateResponse P
    (responseWithUsage output model p c t requestHash signer programId)
  = (check (negb (isType p TNumber)) "Snowy SDK: usage.promptTokens missing" ;;
     check (negb (isType c TNumber)) "Snowy SDK: usage.completionTokens missing" ;;
     check (negb (isType t TNumber)) "Snowy SDK: usage.totalTokens missing").
Proof.
  intros M. unfold validateGenerateResponse. cbv zeta.
  set (r := responseWithUsage output model p c t requestHash signer programId).
  change (get r (lit "model")) with (VStr model).
  rewrite (assertModel_name P _ M).
  change (get (get r (lit "usage")) (lit "promptTokens")) with p.
  change (get (get r (lit "usage")) (lit "completionTokens")) with c.
  change (get (get r (lit "usage")) (lit "totalTokens")) with t.
  destruct (isType p TNumber), (isType c TNumber), (isType t TNumber); reflexivity.
Qed.

(** C10.  The structural validation of a response asks of the three
    usage fields that they are of type number, and nothing else.  In a
    response of the expected shape, the first of promptTokens,
    completionTokens and totalTokens that is not a number makes the
    validation fail with the error naming it, and [generate] then fails
    with that error; three numbers pass it whatever they are (not a
    number, infinite, fractional, a total that is not the sum), and when
    the verification metadata echo the request, [generate] returns the
    response as it was delivered. *)
Theorem usage_numbers_unchecked P this wallet input t1 t2 t3 h signature
        output model promptTokens completionTokens totalTokens :
  validation P wallet input = Ok tt ->
  hashDeterministicJson P (payload P this wallet input) = (t1, Fulfilled h) ->
  signHash P wallet (VBytes (bytes h)) = (t2, Fulfilled signature) ->
  isModelName model = true ->
  let response := responseWithUsage output model promptTokens completionTokens
                    totalTokens (base58 h) (publicKey wallet) (programId this) in
  (isType promptTokens TNumber = false ->
   validateGenerateResponse P response
   = Throw (Error_ (lit "Snowy SDK: usage.promptTokens missing")))
  /\ (isType promptTokens TNumber = true ->
      isType completionTokens TNumber = false ->
      validateGenerateResponse P response
      = Throw (Error_ (lit "Snowy SDK: usage.completionTokens missing")))
  /\ (isType promptTokens TNumber = true ->
      isType completionTokens TNumber = true ->
      isType totalTokens TNumber = false ->
      validateGenerateResponse P response
      = Throw (Error_ (lit "Snowy SDK: usage.totalTokens missing")))
  /\ (forall x y z,
        promptTokens = VNum x -> completionTokens = VNum y -> totalTokens = VNum z ->
        validateGenerateResponse P response = Ok tt)
  /\ (postJson P (transport this) (endpoint this)
        (signedRequest P this wallet input h signature) None
      = (t3, Fulfilled response) ->
      (forall e, validateGenerateResponse P response = Throw e ->
                 generate P this (Some wallet) input = (t1 ++ t2 ++ t3, Rejected e))
      /\ (forall x y z,
            promptTokens = VNum x -> completionTokens = VNum y ->
            totalTokens = VNum z ->
            generate P this (Some wallet) input
            = (t1 ++ t2 ++ t3, Fulfilled response))).
Proof.
  intros V H S M response.
  pose proof (@validate_usage P output model promptTokens completionTokens totalTokens
                (base58 h) (publicKey wallet) (programId this) M) as E.
  fold response in E.
  assert (N : forall x y z,
             promptTokens = VNum x -> completionTokens = VNum y ->
             totalTokens = VNum z -> validateGenerateResponse P response = Ok tt).
  { intros x y z Hp Hc Ht. rewrite E, Hp, Hc, Ht. reflexivity. }
  split; [intros Hp; now rewrite E, Hp|].
  split; [intros Hp Hc; now rewrite E, Hp, Hc|].
  split; [intros Hp Hc Ht; now rewrite E, Hp, Hc, Ht|].
  split; [exact N|].
  intros R.
  pose proof (@generate_delivered P this wallet input t1 t2 t3 h signature _ V H S R)
    as G.
  split.
  - intros e Ev. now rewrite G, Ev.
  - intros x y z Hp Hc Ht. rewrite G, (N x y z Hp Hc Ht).
    replace (verifyResponse this wallet (base58 h) response) with (Ok tt : result unit);
      [reflexivity|].
    unfold verifyResponse.
    change (get (get response (lit "verification")) (lit "requestHash"))
      with (VStr (base58 h)).
    change (get (get response (lit "verification")) (lit "signer"))
      with (VStr (publicKey wallet)).
    change (get (get response (lit "verification")) (lit "programId"))
      with (VStr (programId this)).
    simpl isString. rewrite !eqb_refl. reflexivity.
Qed.

Lemma usage_numbers_unchecked_witness :
  validation (platformReading oddUsage) (wallet goodKey sig64) goodInput = Ok tt
  /\ isModelName (lit "snowy-base") = true
  /\ isType (VStr (lit "7")) TNumber = false
  /\ validateGenerateResponse (platformReading oddUsage)
       (responseWithUsage (lit "hello") (lit "snowy-base") (VStr (lit "7"))
          (VNum (Infinity false)) (VNum (Finite 1 (-1)))
          sentHash goodKey (programId (client answering)))
     = Throw (Error_ (lit "Snowy SDK: usage.promptTokens missing"))
  /\ validateGenerateResponse (platformReading oddUsage) oddUsage = Ok tt
  /\ outcome (generate (platformReading oddUsage) (client answering)
                (Some (wallet goodKey sig64)) goodInput)
     = Fulfilled oddUsage.
Proof.
  set (Q := platformReading oddUsage).
  assert (V : validation Q (wallet goodKey sig64) goodInput = Ok tt)
    by (vm_compute; reflexivity).
  assert (M : isModelName (lit "snowy-base") = true) by reflexivity.
  assert (H : hashDeterministicJson Q
                (payload Q (client answering) (wallet goodKey sig64) goodInput)
              = (trace (hashDeterministicJson Q
                          (payload Q (client answering) (wallet goodKey sig64)
                             goodInput)),
                 Fulfilled sentHashResult))
    by (vm_compute; reflexivity).
  assert (S : signHash Q (wallet goodKey sig64) (VBytes (bytes sentHashResult))
              = ([SignMessage sentDigest], Fulfilled sentSignature))
    by (vm_compute; reflexivity).
  assert (R : postJson Q (transport (client answering)) (endpoint (client answering))
                (signedRequest Q (client answering) (wallet goodKey sig64) goodInput
                   sentHashResult sentSignature) None
              = (trace (postJson Q answering url0 (sentBody Q (client answering)) None),
                 Fulfilled oddUsage))
    by (vm_compute; reflexivity).
  split; [exact V|]. split; [exact M|]. split; [reflexivity|].
  split.
  - exact (proj1 (@usage_numbers_unchecked Q (client answering) (wallet goodKey sig64)
                    goodInput _ _ [] _ _ (lit "hello") (lit "snowy-base")
                    (VStr (lit "7")) (VNum (Infinity false)) (VNum (Finite 1 (-1)))
                    V H S M) eq_refl).
  - destruct (@usage_numbers_unchecked Q (client answering) (wallet goodKey sig64)
                goodInput _ _
                (trace (postJson Q answering url0 (sentBody Q (client answering)) None))
                _ _ (lit "hello") (lit "snowy-base")
                (VNum NaN) (VNum (Infinity false)) (VNum (Finite 1 (-1)))
                V H S M) as [_ [_ [_ [E G]]]].
    split; [exact (E _ _ _ eq_refl eq_refl eq_refl)|].
    destruct (G R) as [_ G'].
    now rewrite (G' _ _ _ eq_refl eq_refl eq_refl).
Defined.
End UsageChecks.

(** ** The transport: timeout, cancellation and the kinds of errors *)

Module TransportChecks.
Import OrderFacts CanonFacts AsyncFacts GenerateFacts GenerateTrace Authorization
       ResponseChecks Fixture Fixture2.

(** *** The platform's [fetch] under a signal *)

Lemma networkFetch_settle P server url req sg a :
  signal req = Some sg -> abortsAt sg = Some a ->
  settle P url (networkFetch server url req)
  = if completesBefore (server url (Effects.body req)) a
    then settle P url (completion (server url (Effects.body req)))
    else Rejected (rethrow (reason sg)).
Proof.
  intros Sg A. unfold networkFetch. rewrite Sg, A.
  destruct (server url (Effects.body req)) as [t r d|t e|]; simpl; auto.
  - destruct (t <? a)%N; simpl; auto.
    destruct (bodyBefore r (t + d) a); auto.
  - destruct (t <? a)%N; auto.
Qed.

Lemma networkFetch_unsignalled server url req :
  match signal req with
  | Some sg => abortsAt sg = None
  | None => True
  end ->
  networkFetch server url req = completion (server url (Effects.body req)).
Proof.
  unfold networkFetch. destruct (signal req) as [sg|]; auto. now intros ->.
Qed.

Lemma pendingAt_late srv t : pendingAt srv t = true -> completesBefore srv t = false.
Proof.
  unfold pendingAt. rewrite negb_true_iff.
  destruct srv as [t' r d|t' e|]; simpl; auto.
  - unfold bodyBefore. destruct (text r); rewrite ?andb_false_r; auto;
      rewrite !andb_false_iff, !N.ltb_ge; lia.
  - rewrite !N.ltb_ge; lia.
Qed.

Lemma neverCompletes_settle P url srv :
  neverCompletes srv = true -> settle P url (completion srv) = Pending.
Proof.
  destruct srv as [t r d|t e|]; simpl; try discriminate; auto.
  destruct (text r); try discriminate; auto.
Qed.

(** X20.  Over a [fetch] that honours its signal, for a body that
    [JSON.stringify] accepts: when the caller gives no signal and the
    timeout in force is truthy, a call that is not completed, headers
    and body, by the time the platform's timer runs fails with the
    transport error "network or fetch failure" whose cause is the
    timeout error; when the caller gives a signal, and that signal
    aborts while the call is not completed, the call fails with the
    signal's reason, wrapped in the same transport error unless it is
    itself an error of the transport classes. *)
Theorem postJson_timeout_and_cancellation P server tmo url body init json :
  let this := {| fetchFn := networkFetch server; timeoutMs := tmo |} in
  JSON_stringify P body = Ok json ->
  (forall t, externalSignal init = None ->
             effectiveTimeout this init = Some t -> truthy (VNum t) = true ->
             pendingAt (server url json) (setTimeout_delay P t) = true ->
             outcome (postJson P this url body init)
             = Rejected (networkError timeoutReason))
  /\ (forall sg a, externalSignal init = Some sg ->
                   abortsAt sg = Some a ->
                   pendingAt (server url json) a = true ->
                   outcome (postJson P this url body init)
                   = Rejected (rethrow (reason sg))).
Proof.
  intros this J. split.
  - intros t E T N C. apply pendingAt_late in C.
    rewrite postJson_eq, J. cbn [outcome snd].
    change (fetchFn this) with (networkFetch server).
    rewrite (@networkFetch_settle P server url _ (timerSignal P t)
               (setTimeout_delay P t)).
    + cbn [Effects.body requestFor]. now rewrite C.
    + cbn [signal requestFor]. unfold signalFor, controllerSignal.
      now rewrite E, T, N.
    + reflexivity.
  - intros sg a E A C. apply pendingAt_late in C.
    rewrite postJson_eq, J. cbn [outcome snd].
    change (fetchFn this) with (networkFetch server).
    rewrite (@networkFetch_settle P server url _ sg a).
    + cbn [Effects.body requestFor]. now rewrite C.
    + cbn [signal requestFor]. unfold signalFor. now rewrite E.
    + exact A.
Qed.

Lemma postJson_timeout_and_cancellation_witness :
  JSON_stringify P0 VNull = Ok (Some (lit "null"))
  /\ externalSignal None = None
  /\ effectiveTimeout (timed stalling) None = ms 10
  /\ truthy (VNum (ofZ 10)) = true
  /\ pendingAt (stalling url0 (Some (lit "null"))) (setTimeout_delay P0 (ofZ 10)) = true
  /\ outcome (postJson P0 (timed stalling) url0 VNull None)
     = Rejected (networkError timeoutReason).
Proof.
  assert (J : JSON_stringify P0 VNull = Ok (Some (lit "null"))) by reflexivity.
  repeat (split; [reflexivity|]).
  apply (proj1 (@postJson_timeout_and_cancellation P0 stalling (ms 10) url0 VNull None
                  _ J) (ofZ 10)); reflexivity.
Defined.

(** C3, on the code.  The timeout is lost when the caller supplies a
    signal: [postJson] sets the timer and its controller, but hands the
    caller's signal to [fetchFn] in place of the controller's, so the
    call is the one of a transport without timeout; over the network,
    with a signal that the caller never aborts and a remote end that
    never completes the call, it never settles, whatever the timeout. *)
Theorem timeout_lost_with_external_signal P f server tmo url body init sg json :
  externalSignal init = Some sg ->
  postJson P {| fetchFn := f; timeoutMs := tmo |} url body init
  = postJson P {| fetchFn := f; timeoutMs := None |} url body
      (Some {| init_timeoutMs := None; init_signal := Some sg |})
  /\ (JSON_stringify P body = Ok json ->
      abortsAt sg = None ->
      neverCompletes (server url json) = true ->
      outcome (postJson P {| fetchFn := networkFetch server; timeoutMs := tmo |}
                 url body init) = Pending).
Proof.
  intros E. split.
  - rewrite !postJson_eq. unfold requestFor, signalFor. now rewrite E.
  - intros J A N. rewrite postJson_eq, J. cbn [outcome snd fetchFn].
    rewrite networkFetch_unsignalled.
    + now apply neverCompletes_settle.
    + cbn [signal requestFor]. unfold signalFor. now rewrite E.
Qed.

Lemma timeout_lost_with_external_signal_witness :
  externalSignal (withSignal neverAborted) = Some neverAborted
  /\ JSON_stringify P0 VNull = Ok (Some (lit "null"))
  /\ abortsAt neverAborted = None
  /\ neverCompletes (silent url0 (Some (lit "null"))) = true
  /\ effectiveTimeout (timed silent) (withSignal neverAborted) = ms 10
  /\ setTimeout_delay P0 (ofZ 10) = 10%N
  /\ outcome (postJson P0 (timed silent) url0 VNull (withSignal neverAborted)) = Pending
  /\ outcome (postJson P0 (timed silent) url0 VNull None)
     = Rejected (networkError timeoutReason).
Proof.
  assert (E : externalSignal (withSignal neverAborted) = Some neverAborted)
    by reflexivity.
  assert (J : JSON_stringify P0 VNull = Ok (Some (lit "null"))) by reflexivity.
  assert (N : neverCompletes (silent url0 (Some (lit "null"))) = true) by reflexivity.
  split; [exact E|]. split; [exact J|]. split; [reflexivity|]. split; [exact N|].
  split; [reflexivity|]. split; [reflexivity|].
  split; [|reflexivity].
  exact (proj2 (@timeout_lost_with_external_signal P0 (networkFetch silent) silent
                  (ms 10) url0 VNull (withSignal neverAborted) neverAborted _ E)
           J eq_refl N).
Defined.

(** The delay of the timer is the platform's: on Node.js a timeout
    of 2^31 ms fires at once, before a response that takes 4 ms; and a
    timeout of 0 sets no timer at all. *)
Lemma timer_delay_is_the_platforms :
  outcome (postJson P0 {| fetchFn := networkFetch (replying (lit "R"));
                          timeoutMs := hugeTimeout |} url0 VNull None)
  = Rejected (networkError timeoutReason)
  /\ outcome (postJson P0 (timed silent) url0 VNull zeroTimeout) = Pending.
Proof. split; reflexivity. Qed.




(** A model that no template literal can print: the TypeError of the
    conversion is the error of [generate]. *)
Lemma symbol_model_is_a_type_error :
  generate P0 (client idle) (Some (wallet goodKey sig64))
    {| model := symbol; prompt := VStr (lit "hi"); temperature := num 0;
       maxTokens := num 1; timestamp := VNull |}
  = ([], Rejected symbolToStringError)
  /\ kindOf symbolToStringError = KForeign.
Proof. split; reflexivity. Qed.









End TransportChecks.

(** * Further properties *)

(** ** The canonicalizer and the hash functions (src/crypto/hash.ts) *)

Module CanonicalizerCoverage.
Import OrderFacts CanonFacts KeyOrder Idempotence CanonicalOrder AsyncFacts Fixture Fixture2.

Lemma In_lookup_NoDup k x props :
  NoDup (map fst props) -> In (k, x) props -> lookup k props = Some x.
Proof.
  induction props as [|[k' y] props IH]; simpl; intros ND Hin; [destruct Hin|].
  inversion ND; subst. destruct Hin as [E|Hin].
  - inversion E; subst. now rewrite eqb_refl.
  - destruct (JsString.eqb k k') eqn:E; auto.
    apply eqb_eq in E; subst. exfalso. apply H1.
    apply (in_map fst) in Hin. exact Hin.
Qed.

Lemma fillSorted_Ok_inv f keys out c :
  fillSorted f keys out = Ok c -> forall k, In k keys -> exists c', f k = Ok c'.
Proof.
  revert out; induction keys as [|k keys IH]; intros out H k' Hin; [destruct Hin|].
  simpl in H. destruct (f k) as [ck|e] eqn:E; [|discriminate]. simpl in H.
  destruct Hin as [->|Hin]; eauto.
Qed.

(** X1.  Two JSON values that differ only in the order in which the
    keys of their objects were inserted have the same canonical form, and
    the three hash functions give the same result and make the same
    calls for both. *)
Theorem hashing_ignores_key_order P a b :
  isJson a = true -> isJson b = true -> sameJson a b = true ->
  canonicalizeJson a = canonicalizeJson b
  /\ hashDeterministicJson P a = hashDeterministicJson P b
  /\ hashDeterministicJsonBase58 P a = hashDeterministicJsonBase58 P b
  /\ hashDeterministicJsonBytes P a = hashDeterministicJsonBytes P b.
Proof.
  intros Ja Jb S.
  pose proof (canonicalizeJson_sameJson a b Ja Jb S) as E.
  unfold hashDeterministicJson, hashDeterministicJsonBase58, hashDeterministicJsonBytes.
  rewrite E. auto.
Qed.

Lemma hashing_ignores_key_order_witness :
  isJson nested1 = true /\ isJson nested2 = true /\ sameJson nested1 nested2 = true
  /\ canonicalizeJson nested1 = canonicalizeJson nested2
  /\ hashDeterministicJson P0 nested1 = hashDeterministicJson P0 nested2.
Proof.
  repeat (split; [reflexivity|]).
  destruct (@hashing_ignores_key_order P0 nested1 nested2 eq_refl eq_refl eq_refl)
    as [E [H _]].
  split; assumption.
Defined.

Lemma sameJson_arr_intro xs ys :
  Forall2 (slots2 (fun x y => sameJson x y = true)) xs ys ->
  sameJson (VArr xs) (VArr ys) = true.
Proof.
  simpl. induction 1 as [|[x|] [y|] xs ys Hxy F IH]; simpl in *;
    try contradiction; auto.
  now rewrite Hxy, IH.
Qed.

Lemma canonical_form_of_json a :
  isJson a = true -> protoFree a = true ->
  forall c, canonicalizeJson a = Ok c ->
            isJson c = true /\ protoFree c = true /\ sameJson a c = true.
Proof.
  induction a as [| |x|x|s|bs|xs IHxs|p props IHp IHprops| |k tag] using value_rect';
    intros Ja Fa c Hc; try discriminate.
  - inversion Hc; subst; auto.
  - inversion Hc; subst. repeat split; auto. simpl. now destruct x.
  - simpl in Hc. destruct x; try discriminate. inversion Hc; subst.
    repeat split; auto. simpl. now rewrite !Z.eqb_refl.
  - inversion Hc; subst. repeat split; auto. simpl. apply eqb_refl.
  - rewrite canonicalizeJson_arr in Hc.
    destruct (mapResult (mapSlot canonicalizeJson) xs) as [ys|] eqn:E; [|discriminate].
    inversion Hc; subst c. clear Hc.
    apply mapSlot_Forall2 in E.
    simpl in Ja, Fa. pose proof (forallb_no_hole _ _ Ja) as Dense.
    apply forallb_inSlot in Ja, Fa.
    assert (F : Forall2 (slots2 (fun x y => isJson y = true /\ protoFree y = true
                                            /\ sameJson x y = true)) xs ys).
    { apply (@Forall2_slots2_impl
               (fun x => isJson x = true /\ protoFree x = true
                         /\ forall c, canonicalizeJson x = Ok c ->
                                       isJson c = true /\ protoFree c = true
                                       /\ sameJson x c = true)
               (fun x y => canonicalizeJson x = Ok y) _ xs ys); auto.
      - rewrite Forall_forall in IHxs, Ja, Fa |- *.
        intros [x|] Hin; simpl; auto.
        pose proof (Ja _ Hin) as Jx. pose proof (Fa _ Hin) as Fx.
        pose proof (IHxs _ Hin) as Hx. simpl in Jx, Fx, Hx. auto.
      - intros x y [Jx [Fx Hx]] Hxy. now apply Hx. }
    assert (NoHole : ~ In None ys).
    { clear -E Dense. induction E as [|a b xs ys Hab E IH]; simpl; [tauto|].
      intros [->|Hin].
      - destruct a; simpl in Hab; [contradiction|]. apply Dense. now left.
      - apply IH; auto. intros H. apply Dense. now right. }
    repeat split.
    + simpl. apply forallb_forall. intros [y|] Hy; [|contradiction].
      pose proof (@Forall2_slots2_right _ (fun y => isJson y = true) xs ys F) as G.
      rewrite Forall_forall in G. apply (G (fun _ _ H => proj1 H) _ Hy).
    + simpl. apply inSlot_forallb.
      apply (@Forall2_slots2_right _ (fun y => protoFree y = true) xs ys F).
      tauto.
    + apply sameJson_arr_intro.
      apply Forall2_impl with (2 := F). intros [x|] [y|]; simpl; tauto.
  - destruct (isJson_obj _ _ Ja) as [-> [ND J]].
    destruct (protoFree_obj _ _ Fa) as [NP F].
    rewrite canonicalizeJson_plain in Hc; auto.
    set (ks := Array_sort (map fst props)) in *.
    destruct (mapResult (canonicalizeAt props) ks) as [cs|] eqn:E; [|discriminate].
    inversion Hc; subst c. clear Hc.
    apply mapResult_Forall2 in E.
    assert (NDk : NoDup ks)
      by (apply (Permutation_NoDup (Permutation_sym (Array_sort_perm _))); auto).
    pose proof (map_fst_combine _ _ (Forall2_length E)) as Keys.
    assert (Each : forall k y, In (k, y) (combine ks cs) ->
               exists x, In (k, x) props /\ canonicalizeJson x = Ok y).
    { clear -E. induction E as [|k c ks cs Hc E IH]; simpl; [tauto|].
      intros k' y [H|H]; auto. inversion H; subst.
      apply canonicalizeAt_Ok in Hc as [x [Hx Hc]]. apply lookup_In in Hx. eauto. }
    rewrite Forall_forall in IHprops.
    repeat split.
    + simpl. rewrite Keys. apply andb_true_iff; split; [now apply nodupb_NoDup|].
      apply forallb_forall. intros [k y] Hin.
      destruct (Each _ _ Hin) as [x [Hx Hy]].
      apply (IHprops (k, x) Hx); eauto.
    + simpl. apply forallb_forall. intros [k y] Hin.
      destruct (Each _ _ Hin) as [x [Hx Hy]].
      apply andb_true_iff; split.
      * apply negb_true_iff, eqb_neq. intros ->. apply NP.
        apply (in_map fst) in Hx. exact Hx.
      * apply (IHprops (k, x) Hx); eauto.
    + unfold obj. change (sameJson (obj props) (obj (combine ks cs)) = true).
      simpl. apply andb_true_iff; split; apply forallb_forall.
      * intros [k x] Hx.
        assert (Hk : In k ks).
        { apply (Permutation_in _ (Permutation_sym (Array_sort_perm _))).
          apply (in_map fst) in Hx. exact Hx. }
        destruct (@lookup_combine _ _ _ E _ Hk) as [y [Hy Hc]].
        rewrite Hy.
        rewrite (canonicalizeAt_lookup _ _ (In_lookup_NoDup _ _ _ ND Hx)) in Hc.
        apply (IHprops (k, x) Hx); eauto.
      * intros [k y] Hin. apply existsb_eqb_In.
        apply (Permutation_in _ (Array_sort_perm _)). fold ks. rewrite <- Keys.
        apply (in_map fst) in Hin. exact Hin.
Qed.

(** X2.  The canonical form of a JSON value none of whose keys is
    [__proto__] is a JSON value with the same content (only the order of
    the keys differs), and it is its own canonical form. *)
Theorem canonical_form_is_a_fixed_point a c :
  isJson a = true -> protoFree a = true -> canonicalizeJson a = Ok c ->
  isJson c = true /\ sameJson a c = true /\ canonicalizeJson c = Ok c.
Proof.
  intros Ja Fa Hc.
  destruct (canonical_form_of_json a Ja Fa Hc) as [Jc [_ S]].
  split; [exact Jc|]. split; [exact S|].
  exact (canonicalizeJson_idempotent a Ja Fa Hc).
Qed.

Lemma canonical_form_is_a_fixed_point_witness :
  isJson nested1 = true /\ protoFree nested1 = true
  /\ canonicalizeJson nested1 = Ok nested2
  /\ isJson nested2 = true /\ sameJson nested1 nested2 = true
  /\ canonicalizeJson nested2 = Ok nested2.
Proof.
  repeat (split; [reflexivity|]).
  apply (@canonical_form_is_a_fixed_point nested1 nested2); reflexivity.
Defined.

Lemma acceptable_succeeds v :
  acceptable v = true -> exists c, canonicalizeJson v = Ok c.
Proof.
  induction v as [| |x|x|s|bs|xs IHxs|p props IHp IHprops| |k tag] using value_rect';
    intros A; try discriminate; try (simpl; eauto; fail).
  - simpl in A. simpl. unfold assertJsonSafeNumber. rewrite A. simpl; eauto.
  - simpl in A. apply forallb_inSlot in A. rewrite canonicalizeJson_arr.
    destruct (@mapSlot_total canonicalizeJson xs) as [ys ->]; [|simpl; eauto].
    apply (@Forall_inSlot_impl _ _ _ A). apply Forall_impl with (2 := IHxs).
    intros [x|]; simpl; auto.
  - simpl in A. apply andb_true_iff in A as [HP A]. rewrite forallb_forall in A.
    rewrite canonicalizeJson_obj. unfold isPlainObject.
    change (hasPlainPrototype (VObj p props)) with
      (match p with VObjectPrototype | VNull => true | _ => false end).
    rewrite HP. simpl.
    apply fillSorted_total. intros k Hk.
    apply (Permutation_in _ (Array_sort_perm _)) in Hk.
    apply (Permutation_in _ (ownKeys_perm _)) in Hk.
    destruct (In_lookup _ _ Hk) as [x Hx].
    rewrite (canonicalizeAt_lookup _ _ Hx).
    apply lookup_In in Hx. rewrite Forall_forall in IHprops.
    apply (IHprops (k, x) Hx). apply (A (k, x) Hx).
Qed.

Lemma succeeds_acceptable v :
  distinctKeys v = true -> forall c, canonicalizeJson v = Ok c -> acceptable v = true.
Proof.
  induction v as [| |x|x|s|bs|xs IHxs|p props IHp IHprops| |k tag] using value_rect';
    intros D c Hc; try discriminate; auto.
  - simpl in Hc. destruct x; try discriminate; auto.
  - rewrite canonicalizeJson_arr in Hc.
    destruct (mapResult (mapSlot canonicalizeJson) xs) as [ys|] eqn:E; [|discriminate].
    apply mapSlot_Forall2 in E. simpl in D. apply forallb_inSlot in D.
    simpl. apply inSlot_forallb. clear Hc.
    rewrite Forall_forall in IHxs, D |- *.
    intros [x|] Hin; simpl; auto.
    assert (Hy : exists y, canonicalizeJson x = Ok y).
    { clear -E Hin. induction E as [|a b xs ys Hab E IH]; [destruct Hin|].
      destruct Hin as [->|Hin]; auto.
      destruct b as [y|]; simpl in Hab; [eauto | contradiction]. }
    destruct Hy as [y Hy].
    apply (IHxs _ Hin (D _ Hin) y Hy).
  - rewrite canonicalizeJson_obj in Hc.
    destruct (isPlainObject (VObj p props)) eqn:HP; [|discriminate].
    simpl in D. apply andb_true_iff in D as [ND D].
    apply nodupb_NoDup in ND. rewrite forallb_forall in D.
    unfold isPlainObject in HP. simpl in HP.
    simpl. apply andb_true_iff; split; [exact HP|].
    apply forallb_forall. intros [k x] Hx.
    assert (Hk : In k (Array_sort (ownKeys props))).
    { apply (Permutation_in _ (Permutation_sym (Array_sort_perm _))).
      apply (Permutation_in _ (Permutation_sym (ownKeys_perm _))).
      apply (in_map fst) in Hx. exact Hx. }
    destruct (fillSorted_Ok_inv _ _ _ Hc _ Hk) as [c' Hc'].
    rewrite (canonicalizeAt_lookup _ _ (In_lookup_NoDup _ _ _ ND Hx)) in Hc'.
    rewrite Forall_forall in IHprops.
    apply (IHprops (k, x) Hx) with (c := c'); auto. apply (D (k, x) Hx).
Qed.

(** X3.  On a value whose objects have pairwise different keys, the
    canonicalizer succeeds exactly when the value is built from null,
    booleans, strings, finite numbers, arrays and plain objects: an
    [undefined], a non-finite number, a typed array or any other kind of
    object, at any depth, makes it throw. *)
Theorem canonicalizer_accepts_exactly v :
  distinctKeys v = true ->
  ((exists c, canonicalizeJson v = Ok c) <-> acceptable v = true).
Proof.
  intros D. split.
  - intros [c Hc]. eapply succeeds_acceptable; eauto.
  - apply acceptable_succeeds.
Qed.

Lemma canonicalizer_accepts_exactly_witness :
  distinctKeys (obj [(lit "a", arr [num 1; VNum NaN])]) = true
  /\ acceptable (obj [(lit "a", arr [num 1; VNum NaN])]) = false
  /\ ~ exists c, canonicalizeJson (obj [(lit "a", arr [num 1; VNum NaN])]) = Ok c.
Proof.
  split; [reflexivity|]. split; [reflexivity|].
  intros H.
  apply (proj1 (@canonicalizer_accepts_exactly
                  (obj [(lit "a", arr [num 1; VNum NaN])]) eq_refl)) in H.
  discriminate H.
Defined.

Lemma nodupb_assign k props :
  lookup k props = None -> nodupb (map fst props) = true ->
  nodupb (map fst (props ++ [(k, VNull)])) = true.
Proof.
  intros L ND. rewrite map_app. apply nodupb_NoDup.
  apply nodupb_NoDup in ND. apply lookup_None in L.
  apply NoDup_app; auto.
  - repeat constructor. intros [].
  - intros k' H1 [<-|[]]. contradiction.
Qed.

Lemma map_fst_replace k (c : value) props :
  map fst (replace k c props) = map fst props.
Proof.
  induction props as [|[k' y] props IH]; simpl; auto.
  destruct (JsString.eqb k k'); simpl; congruence.
Qed.

(** The assignment [out[k] = c] keeps a property of the values that
    are own properties of [out], and the keys pairwise different. *)
Lemma assign_data (b : value -> bool) out k c :
  (forall p props, b (VObj p props)
                   = nodupb (map fst props) && forallb (fun '(_, x) => b x) props) ->
  b out = true -> b c = true -> b (assign out k c) = true.
Proof.
  intros Hb. destruct out as [| | | | | | |p props| |]; auto.
  rewrite Hb. intros H Hc. apply andb_true_iff in H as [ND F].
  unfold assign. destruct (lookup k props) as [old|] eqn:L.
  - rewrite Hb, map_fst_replace, ND. simpl.
    now apply StringifyFacts.replace_forallb.
  - destruct (JsString.eqb k protoKey && inheritsObjectPrototype p).
    + destruct (isObject c || match c with VNull => true | _ => false end);
        rewrite Hb; now rewrite ND, F.
    + rewrite Hb, forallb_app. simpl. rewrite F, Hc. simpl.
      rewrite andb_true_r. pose proof (nodupb_assign _ _ L ND) as N.
      now rewrite !map_app in *.
Qed.

Lemma fillSorted_data (b : value -> bool) f keys :
  (forall p props, b (VObj p props)
                   = nodupb (map fst props) && forallb (fun '(_, x) => b x) props) ->
  (forall k c, In k keys -> f k = Ok c -> b c = true) ->
  forall out c, b out = true -> fillSorted f keys out = Ok c -> b c = true.
Proof.
  intros Hb. induction keys as [|k keys IH]; intros Hf out c Ho H; simpl in H.
  - now inversion H; subst.
  - destruct (f k) as [ck|] eqn:E; [|discriminate]. simpl in H.
    apply (IH (fun k' c' Hin => Hf k' c' (or_intror Hin)) (assign out k ck) c);
      [|exact H].
    apply assign_data; auto. apply (Hf k ck); auto. now left.
Qed.

Lemma fillSorted_obj f keys :
  forall out c, (exists p ps, out = VObj p ps) -> fillSorted f keys out = Ok c ->
                exists p ps, c = VObj p ps.
Proof.
  induction keys as [|k keys IH]; intros out c Ho H; simpl in H.
  - inversion H; subst. exact Ho.
  - destruct (f k) as [ck|]; [|discriminate]. simpl in H.
    apply (IH _ _) in H; auto.
    destruct Ho as [p [ps ->]]. simpl.
    destruct (lookup k ps); eauto.
    destruct (JsString.eqb k protoKey && inheritsObjectPrototype p); eauto.
    destruct (isObject ck || match ck with VNull => true | _ => false end); eauto.
Qed.

Lemma canonical_sparseData v :
  forall c, canonicalizeJson v = Ok c -> sparseData c = true.
Proof.
  induction v as [| |x|x|s|bs|xs IHxs|p props IHp IHprops| |k tag] using value_rect';
    intros c Hc; try discriminate; try (inversion Hc; subst; reflexivity).
  - simpl in Hc. destruct x; try discriminate. now inversion Hc.
  - rewrite canonicalizeJson_arr in Hc.
    destruct (mapResult (mapSlot canonicalizeJson) xs) as [ys|] eqn:E; [|discriminate].
    inversion Hc; subst c. clear Hc. apply mapSlot_Forall2 in E.
    simpl. apply inSlot_forallb.
    apply (@Forall2_slots2_right (fun _ y => sparseData y = true) _ xs ys); [|auto].
    apply (@Forall2_slots2_impl _ _ _ xs ys IHxs E). intros x y Hx Hxy. now apply Hx.
  - rewrite canonicalizeJson_obj in Hc.
    destruct (isPlainObject (VObj p props)); [|discriminate].
    apply (@fillSorted_data sparseData (canonicalizeAt props)
             (Array_sort (ownKeys props))) with (out := emptyObject);
      [reflexivity| |reflexivity|exact Hc].
    intros k c' _ Hk. apply canonicalizeAt_Ok in Hk as [x [Hx Hk]].
    apply lookup_In in Hx. rewrite Forall_forall in IHprops.
    apply (IHprops (k, x) Hx). exact Hk.
Qed.

Lemma canonical_dense v :
  dense v = true -> distinctKeys v = true ->
  forall c, canonicalizeJson v = Ok c -> jsonData c = true.
Proof.
  induction v as [| |x|x|s|bs|xs IHxs|p props IHp IHprops| |k tag] using value_rect';
    intros Dv Kv c Hc; try discriminate; try (inversion Hc; subst; reflexivity).
  - simpl in Hc. destruct x; try discriminate. now inversion Hc.
  - rewrite canonicalizeJson_arr in Hc.
    destruct (mapResult (mapSlot canonicalizeJson) xs) as [ys|] eqn:E; [|discriminate].
    inversion Hc; subst c. clear Hc. apply mapSlot_Forall2 in E.
    simpl in Dv, Kv. pose proof (forallb_no_hole _ _ Dv) as NoHole.
    apply forallb_inSlot in Dv, Kv.
    simpl. apply forallb_forall. intros slot Hin.
    clear -IHxs Dv Kv NoHole E Hin.
    induction E as [|a b xs ys Hab E IH]; [destruct Hin|].
    inversion IHxs; subst. inversion Dv; subst. inversion Kv; subst.
    destruct Hin as [->|Hin].
    + destruct a as [x|], slot as [y|]; simpl in *; try contradiction; auto;
        exfalso; apply NoHole; now left.
    + apply IH; auto. intros H. apply NoHole. now right.
  - rewrite canonicalizeJson_obj in Hc.
    destruct (isPlainObject (VObj p props)); [|discriminate].
    simpl in Dv, Kv. apply andb_true_iff in Kv as [ND Kv].
    apply nodupb_NoDup in ND. rewrite forallb_forall in Dv, Kv.
    apply (@fillSorted_data jsonData (canonicalizeAt props)
             (Array_sort (ownKeys props))) with (out := emptyObject);
      [reflexivity| |reflexivity|exact Hc].
    intros k c' _ Hk. apply canonicalizeAt_Ok in Hk as [x [Hx Hk]].
    apply lookup_In in Hx. rewrite Forall_forall in IHprops.
    apply (IHprops (k, x) Hx); auto; [apply (Dv _ Hx) | apply (Kv _ Hx)].
Qed.

(** X4.  Whatever the canonicalizer returns holds, at every depth of
    its elements and own properties, only null, booleans, strings, finite
    numbers, arrays and objects with pairwise different keys.  The holes
    of an array are kept where they are, and [JSON.stringify] writes them
    as [null]; when no array of the input has a hole, the result has
    none, and nothing in it is dropped or rewritten by [JSON.stringify]. *)
Theorem canonical_form_is_json_data v c :
  canonicalizeJson v = Ok c ->
  sparseData c = true
  /\ holes c = holes v
  /\ (dense v = true -> distinctKeys v = true -> jsonData c = true).
Proof.
  intros Hc. split; [eapply canonical_sparseData; eauto|]. split.
  - destruct v as [| |b|x|s|bs|xs|p props| |k tag]; try discriminate;
      try (inversion Hc; subst; reflexivity).
    + simpl in Hc. destruct (assertJsonSafeNumber x); [|discriminate].
      now inversion Hc.
    + rewrite canonicalizeJson_arr in Hc.
      destruct (mapResult (mapSlot canonicalizeJson) xs) as [ys|] eqn:E;
        [|discriminate].
      inversion Hc; subst c. apply mapSlot_Forall2 in E. simpl.
      clear Hc. induction E as [|[x|] [y|] xs ys Hxy E IH]; simpl in *;
        try contradiction; congruence.
    + rewrite canonicalizeJson_obj in Hc.
      destruct (isPlainObject (VObj p props)); [|discriminate].
      destruct (@fillSorted_obj (canonicalizeAt props) (Array_sort (ownKeys props))
                  emptyObject c) as [p' [ps' ->]]; unfold emptyObject; eauto.
  - intros Dv Kv. eapply canonical_dense; eauto.
Qed.

Lemma canonical_form_is_json_data_witness :
  canonicalizeJson sparse = Ok sparse
  /\ sparseData sparse = true
  /\ holes sparse = [false; true; false]
  /\ jsonData sparse = false
  /\ dense nested1 = true /\ distinctKeys nested1 = true
  /\ canonicalizeJson nested1 = Ok nested2
  /\ jsonData nested2 = true.
Proof.
  assert (C : canonicalizeJson sparse = Ok sparse) by reflexivity.
  assert (N : canonicalizeJson nested1 = Ok nested2) by reflexivity.
  split; [exact C|].
  split; [exact (proj1 (@canonical_form_is_json_data sparse sparse C))|].
  split; [reflexivity|]. split; [reflexivity|].
  split; [reflexivity|]. split; [reflexivity|]. split; [exact N|].
  exact (proj2 (proj2 (@canonical_form_is_json_data nested1 nested2 N)) eq_refl eq_refl).
Defined.

(** X5.  The three hash functions agree: [hashDeterministicJsonBytes]
    and [hashDeterministicJsonBase58] make the calls of
    [hashDeterministicJson] and settle as it does, with its [bytes] and
    its [base58]; and its [base58] is always the base58 text of its
    [bytes]. *)
Theorem hash_functions_agree P v :
  hashDeterministicJsonBytes P v
  = (trace (hashDeterministicJson P v),
     mapPromise (@bytes) (outcome (hashDeterministicJson P v)))
  /\ hashDeterministicJsonBase58 P v
     = (trace (hashDeterministicJson P v),
        mapPromise (@base58) (outcome (hashDeterministicJson P v)))
  /\ mapPromise (@base58) (outcome (hashDeterministicJson P v))
     = mapPromise (fun h => bs58_encode P (bytes h)) (outcome (hashDeterministicJson P v)).
Proof.
  rewrite (GenerateFacts.hashDeterministicJsonBytes_eq P v),
    (GenerateFacts.hashDeterministicJsonBase58_eq P v),
    (GenerateFacts.hashDeterministicJson_eq P v).
  unfold sha256Base58, sha256.
  destruct (canonicalizeJson v) as [c|e]; [|repeat split; reflexivity].
  rewrite !bind_sync_Ok.
  destruct (sha256Raw P (canonicalBytes P c)) as [t [d|e|]]; simpl;
    rewrite ?app_nil_r; repeat split; reflexivity.
Qed.

(** X6.  [sha256Raw] runs at most one digest provider, on the data it
    was given.  Without [globalThis.crypto.subtle], every failure of the
    Node providers, and the failure to import them, is reported as the
    one error "no SHA-256 implementation available". *)
Theorem sha256_provider_fallback P data :
  crypto_subtle P = None ->
  (forall e, outcome (sha256Raw P data) = Rejected e -> e = noSha256Error)
  /\ (import_crypto P = None -> sha256Raw P data = ([], Rejected noSha256Error))
  /\ (trace (sha256Raw P data) = [] \/ trace (sha256Raw P data) = [Digest data]).
Proof.
  intros G. unfold sha256Raw. rewrite G.
  destruct (import_crypto P) as [nc|].
  - destruct (webcrypto_subtle nc) as [d|]; simpl.
    + destruct (d data); simpl; repeat split; auto; try discriminate.
      intros e' H; now inversion H.
    + destruct (createHash_sha256 nc data); simpl; repeat split; auto; try discriminate.
      intros e' H; now inversion H.
  - simpl. repeat split; auto. intros e H; now inversion H.
Qed.

Lemma sha256_provider_fallback_witness :
  crypto_subtle noCrypto = None
  /\ import_crypto noCrypto = None
  /\ sha256Raw noCrypto [1; 2; 3]%N = ([], Rejected noSha256Error).
Proof.
  split; [reflexivity|]. split; [reflexivity|].
  apply (proj1 (proj2 (@sha256_provider_fallback noCrypto [1; 2; 3]%N eq_refl))).
  reflexivity.
Defined.

End CanonicalizerCoverage.

(** ** Signing and [generate] (src/crypto/signer.ts, src/client/SnowyClient.ts) *)

Module GenerateCoverage.
Import OrderFacts CanonFacts AsyncFacts GenerateFacts GenerateTrace Authorization
       ResponseChecks UsageChecks Fixture Fixture2.

(** X7.  [signHash] succeeds exactly when the public key decodes to 32
    bytes, the hash is a [Uint8Array] of 32 bytes and the wallet returns
    a [Uint8Array] of 64 bytes; it then has called the wallet once, with
    the hash, and returns the base58 text of the signature. *)
Theorem signHash_succeeds_exactly P wallet hash32 t s :
  signHash P wallet hash32 = (t, Fulfilled s)
  <-> exists h sig,
        hash32 = VBytes h /\ length h = 32
        /\ ensureBase58PublicKey P (publicKey wallet) = Ok tt
        /\ signMessage wallet h = Fulfilled (VBytes sig) /\ length sig = 64
        /\ s = bs58_encode P sig /\ t = [SignMessage h].
Proof.
  split.
  - intros H.
    destruct (signHash_cases P wallet hash32) as [[_ [e E]]|[h [-> [L [K E]]]]].
    + rewrite H in E. discriminate.
    + rewrite E in H. unfold call in H.
      destruct (signMessage wallet h) as [v|e|] eqn:S; try discriminate.
      rewrite bind_Fulfilled in H.
      destruct v as [| | | | |sig| | | |]; try discriminate.
      destruct (length sig =? 64)%nat eqn:L64; simpl in H; [|discriminate].
      apply Nat.eqb_eq in L64. inversion H; subst.
      exists h, sig. repeat split; auto.
  - intros [h [sig [-> [L [K [S [L64 [-> ->]]]]]]]].
    unfold signHash. rewrite K, bind_sync_Ok.
    apply Nat.eqb_eq in L, L64. rewrite L. simpl negb. cbv iota.
    unfold call. rewrite S, bind_Fulfilled, L64. reflexivity.
Qed.

Lemma signHash_succeeds_exactly_witness :
  signHash P0 (wallet goodKey sig64) (VBytes (testDigest []))
  = ([SignMessage (testDigest [])], Fulfilled (base58_encode (repeat 7%N 64)))
  /\ exists h sig,
       VBytes (testDigest []) = VBytes h /\ length h = 32
       /\ ensureBase58PublicKey P0 goodKey = Ok tt
       /\ signMessage (wallet goodKey sig64) h = Fulfilled (VBytes sig)
       /\ length sig = 64
       /\ base58_encode (repeat 7%N 64) = bs58_encode P0 sig
       /\ [SignMessage (testDigest [])] = [SignMessage h].
Proof.
  assert (E : signHash P0 (wallet goodKey sig64) (VBytes (testDigest []))
              = ([SignMessage (testDigest [])],
                 Fulfilled (base58_encode (repeat 7%N 64))))
    by (vm_compute; reflexivity).
  split; [exact E|].
  exact (proj1 (signHash_succeeds_exactly P0 (wallet goodKey sig64)
                  (VBytes (testDigest [])) _ _) E).
Defined.


Lemma signHash_after_call P wallet m :
  ensureBase58PublicKey P (publicKey wallet) = Ok tt -> length m = 32 ->
  trace (signHash P wallet (VBytes m)) = [SignMessage m]
  /\ outcome (signHash P wallet (VBytes m))
     = match signMessage wallet m with
       | Fulfilled (VBytes s) =>
           if (length s =? 64)%nat then Fulfilled (bs58_encode P s)
           else Rejected (signatureLengthError (length s))
       | Fulfilled _ => Rejected signatureTypeError
       | Rejected e => Rejected e
       | Pending => Pending
       end.
Proof.
  intros K L. unfold signHash. rewrite K, bind_sync_Ok.
  apply Nat.eqb_eq in L. rewrite L. simpl negb. cbv iota. unfold call.
  destruct (signMessage wallet m) as [v|e|]; try (split; reflexivity).
  rewrite bind_Fulfilled.
  destruct v as [| | | | |s| | | |]; try (split; reflexivity).
  destruct (length s =? 64)%nat; split; reflexivity.
Qed.

Lemma generate_trace_outcome P this wallet input t1 h :
  validation P wallet input = Ok tt ->
  hashDeterministicJson P (payload P this wallet input) = (t1, Fulfilled h) ->
  length (bytes h) = 32 ->
  trace (generate P this (Some wallet) input)
  = t1 ++ [SignMessage (bytes h)]
       ++ match outcome (signHash P wallet (VBytes (bytes h))) with
          | Fulfilled signature =>
              [Fetch (endpoint this)
                 (sentRequest P (transport this)
                    (signedRequest P this wallet input h signature) None)]
          | _ => []
          end
  /\ outcome (generate P this (Some wallet) input)
     = match outcome (signHash P wallet (VBytes (bytes h))) with
       | Fulfilled signature =>
           match outcome (postJson P (transport this) (endpoint this)
                            (signedRequest P this wallet input h signature) None) with
           | Fulfilled response =>
               match validateGenerateResponse P response with
               | Throw e => Rejected e
               | Ok _ =>
                   match verifyResponse this wallet (base58 h) response with
                   | Throw e => Rejected e
                   | Ok _ => Fulfilled response
                   end
               end
           | Rejected e => Rejected e
           | Pending => Pending
           end
       | Rejected e => Rejected e
       | Pending => Pending
       end.
Proof.
  intros V H L.
  destruct (signHash_after_call P wallet (bytes h) (validation_key _ _ _ V) L) as [T O].
  rewrite (@generate_valid P this _ _ V), H. split.
  - rewrite trace_bind. cbn [trace fst outcome snd]. f_equal.
    rewrite trace_bind, T. cbn [app]. f_equal.
    destruct (outcome (signHash P wallet (VBytes (bytes h)))) as [sg|e|]; auto.
    rewrite trace_bind, (@signedRequest_sent P this wallet input h sg V).
    cbn [trace fst outcome snd app]. f_equal.
    match goal with |- match ?o with _ => _ end = _ => destruct o end; auto.
    apply tail_trace.
  - rewrite outcome_bind. cbn [outcome snd]. rewrite outcome_bind.
    destruct (outcome (signHash P wallet (VBytes (bytes h)))) as [sg|e|]; auto.
    rewrite outcome_bind.
    destruct (outcome (postJson _ _ _ _ _)) as [r|e|]; auto.
    destruct (validateGenerateResponse P r) as [[]|e]; [|reflexivity].
    rewrite bind_sync_Ok.
    destruct (verifyResponse this wallet (base58 h) r) as [[]|e]; reflexivity.
Qed.




(** X9.  The signing step is outside every timeout and is never
    retried: when the wallet, called in the course of [generate], rejects,
    [generate] rejects with the wallet's own error; when it never
    settles, [generate] never settles, whatever the transport's timeout;
    when it returns something that is not a [Uint8Array], [generate]
    fails with the signature type error.  In all three cases nothing is
    sent. *)
Theorem wallet_failures_end_the_call P this wallet input m :
  In (SignMessage m) (trace (generate P this (Some wallet) input)) ->
  (forall e, signMessage wallet m = Rejected e ->
             outcome (generate P this (Some wallet) input) = Rejected e
             /\ existsb isFetch (trace (generate P this (Some wallet) input)) = false)
  /\ (signMessage wallet m = Pending ->
      outcome (generate P this (Some wallet) input) = Pending
      /\ existsb isFetch (trace (generate P this (Some wallet) input)) = false)
  /\ (forall v, signMessage wallet m = Fulfilled v -> is_bytes v = false ->
                outcome (generate P this (Some wallet) input)
                = Rejected signatureTypeError
                /\ existsb isFetch (trace (generate P this (Some wallet) input)) = false).
Proof.
  intros Hin.
  apply generate_sign_event in Hin as [V [t1 [h [H Hin]]]].
  apply signHash_trace in Hin as [Hm [L _]]. inversion Hm; subst m.
  destruct (@generate_trace_outcome P this wallet input t1 h V H L) as [T O].
  destruct (signHash_after_call P wallet (bytes h) (validation_key _ _ _ V) L) as [_ S].
  pose proof (hashDeterministicJson_trace P (payload P this wallet input)) as D.
  rewrite H in D. cbn [trace fst] in D.
  rewrite T, O, S. repeat split.
  - now rewrite H0.
  - rewrite H0, existsb_app, (digests_no_fetch D). reflexivity.
  - now rewrite H0.
  - rewrite H0, existsb_app, (digests_no_fetch D). reflexivity.
  - rewrite H0. destruct v; try discriminate; reflexivity.
  - rewrite H0, existsb_app, (digests_no_fetch D).
    destruct v; try discriminate; reflexivity.
Qed.

Lemma wallet_failures_end_the_call_witness :
  In (SignMessage (testDigest (canonicalBytes P0
                      (payload P0 (client (timed silent)) stuckWallet goodInput))))
     (trace (generate P0 (client (timed silent)) (Some stuckWallet) goodInput))
  /\ outcome (generate P0 (client (timed silent)) (Some stuckWallet) goodInput) = Pending
  /\ existsb isFetch
       (trace (generate P0 (client (timed silent)) (Some stuckWallet) goodInput)) = false.
Proof.
  match goal with |- ?A /\ _ => assert (Hin : A) by (vm_compute; auto 10) end.
  split; [exact Hin|].
  exact (proj1 (proj2 (wallet_failures_end_the_call _ _ _ _ _ Hin)) eq_refl).
Defined.

(** X10.  Errors of the transport reach the caller of [generate] as
    they are: once the request is signed, a rejection of [postJson] is the
    rejection of [generate], a call that never settles leaves [generate]
    unsettled, and in every case exactly one request has been made (the
    signed request is one [JSON.stringify] accepts). *)
Theorem transport_failures_surface P this wallet input t1 h t2 signature :
  validation P wallet input = Ok tt ->
  hashDeterministicJson P (payload P this wallet input) = (t1, Fulfilled h) ->
  signHash P wallet (VBytes (bytes h)) = (t2, Fulfilled signature) ->
  (forall e, outcome (postJson P (transport this) (endpoint this)
                        (signedRequest P this wallet input h signature) None)
             = Rejected e ->
             outcome (generate P this (Some wallet) input) = Rejected e)
  /\ (outcome (postJson P (transport this) (endpoint this)
                 (signedRequest P this wallet input h signature) None) = Pending ->
      outcome (generate P this (Some wallet) input) = Pending)
  /\ trace (generate P this (Some wallet) input)
     = t1 ++ [SignMessage (bytes h);
              Fetch (endpoint this)
                (sentRequest P (transport this)
                   (signedRequest P this wallet input h signature) None)]
  /\ exists json,
       JSON_stringify P (signedRequest P this wallet input h signature)
       = Ok (Some json).
Proof.
  intros V H S.
  pose proof (proj1 (signHash_succeeds_exactly _ _ _ _ _) S)
    as [hb [sig [Hb [L _]]]].
  inversion Hb; subst hb.
  destruct (@generate_trace_outcome P this wallet input t1 h V H L) as [T O].
  rewrite S in T, O. cbn [outcome snd] in T, O.
  rewrite T, O. repeat split.
  - intros e E. now rewrite E.
  - intros E. now rewrite E.
  - now apply signedRequest_stringify.
Qed.

Lemma transport_failures_surface_witness :
  validation P0 (wallet goodKey sig64) goodInput = Ok tt
  /\ outcome (postJson P0 (timed failing500) url0
                (signedRequest P0 (client (timed failing500)) (wallet goodKey sig64)
                   goodInput
                   {| bytes := testDigest (canonicalBytes P0
                                 (payload P0 (client (timed failing500))
                                    (wallet goodKey sig64) goodInput));
                      base58 := sentHash |}
                   (base58_encode (repeat 7%N 64))) None)
     = Rejected (SnowyHttpError 500 (lit "Internal Server Error") url0 (lit "oops"))
  /\ outcome (generate P0 (client (timed failing500)) (Some (wallet goodKey sig64))
                goodInput)
     = Rejected (SnowyHttpError 500 (lit "Internal Server Error") url0 (lit "oops")).
Proof.
  split; [reflexivity|].
  match goal with |- ?A /\ _ => assert (E : A) by (vm_compute; reflexivity) end.
  split; [exact E|].
  assert (V : validation P0 (wallet goodKey sig64) goodInput = Ok tt)
    by (vm_compute; reflexivity).
  assert (H : hashDeterministicJson P0
                (payload P0 (client (timed failing500)) (wallet goodKey sig64) goodInput)
              = (trace (hashDeterministicJson P0
                          (payload P0 (client (timed failing500))
                             (wallet goodKey sig64) goodInput)),
                 Fulfilled
                   {| bytes := testDigest (canonicalBytes P0
                                 (payload P0 (client (timed failing500))
                                    (wallet goodKey sig64) goodInput));
                      base58 := sentHash |}))
    by (vm_compute; reflexivity).
  assert (S : signHash P0 (wallet goodKey sig64)
                (VBytes (bytes
                   {| bytes := testDigest (canonicalBytes P0
                                 (payload P0 (client (timed failing500))
                                    (wallet goodKey sig64) goodInput));
                      base58 := sentHash |}))
              = (trace (signHash P0 (wallet goodKey sig64)
                          (VBytes (testDigest (canonicalBytes P0
                                 (payload P0 (client (timed failing500))
                                    (wallet goodKey sig64) goodInput))))),
                 Fulfilled (base58_encode (repeat 7%N 64))))
    by (vm_compute; reflexivity).
  exact (proj1 (@transport_failures_surface _ _ _ _ _ _ _ _ V H S) _ E).
Defined.

Lemma generate_fulfilled_inv P this wallet input r :
  outcome (generate P this (Some wallet) input) = Fulfilled r ->
  validateGenerateResponse P r = Ok tt.
Proof.
  intros G.
  destruct (validation P wallet input) as [[]|e] eqn:V.
  2:{ rewrite (@generate_invalid P this _ _ _ V) in G. discriminate. }
  destruct (hashDeterministicJson P (payload P this wallet input)) as [t1 [h|e|]] eqn:H.
  2,3: rewrite (@generate_valid P this _ _ V), H in G; discriminate.
  destruct (length (bytes h) =? 32)%nat eqn:L.
  - apply Nat.eqb_eq in L.
    destruct (@generate_trace_outcome P this wallet input t1 h V H L) as [_ O].
    rewrite O in G.
    destruct (outcome (signHash P wallet (VBytes (bytes h)))); try discriminate.
    destruct (outcome (postJson _ _ _ _ _)) as [r'|e|]; try discriminate.
    destruct (validateGenerateResponse P r') as [[]|e] eqn:E; try discriminate.
    destruct (verifyResponse this wallet (base58 h) r'); try discriminate.
    inversion G; subst. exact E.
  - rewrite (@generate_valid P this _ _ V), H, outcome_bind in G.
    cbn [outcome snd] in G. rewrite outcome_bind in G.
    destruct (@signHash_bad_digest P wallet (VBytes (bytes h))) as [_ [e O]];
      [simpl; exact L|].
    rewrite O in G. discriminate.
Qed.

Lemma check_bind_iff failed message (k : result unit) :
  (check failed message ;; k) = Ok tt <-> failed = false /\ k = Ok tt.
Proof.
  unfold check. destruct failed; simpl; split; try tauto.
  - discriminate.
  - intros [? _]; discriminate.
Qed.

Lemma check_iff failed message : check failed message = Ok tt <-> failed = false.
Proof. unfold check. destruct failed; split; auto; discriminate. Qed.

Lemma result_bind_iff (r k : result unit) :
  (r ;; k) = Ok tt <-> r = Ok tt /\ k = Ok tt.
Proof.
  destruct r as [[]|e]; simpl;
    (split; [first [tauto | discriminate] | first [tauto | intros [? _]; discriminate]]).
Qed.

Lemma assertModel_iff P v : assertModel P v = Ok tt <-> isModelValue v = true.
Proof.
  unfold assertModel, isModelValue, isModelName.
  destruct v as [| | | |s| | | | |];
    try (simpl; destruct (String_of P _); split; discriminate).
  simpl.
  destruct (JsString.eqb s (lit "snowy-base")); simpl; [tauto|].
  destruct (JsString.eqb s (lit "snowy-meme")); simpl; [tauto|].
  destruct (JsString.eqb s (lit "snowy-code")); simpl; [tauto|].
  split; discriminate.
Qed.

Lemma validate_shape P r :
  validateGenerateResponse P r = Ok tt <-> hasResponseShape r = true.
Proof.
  unfold validateGenerateResponse, hasResponseShape. cbv zeta.
  rewrite !check_bind_iff, result_bind_iff, !check_bind_iff, check_iff, assertModel_iff.
  rewrite !andb_true_iff, !orb_false_iff, !negb_false_iff.
  assert (M : isModelValue (get r (lit "model")) = true ->
              isType (get r (lit "model")) TString = true).
  { destruct (get r (lit "model")); simpl; auto; discriminate. }
  tauto.
Qed.

(** X11.  [validateGenerateResponse] accepts exactly the objects with a
    string [output], a [model] of the enumerated set, an object [usage]
    with three numbers and an object [verification] with three strings;
    every value [generate] returns is such an object. *)
Theorem returned_response_has_the_shape P this wallet input r :
  (validateGenerateResponse P r = Ok tt <-> hasResponseShape r = true)
  /\ (outcome (generate P this wallet input) = Fulfilled r ->
      hasResponseShape r = true).
Proof.
  split; [apply validate_shape|].
  destruct wallet as [w|]; [|discriminate].
  intros G. apply (validate_shape P). eapply generate_fulfilled_inv; eauto.
Qed.

Lemma returned_response_has_the_shape_witness :
  outcome (generate (platformReading oddUsage) (client answering)
             (Some (wallet goodKey sig64)) goodInput) = Fulfilled oddUsage
  /\ hasResponseShape oddUsage = true.
Proof.
  assert (G : outcome (generate (platformReading oddUsage) (client answering)
                         (Some (wallet goodKey sig64)) goodInput) = Fulfilled oddUsage)
    by (vm_compute; reflexivity).
  split; [exact G|].
  exact (proj2 (returned_response_has_the_shape (platformReading oddUsage)
                  (client answering) (Some (wallet goodKey sig64)) goodInput oddUsage) G).
Defined.

End GenerateCoverage.

(** ** The arguments of [generate], the payload and the constructors *)

Module ArgumentCoverage.
Import OrderFacts CanonFacts AsyncFacts GenerateFacts GenerateTrace Authorization
       ResponseChecks UsageChecks GenerateCoverage Fixture Fixture2.

Lemma trimStart_nil s : trimStart s = [] <-> forallb isWhiteSpace s = true.
Proof.
  induction s as [|c s IH]; simpl; [tauto|].
  destruct (isWhiteSpace c); simpl; [exact IH|]. split; discriminate.
Qed.

Lemma trimStart_all s :
  forallb isWhiteSpace (trimStart s) = true -> forallb isWhiteSpace s = true.
Proof.
  induction s as [|c s IH]; simpl; auto.
  destruct (isWhiteSpace c) eqn:E; simpl; auto. now rewrite E.
Qed.

Lemma forallb_rev A (f : A -> bool) l : forallb f (rev l) = forallb f l.
Proof.
  induction l as [|x l IH]; simpl; auto.
  rewrite forallb_app, IH. simpl. rewrite andb_true_r. apply andb_comm.
Qed.

Lemma trim_blank s : (length (trim s) =? 0)%nat = negb (notBlank s).
Proof.
  assert (B : notBlank s = negb (forallb isWhiteSpace s)).
  { unfold notBlank. induction s as [|c s IH]; simpl; auto.
    rewrite IH. now destruct (isWhiteSpace c). }
  assert (E : trim s = [] <-> forallb isWhiteSpace s = true).
  { unfold trim. split.
    - intros H. apply (f_equal (@rev N)) in H. rewrite rev_involutive in H.
      simpl in H. apply trimStart_nil in H. rewrite forallb_rev in H.
      now apply trimStart_all.
    - intros H. apply trimStart_nil in H. now rewrite H. }
  rewrite B, negb_involutive.
  destruct (forallb isWhiteSpace s).
  - rewrite (proj2 E eq_refl). reflexivity.
  - destruct (trim s) eqn:T; auto.
    first [discriminate (proj1 E eq_refl) | discriminate (proj1 E T)].
Qed.

Lemma assertNonEmptyString_iff name v :
  assertNonEmptyString name v = Ok tt <-> isNonBlankString v = true.
Proof.
  unfold assertNonEmptyString, isNonBlankString.
  destruct v as [| | | |s| | | | |[]]; simpl; try (split; discriminate).
  rewrite trim_blank. destruct (notBlank s); simpl; split; auto; discriminate.
Qed.

Lemma assertNumber_iff name v : assertNumber name v = Ok tt <-> isFiniteNumber v = true.
Proof.
  unfold assertNumber, isFiniteNumber.
  destruct v as [| | |[]| | | | | |[]]; simpl; split; auto; discriminate.
Qed.

Lemma assertInt_iff name v : assertInt name v = Ok tt <-> isFiniteInteger v = true.
Proof.
  unfold assertInt. rewrite result_bind_iff, assertNumber_iff.
  unfold isFiniteNumber, isFiniteInteger.
  destruct v as [| | |x| | | | | |]; simpl; try (split; [intros []|]; discriminate).
  rewrite andb_true_iff.
  destruct (Number_isInteger x); simpl; split; try tauto.
  - intros [_ ?]; discriminate.
  - intros [_ ?]; discriminate.
Qed.

Lemma ensureBase58PublicKey_iff P pk :
  ensureBase58PublicKey P pk = Ok tt
  <-> match bs58_decode P pk with
      | Some d => (length d =? 32)%nat
      | None => false
      end = true.
Proof.
  unfold ensureBase58PublicKey.
  destruct (bs58_decode P pk) as [d|]; [|split; discriminate].
  destruct (length d =? 32)%nat; simpl; split; auto; discriminate.
Qed.

(** X12.  [generate] accepts its arguments exactly when the public key
    decodes to 32 bytes, the model is one of the three names, the prompt
    is a string with a character that is not white space, the temperature
    is a finite number, maxTokens is a finite integer, and the timestamp
    is absent, [null] or a finite integer (an absent or [null] timestamp
    is replaced by the current time). *)
Theorem generate_accepts_exactly P wallet input :
  validation P wallet input = Ok tt <-> acceptedArguments P wallet input = true.
Proof.
  unfold validation, acceptedArguments.
  rewrite !result_bind_iff, ensureBase58PublicKey_iff, assertModel_iff,
    assertNonEmptyString_iff, assertNumber_iff, !assertInt_iff.
  rewrite !andb_true_iff, orb_true_iff.
  assert (T : isFiniteInteger (timestampOf P input) = true
              <-> isNullish (timestamp input) = true
                  \/ isFiniteInteger (timestamp input) = true).
  { unfold timestampOf, coalesce.
    destruct (isNullish (timestamp input)) eqn:N.
    - split; auto.
    - split; auto. intros [?|?]; [discriminate | auto]. }
  tauto.
Qed.

Lemma generate_accepts_exactly_witness :
  acceptedArguments P0 (wallet goodKey sig64)
    {| model := VStr (lit "snowy-code"); prompt := VStr (lit " x ");
       temperature := num 0; maxTokens := num 1; timestamp := VNull |} = true
  /\ validation P0 (wallet goodKey sig64)
       {| model := VStr (lit "snowy-code"); prompt := VStr (lit " x ");
          temperature := num 0; maxTokens := num 1; timestamp := VNull |} = Ok tt.
Proof.
  split; [reflexivity|].
  apply (proj2 (generate_accepts_exactly P0 (wallet goodKey sig64) _)).
  reflexivity.
Defined.

(** X13.  For valid arguments the canonical payload is the object with
    the seven keys in the order maxTokens, model, programId, prompt,
    signer, temperature, timestamp and the values of the request;
    [JSON.stringify] returns a text for it, and the digest provider is
    run once, on the UTF-8 bytes of that text. *)
Theorem canonical_payload P this wallet input :
  validation P wallet input = Ok tt ->
  canonicalizeJson (payload P this wallet input)
  = Ok (obj (canonicalPayloadProps P this wallet input))
  /\ Object_keys (obj (canonicalPayloadProps P this wallet input))
     = [lit "maxTokens"; lit "model"; lit "programId"; lit "prompt";
        lit "signer"; lit "temperature"; lit "timestamp"]
  /\ exists json,
       JSON_stringify P (obj (canonicalPayloadProps P this wallet input))
       = Ok (Some json)
       /\ hashDeterministicJson P (payload P this wallet input)
          = (bytes <- sha256 P (utf8Encode json) ;;
             ret {| bytes := bytes; base58 := bs58_encode P bytes |}).
Proof.
  intros V.
  assert (C : canonicalizeJson (payload P this wallet input)
              = Ok (obj (canonicalPayloadProps P this wallet input))).
  { apply validation_Ok in V as [_ [M [S [T [I J]]]]].
    apply assertModel_Ok in M as [s M].
    apply assertNonEmptyString_Ok in S as [s' S].
    apply assertNumber_Ok in T as [m1 [e1 T]].
    apply assertInt_Ok in I as [m2 [e2 I]].
    apply assertInt_Ok in J as [m3 [e3 J]].
    unfold payload, toHashProps, canonicalPayloadProps.
    rewrite M, S, T, I, J. reflexivity. }
  split; [exact C|]. split; [reflexivity|].
  destruct (@StringifyFacts.canonical_stringify P _ _ C) as [json J].
  exists json. split; [exact J|].
  unfold hashDeterministicJson. rewrite C, bind_sync_Ok, J, bind_sync_Ok. reflexivity.
Qed.

Lemma canonical_payload_witness :
  validation P0 (wallet goodKey sig64) goodInput = Ok tt
  /\ canonicalizeJson (payload P0 (client idle) (wallet goodKey sig64) goodInput)
     = Ok (obj (canonicalPayloadProps P0 (client idle) (wallet goodKey sig64) goodInput)).
Proof.
  split; [reflexivity|].
  apply (proj1 (@canonical_payload P0 (client idle) (wallet goodKey sig64) goodInput
                  eq_refl)).
Defined.

Lemma nonEmptyString_Ok name v s :
  nonEmptyString name v = Ok s -> v = VStr s /\ notBlank s = true.
Proof.
  unfold nonEmptyString.
  destruct (assertNonEmptyString name v) as [[]|] eqn:E; simpl; [|discriminate].
  apply assertNonEmptyString_iff in E.
  destruct v; try discriminate. intros H; inversion H; subst. auto.
Qed.

(** X14.  A client that was constructed has an endpoint and a program
    identifier that are strings with a character that is not white space;
    the program identifier is the configured one, and the constant
    [SNOWY_PROGRAM_ID] only when none (or [null]) was configured, so that
    an empty or blank configured identifier is refused, not replaced; a
    configured transport is used as it is, and otherwise the transport
    uses [TransportInit.fetchFn] if there is one and the global [fetch]
    if not. *)
Theorem constructed_client_is_well_formed SNOWY_PROGRAM_ID globalFetch config c :
  newSnowyClient SNOWY_PROGRAM_ID globalFetch config = Ok c ->
  config_endpoint config = VStr (endpoint c)
  /\ notBlank (endpoint c) = true
  /\ notBlank (programId c) = true
  /\ (if isNullish (config_programId config)
      then programId c = SNOWY_PROGRAM_ID
      else config_programId config = VStr (programId c))
  /\ match config_transport config with
     | Some t => transport c = t
     | None =>
         timeoutMs (transport c)
         = match config_transportInit config with
           | Some i => default_timeoutMs i
           | None => None
           end
         /\ Some (fetchFn (transport c))
            = match config_transportInit config with
              | Some {| init_fetchFn := Some f |} => Some f
              | _ => globalFetch
              end
     end.
Proof.
  unfold newSnowyClient. cbv zeta. intros H.
  destruct (nonEmptyString (lit "endpoint") (config_endpoint config)) as [e|] eqn:E;
    [|discriminate].
  destruct (nonEmptyString (lit "programId")
              (coalesce (config_programId config) (VStr SNOWY_PROGRAM_ID)))
    as [p|] eqn:Pid; [|discriminate].
  simpl in H.
  apply nonEmptyString_Ok in E as [E1 E2]. apply nonEmptyString_Ok in Pid as [P1 P2].
  assert (Pr : if isNullish (config_programId config)
               then p = SNOWY_PROGRAM_ID
               else config_programId config = VStr p).
  { unfold coalesce in P1. destruct (isNullish (config_programId config)); auto.
    now inversion P1. }
  destruct (config_transport config) as [t|].
  - simpl in H. inversion H; subst c. simpl. auto.
  - unfold newTransport in H.
    destruct (config_transportInit config) as [[[f|] tm]|]; simpl in H.
    + inversion H; subst c. simpl. auto 10.
    + destruct globalFetch as [g|]; simpl in H; [|discriminate].
      inversion H; subst c. simpl. auto 10.
    + destruct globalFetch as [g|]; simpl in H; [|discriminate].
      inversion H; subst c. simpl. auto 10.
Qed.

Lemma constructed_client_is_well_formed_witness :
  newSnowyClient defaultProgramId None goodConfig = Ok (client idle)
  /\ notBlank (endpoint (client idle)) = true
  /\ programId (client idle) = defaultProgramId.
Proof.
  assert (E : newSnowyClient defaultProgramId None goodConfig = Ok (client idle))
    by reflexivity.
  split; [exact E|].
  destruct (constructed_client_is_well_formed _ _ _ E) as [_ [B [_ [D _]]]].
  split; [exact B | exact D].
Defined.

(** X15.  Constructing a client fails with "fetch is not available"
    exactly when the endpoint and the program identifier are acceptable
    and there is neither a configured transport, nor a
    [TransportInit.fetchFn], nor a global [fetch]; a blank endpoint is
    reported first, a blank program identifier second. *)
Theorem client_construction_failures SNOWY_PROGRAM_ID globalFetch config :
  (isNonBlankString (config_endpoint config) = false ->
   newSnowyClient SNOWY_PROGRAM_ID globalFetch config
   = Throw (Error_ (lit "Snowy SDK: endpoint must be a non-empty string")))
  /\ (isNonBlankString (config_endpoint config) = true ->
      isNonBlankString (coalesce (config_programId config) (VStr SNOWY_PROGRAM_ID))
      = false ->
      newSnowyClient SNOWY_PROGRAM_ID globalFetch config
      = Throw (Error_ (lit "Snowy SDK: programId must be a non-empty string")))
  /\ (newSnowyClient SNOWY_PROGRAM_ID globalFetch config = Throw noFetchError
      <-> isNonBlankString (config_endpoint config) = true
          /\ isNonBlankString (coalesce (config_programId config)
                                 (VStr SNOWY_PROGRAM_ID)) = true
          /\ config_transport config = None
          /\ globalFetch = None
          /\ match config_transportInit config with
             | Some {| init_fetchFn := Some _ |} => False
             | _ => True
             end).
Proof.
  assert (N : forall name v,
             nonEmptyString name v
             = if isNonBlankString v
               then match v with VStr s => Ok s | _ => Throw noFetchError end
               else Throw (Error_ (lit "Snowy SDK: " ++ name
                                     ++ lit " must be a non-empty string"))).
  { intros name v. unfold nonEmptyString.
    destruct (assertNonEmptyString name v) as [[]|e] eqn:E.
    - apply assertNonEmptyString_iff in E. rewrite E.
      destruct v; try (simpl in E; discriminate E); reflexivity.
    - destruct (isNonBlankString v) eqn:B.
      + apply (assertNonEmptyString_iff name) in B. congruence.
      + unfold assertNonEmptyString in E.
        match type of E with (if ?c then _ else _) = _ => destruct c end;
          [now inversion E | discriminate]. }
  unfold newSnowyClient. cbv zeta. rewrite !N.
  destruct (isNonBlankString (config_endpoint config)) eqn:B1.
  2:{ split; [intros _; reflexivity|].
      split; [discriminate|].
      split; [intros H; vm_compute in H; discriminate H | intros [H _]; discriminate H]. }
  destruct (config_endpoint config) as [| | | |e| | | | |];
    try (simpl in B1; discriminate B1).
  destruct (isNonBlankString (coalesce (config_programId config) (VStr SNOWY_PROGRAM_ID)))
    eqn:B2.
  2:{ split; [discriminate|].
      split; [intros _ _; reflexivity|].
      split; [intros H; vm_compute in H; discriminate H
             | intros [_ [H _]]; discriminate H]. }
  destruct (coalesce (config_programId config) (VStr SNOWY_PROGRAM_ID))
    as [| | | |p| | | | |]; try (simpl in B2; discriminate B2).
  split; [discriminate|].
  split; [intros _; discriminate|].
  cbn [bind result_Monad].
  destruct (config_transport config) as [t|].
  { split; [discriminate | intros [_ [_ [T _]]]; discriminate T]. }
  unfold newTransport.
  destruct (config_transportInit config) as [[[f|] tm]|], globalFetch as [g|];
    cbn;
    (split; [intros H; first [discriminate H | repeat split; auto]
            | intros [_ [_ [_ [G I]]]];
              first [discriminate G | reflexivity | destruct I]]).
Qed.

Lemma client_construction_failures_witness :
  isNonBlankString (VStr (lit "  ")) = false
  /\ newSnowyClient defaultProgramId None
       {| config_endpoint := VStr (lit "  "); config_programId := VUndefined;
          config_transport := None; config_transportInit := None |}
     = Throw (Error_ (lit "Snowy SDK: endpoint must be a non-empty string")).
Proof.
  split; [reflexivity|].
  apply (proj1 (client_construction_failures defaultProgramId None
                  {| config_endpoint := VStr (lit "  "); config_programId := VUndefined;
                     config_transport := None; config_transportInit := None |})).
  reflexivity.
Defined.

End ArgumentCoverage.

(** ** The transport (src/client/Transport.ts) *)

Module TransportCoverage.
Import AsyncFacts GenerateFacts GenerateTrace TransportChecks Fixture Fixture2.

(** X16.  [postJson] calls [fetchFn] at most once.  When
    [JSON.stringify] throws on the body, nothing is fetched and the call
    fails with that error, wrapped in the transport error "network or
    fetch failure" unless it is itself of a transport class.  Otherwise
    [fetchFn] is called exactly once, whatever the outcome: by POST, with
    the two JSON headers and the text [JSON.stringify] returned.  The
    signal it hands over is the caller's if there is one; otherwise the
    one of the timer when the timeout in force is truthy (neither 0 nor
    NaN), which aborts after the delay the platform gives the timer;
    otherwise none. *)
Theorem postJson_makes_one_request P this url body init :
  (forall e, JSON_stringify P body = Throw e ->
             postJson P this url body init = ([], Rejected (rethrow e)))
  /\ (forall json, JSON_stringify P body = Ok json ->
      exists req,
        trace (postJson P this url body init) = [Fetch url req]
        /\ method req = lit "POST"
        /\ headers req = [(lit "content-type", lit "application/json");
                          (lit "accept", lit "application/json")]
        /\ Effects.body req = json
        /\ signal req
           = match externalSignal init, effectiveTimeout this init with
             | Some sg, _ => Some sg
             | None, Some t =>
                 if truthy (VNum t)
                 then Some {| abortsAt := Some (setTimeout_delay P t);
                              reason := timeoutReason |}
                 else None
             | None, None => None
             end).
Proof.
  split.
  - intros e J. now rewrite postJson_eq, J.
  - intros json J. exists (requestFor P this json init).
    rewrite postJson_eq, J.
    repeat split; cbn [signal requestFor]; unfold signalFor, controllerSignal;
      destruct (externalSignal init); auto.
Qed.

Lemma postJson_makes_one_request_witness :
  JSON_stringify P0 bigInt = Throw bigIntError
  /\ postJson P0 (timed silent) url0 bigInt None
     = ([], Rejected (networkError bigIntError))
  /\ JSON_stringify P0 twoBytes = Ok (Some [123; 34; 48; 34; 58; 49; 44; 34; 49;
                                            34; 58; 50; 125]%N)
  /\ exists req,
       trace (postJson P0 (timed silent) url0 twoBytes None) = [Fetch url0 req]
       /\ Effects.body req = Some [123; 34; 48; 34; 58; 49; 44; 34; 49;
                                   34; 58; 50; 125]%N.
Proof.
  assert (J : JSON_stringify P0 bigInt = Throw bigIntError) by reflexivity.
  assert (K : JSON_stringify P0 twoBytes
              = Ok (Some [123; 34; 48; 34; 58; 49; 44; 34; 49; 34; 58; 50; 125]%N))
    by reflexivity.
  split; [exact J|].
  split; [exact (proj1 (postJson_makes_one_request P0 (timed silent) url0 bigInt None)
                   bigIntError J)|].
  split; [exact K|].
  destruct (proj2 (postJson_makes_one_request P0 (timed silent) url0 twoBytes None)
              _ K) as [req [T [_ [_ [B _]]]]].
  exists req. split; [exact T | exact B].
Defined.

(** X17.  The timeout of a call is [init.timeoutMs] when it is given,
    also when it is 0, and the transport's default otherwise; a timeout
    of 0 or NaN is no timeout. *)
Theorem per_call_timeout_overrides P f tmo url body t :
  postJson P {| fetchFn := f; timeoutMs := tmo |} url body
    (Some {| init_timeoutMs := Some t; init_signal := None |})
  = postJson P {| fetchFn := f; timeoutMs := Some t |} url body None
  /\ postJson P {| fetchFn := f; timeoutMs := tmo |} url body
       (Some {| init_timeoutMs := None; init_signal := None |})
     = postJson P {| fetchFn := f; timeoutMs := tmo |} url body None
  /\ postJson P {| fetchFn := f; timeoutMs := Some (ofZ 0) |} url body None
     = postJson P {| fetchFn := f; timeoutMs := None |} url body None
  /\ postJson P {| fetchFn := f; timeoutMs := Some NaN |} url body None
     = postJson P {| fetchFn := f; timeoutMs := None |} url body None.
Proof. repeat split; rewrite !postJson_eq; reflexivity. Qed.

(** X18.  Over a [fetch] that honours its signal, a timer or a
    caller's signal that does not fire before the call is completed,
    headers and body, changes nothing: the outcome is the one of the
    same call without timeout and without signal.  The timer fires after
    the delay the platform gives it. *)
Theorem unfired_signal_is_harmless P server tmo url body init :
  match signalFor P {| fetchFn := networkFetch server; timeoutMs := tmo |} init with
  | Some sg =>
      match abortsAt sg with
      | Some a => completesBefore (server url (jsonText P body)) a
      | None => true
      end
  | None => true
  end = true ->
  outcome (postJson P {| fetchFn := networkFetch server; timeoutMs := tmo |} url body init)
  = outcome (postJson P {| fetchFn := networkFetch server; timeoutMs := None |}
               url body None).
Proof.
  intros H. rewrite !postJson_eq. unfold jsonText in H.
  destruct (JSON_stringify P body) as [json|e]; [|reflexivity].
  cbn [outcome snd fetchFn].
  transitivity (settle P url (completion (server url json))).
  - destruct (signalFor P {| fetchFn := networkFetch server; timeoutMs := tmo |} init)
      as [sg|] eqn:Sg.
    + destruct (abortsAt sg) as [a|] eqn:A.
      * rewrite (@networkFetch_settle P server url _ sg a); auto.
        cbn [Effects.body requestFor]. now rewrite H.
      * rewrite networkFetch_unsignalled; auto.
        cbn [signal requestFor]. now rewrite Sg.
    + rewrite networkFetch_unsignalled; auto.
      cbn [signal requestFor]. now rewrite Sg.
  - rewrite networkFetch_unsignalled; auto. exact I.
Qed.

Lemma unfired_signal_is_harmless_witness :
  completesBefore (replying (lit "R") url0 (jsonText (platformReading oddUsage) VNull))
    (setTimeout_delay (platformReading oddUsage) (ofZ 10)) = true
  /\ outcome (postJson (platformReading oddUsage)
                {| fetchFn := networkFetch (replying (lit "R")); timeoutMs := ms 10 |}
                url0 VNull None)
     = Fulfilled oddUsage.
Proof.
  assert (H : completesBefore
                (replying (lit "R") url0 (jsonText (platformReading oddUsage) VNull))
                (setTimeout_delay (platformReading oddUsage) (ofZ 10)) = true)
    by (vm_compute; reflexivity).
  assert (R : outcome (postJson (platformReading oddUsage)
                         {| fetchFn := networkFetch (replying (lit "R"));
                            timeoutMs := None |} url0 VNull None)
              = Fulfilled oddUsage) by (vm_compute; reflexivity).
  split; [exact H|].
  exact (eq_trans
           (@unfired_signal_is_harmless (platformReading oddUsage) (replying (lit "R"))
              (ms 10) url0 VNull None H) R).
Defined.

End TransportCoverage.

(** ** Failures of the digest in [generate] *)

Module DigestCoverage.
Import AsyncFacts GenerateFacts GenerateTrace Authorization Fixture Fixture2.

(** X19.  When the digest cannot be computed, [generate] ends as the
    digest provider did (rejected with its error, or never settled), and
    when the provider returns anything but 32 bytes [generate] fails with
    "expected a 32-byte hash to sign"; in each case the wallet is not
    called and nothing is sent. *)
Theorem digest_failures_end_the_call P this wallet input t1 :
  validation P wallet input = Ok tt ->
  (forall e, hashDeterministicJson P (payload P this wallet input) = (t1, Rejected e) ->
             generate P this (Some wallet) input = (t1, Rejected e))
  /\ (hashDeterministicJson P (payload P this wallet input) = (t1, Pending) ->
      generate P this (Some wallet) input = (t1, Pending))
  /\ (forall h, hashDeterministicJson P (payload P this wallet input)
                = (t1, Fulfilled h) ->
                length (bytes h) <> 32 ->
                generate P this (Some wallet) input = (t1, Rejected hashLengthError))
  /\ (forall o, hashDeterministicJson P (payload P this wallet input) = (t1, o) ->
                Forall (fun ev => isDigest ev = true) t1).
Proof.
  intros V. rewrite (@generate_valid P this _ _ V). repeat split.
  - intros e H. now rewrite H.
  - intros H. now rewrite H.
  - intros h H L. rewrite H, bind_Fulfilled.
    unfold signHash. rewrite (validation_key _ _ _ V), bind_sync_Ok.
    apply Nat.eqb_neq in L. rewrite L. simpl. now rewrite app_nil_r.
  - intros o H. pose proof (hashDeterministicJson_trace P (payload P this wallet input)) as D.
    now rewrite H in D.
Qed.

Lemma digest_failures_end_the_call_witness :
  validation noCrypto (wallet goodKey sig64) goodInput = Ok tt
  /\ hashDeterministicJson noCrypto
       (payload noCrypto (client idle) (wallet goodKey sig64) goodInput)
     = ([], Rejected noSha256Error)
  /\ generate noCrypto (client idle) (Some (wallet goodKey sig64)) goodInput
     = ([], Rejected noSha256Error).
Proof.
  split; [reflexivity|]. split; [reflexivity|].
  apply (proj1 (@digest_failures_end_the_call noCrypto (client idle)
                  (wallet goodKey sig64) goodInput [] eq_refl)).
  reflexivity.
Defined.

End DigestCoverage.
